(** * librbd asynchronous image requests and their work queue

    A shallow embedding of [librbd/AioImageRequest.cc] (the per-operation
    request objects) and [librbd/AioImageRequestWQ.cc] (the queue that
    dispatches them), with the properties the specification states about
    them.

    [common/Logger.cc], the periodic flushing of the loggers of a process,
    is embedded in a module of its own, [LoggerCc].

    The embedding threads one explicit state, the work queue together with
    its image context, through every operation.  Calls into collaborators
    (image watcher, completion aggregate, object store, cache, journal) are
    appended to a trace of effects in program order. *)

From Stdlib Require Import ZArith List Bool Lia.
From Stdlib Require Strings.String.
From Stdlib Require Import Init.Byte.
Import ListNotations.
Local Open Scope Z_scope.

(** ** Constants *)

Definition EROFS : Z := 30.
Definition EPERM : Z := 1.
Definition ENOENT : Z := 2.
Definition EIO : Z := 5.

(** [CEPH_NOSNAP] is [(uint64_t)(-2)]. *)
Definition CEPH_NOSNAP : Z := 2 ^ 64 - 2.

Definition LIBRADOS_OP_FLAG_FADVISE_RANDOM : Z := 4.

Definition uint64 (z : Z) : Z := z mod 2 ^ 64.

(** Conversions of the return statements: [ssize_t] is 64 bits wide, [int]
    32 bits. *)
Definition to_ssize_t (z : Z) : Z := (z + 2 ^ 63) mod 2 ^ 64 - 2 ^ 63.
Definition to_int (z : Z) : Z := (z + 2 ^ 31) mod 2 ^ 32 - 2 ^ 31.

(** ** Data model *)

Definition bufferlist := list byte.

(** [ceph_file_layout]: the three striping parameters the code reads. *)
Record file_layout := {
  fl_stripe_unit : Z;
  fl_stripe_count : Z;
  fl_object_size : Z
}.

(** [ObjectExtent]: the object name is a function of [objectno], so the
    number stands for both. *)
Record ObjectExtent := {
  objectno : Z;
  offset : Z;
  length : Z;
  buffer_extents : list (Z * Z)
}.

Definition ObjectExtents := list ObjectExtent.

(** [::SnapContext]: sequence number and snapshot ids. *)
Record SnapContext := {
  seq : Z;
  snaps : list Z
}.

Inductive AioType :=
| AIO_TYPE_READ
| AIO_TYPE_WRITE
| AIO_TYPE_DISCARD
| AIO_TYPE_FLUSH.

(** A completion aggregate is referred to by the identity of the
    [AioCompletion] object. *)
Definition AioCompletion := nat.

(** The per-object requests [AioImageRequest.cc] constructs. *)
Inductive AioObjectRequest :=
| AioObjectRead (objno off len : Z) (bext : list (Z * Z)) (snap : Z)
    (op_flags : Z)
| AioObjectWrite (objno off : Z) (bl : bufferlist) (snapc : SnapContext)
    (op_flags : Z)
| AioObjectRemove (objno : Z) (snapc : SnapContext)
| AioObjectTruncate (objno off : Z) (snapc : SnapContext)
| AioObjectZero (objno off len : Z) (snapc : SnapContext).

Definition AioObjectRequests := list AioObjectRequest.

(** [journal::EventEntry] with the three variants this file emits. *)
Inductive EventEntry :=
| AioWriteEvent (off len : Z) (data : bufferlist)
| AioDiscardEvent (off len : Z)
| AioFlushEvent.

Inductive PerfCounter :=
| l_librbd_rd
| l_librbd_rd_bytes
| l_librbd_wr
| l_librbd_wr_bytes
| l_librbd_discard
| l_librbd_discard_bytes
| l_librbd_aio_flush.

(** The image request variants, with the members their constructors store. *)
Inductive AioImageRequest :=
| AioImageRead (c : AioCompletion) (extents : list (Z * Z)) (op_flags : Z)
| AioImageWrite (c : AioCompletion) (off len : Z) (buf : bufferlist)
    (op_flags : Z) (synchronous : bool)
| AioImageDiscard (c : AioCompletion) (off len : Z) (synchronous : bool)
| AioImageFlush (c : AioCompletion).

Definition m_aio_comp (req : AioImageRequest) : AioCompletion :=
  match req with
  | AioImageRead c _ _ => c
  | AioImageWrite c _ _ _ _ _ => c
  | AioImageDiscard c _ _ _ => c
  | AioImageFlush c => c
  end.

(** Who executes [send()]: the submitting thread or a pool worker. *)
Inductive Thread :=
| Caller
| Worker.

(** Calls into collaborators, in program order. *)
Inductive Effect :=
| Run (t : Thread) (req : AioImageRequest)
| Comp_get (c : AioCompletion)
| Comp_fail (c : AioCompletion) (r : Z)
| Comp_init_time (c : AioCompletion) (t : AioType)
| Comp_finish_adding_requests (c : AioCompletion)
| Comp_put (c : AioCompletion)
| New_C_AioRequest (c : AioCompletion)
| Delete_on_finish (c : AioCompletion)
| Object_send (c : AioCompletion) (req : AioObjectRequest)
| Journal_append_event (c : AioCompletion) (ev : EventEntry)
    (reqs : AioObjectRequests) (sync : bool)
| Cache_read (c : AioCompletion) (req : AioObjectRequest)
| Cache_write (c : AioCompletion) (objno : Z) (bl : bufferlist)
    (len off : Z) (op_flags : Z)
| Cache_discard (extents : ObjectExtents)
| Cache_flush (c : AioCompletion)
| Readahead (extents : list (Z * Z))
| Flush_async_operations (c : AioCompletion)
| Aio_flush_async (c : AioCompletion)
| Perf_inc (k : PerfCounter) (amount : Z)
| Watcher_flag_aio_ops_pending
| Watcher_clear_aio_ops_pending
| Watcher_request_lock.

(** Modelled from the spec: the image watcher ([ImageWatcher.cc] is not part
    of the sources).  The interface consumed is [is_lock_supported],
    [is_lock_owner], [request_lock], [flag_aio_ops_pending] and
    [clear_aio_ops_pending]; the last two raise and clear the
    async-ops-pending flag. *)
Record ImageWatcher := {
  lock_supported : bool;
  lock_owner : bool;
  aio_ops_pending : bool
}.

Definition is_lock_supported (w : ImageWatcher) : bool := lock_supported w.
Definition is_lock_owner (w : ImageWatcher) : bool := lock_owner w.

Definition set_aio_ops_pending (b : bool) (w : ImageWatcher) : ImageWatcher :=
  {| lock_supported := lock_supported w;
     lock_owner := lock_owner w;
     aio_ops_pending := b |}.

(** [ImageCtx]: the members the two files read.  [journal] holds the
    journal's last event tid when a journal is open; [ictx_check_result] is
    what [ictx_check] (not part of the sources) answers for this image. *)
Record ImageCtx := {
  snap_id : Z;
  read_only : bool;
  image_size : Z;
  layout : file_layout;
  snapc_of : SnapContext;
  object_cacher : bool;
  readahead_max_bytes : Z;
  journal : option Z;
  image_watcher : option ImageWatcher;
  non_blocking_aio : bool;
  rbd_skip_partial_discard : bool;
  ictx_check_result : Z
}.

(** The work queue: the members of [AioImageRequestWQ], the pending items
    of the [ThreadPool::PointerWQ] base, the items workers hold between
    dequeue and the end of [process], and the trace. *)
Record AioImageRequestWQ := {
  m_image_ctx : ImageCtx;
  m_items : list AioImageRequest;
  m_processing : list AioImageRequest;
  m_queued_writes : Z;
  m_in_progress_writes : Z;
  m_writes_suspended : bool;
  trace : list Effect
}.

(** ** Collaborators that are not part of the sources *)

(** Modelled from the spec: [clip_io] ([internal.cc] is not part of the
    sources).  The length is clipped against the volume length, to
    [max(0, volume_length - offset)]; the first component is the return
    code the callers test. *)
Definition clip_io (ictx : ImageCtx) (off len : Z) : Z * Z :=
  (0, Z.min len (Z.max 0 (image_size ictx - off))).

(** Add one stripe-unit piece to the extents found so far: extend the extent
    of the same object that ends where the piece starts, or open a new one. *)
Fixpoint add_block (exts : ObjectExtents) (objno x_offset x_len boff : Z)
  : ObjectExtents :=
  match exts with
  | [] => [ {| objectno := objno; offset := x_offset; length := x_len;
               buffer_extents := [(boff, x_len)] |} ]
  | e :: rest =>
      if (objectno e =? objno) && (offset e + length e =? x_offset)
      then {| objectno := objno; offset := offset e;
              length := length e + x_len;
              buffer_extents := buffer_extents e ++ [(boff, x_len)] |} :: rest
      else e :: add_block rest objno x_offset x_len boff
  end.

Fixpoint file_to_extents_loop (fuel : nat) (l : file_layout)
    (base boff cur left : Z) (acc : ObjectExtents) : ObjectExtents :=
  match fuel with
  | O => acc
  | S fuel' =>
      if left <=? 0 then acc
      else
        let su := fl_stripe_unit l in
        let stripe_count := fl_stripe_count l in
        let stripes_per_object := fl_object_size l / su in
        let blockno := cur / su in
        let stripeno := blockno / stripe_count in
        let stripepos := blockno mod stripe_count in
        let objectsetno := stripeno / stripes_per_object in
        let objno := objectsetno * stripe_count + stripepos in
        let block_start := (stripeno mod stripes_per_object) * su in
        let block_off := cur mod su in
        let max := su - block_off in
        let x_offset := block_start + block_off in
        let x_len := Z.min left max in
        file_to_extents_loop fuel' l base boff (cur + x_len) (left - x_len)
          (add_block acc objno x_offset x_len (cur - base + boff))
  end.

(** Modelled from the spec: [Striper::file_to_extents] ([osdc/Striper.cc] is
    not part of the sources).  The volume is cut into stripe units of
    [fl_stripe_unit] bytes, stripe unit [i] goes to position
    [i mod fl_stripe_count] of its object set, and every extent records the
    slices of the caller's buffer it covers.  One byte at least is consumed
    per round, so [len] rounds are enough. *)
Definition file_to_extents (l : file_layout) (off len buffer_offset : Z)
  : ObjectExtents :=
  file_to_extents_loop (Z.to_nat len) l off buffer_offset off len [].

(** Modelled from the spec: [Journal::append_event] ([Journal.cc] is not
    part of the sources): "allocate a new tid = previous + 1". *)
Definition journal_append_event (tid : Z) : Z := uint64 (tid + 1).

Definition set_journal (j : option Z) (i : ImageCtx) : ImageCtx :=
  {| snap_id := snap_id i; read_only := read_only i;
     image_size := image_size i; layout := layout i;
     snapc_of := snapc_of i; object_cacher := object_cacher i;
     readahead_max_bytes := readahead_max_bytes i;
     journal := j; image_watcher := image_watcher i;
     non_blocking_aio := non_blocking_aio i;
     rbd_skip_partial_discard := rbd_skip_partial_discard i;
     ictx_check_result := ictx_check_result i |}.

Definition set_image_watcher (w : option ImageWatcher) (i : ImageCtx)
  : ImageCtx :=
  {| snap_id := snap_id i; read_only := read_only i;
     image_size := image_size i; layout := layout i;
     snapc_of := snapc_of i; object_cacher := object_cacher i;
     readahead_max_bytes := readahead_max_bytes i;
     journal := journal i; image_watcher := w;
     non_blocking_aio := non_blocking_aio i;
     rbd_skip_partial_discard := rbd_skip_partial_discard i;
     ictx_check_result := ictx_check_result i |}.

(** ** [AioImageRequest.cc]

    Every function of the send path yields the effects it performs, in
    order; the journal tid is the only part of the image context it
    changes. *)

(** [bl->append(m_buf + q->first, q->second)] for every buffer extent. *)
Fixpoint assemble_extent (bext : list (Z * Z)) (buf : bufferlist)
  : bufferlist :=
  match bext with
  | [] => []
  | q :: rest =>
      firstn (Z.to_nat (snd q)) (skipn (Z.to_nat (fst q)) buf)
        ++ assemble_extent rest buf
  end.

Definition get_aio_type (req : AioImageRequest) : AioType :=
  match req with
  | AioImageRead _ _ _ => AIO_TYPE_READ
  | AioImageWrite _ _ _ _ _ _ => AIO_TYPE_WRITE
  | AioImageDiscard _ _ _ _ => AIO_TYPE_DISCARD
  | AioImageFlush _ => AIO_TYPE_FLUSH
  end.

(** [AioImageWrite::send_object_request] and
    [AioImageDiscard::send_object_request]: the child request, if one is
    constructed, and the effects of the call. *)
Definition send_object_request (ictx : ImageCtx) (req : AioImageRequest)
    (object_extent : ObjectExtent) (snapc : SnapContext)
  : option AioObjectRequest * list Effect :=
  match req with
  | AioImageWrite _ _ _ buf op_flags _ =>
      if object_cacher ictx then (None, [])
      else
        let bl := assemble_extent (buffer_extents object_extent) buf in
        (Some (AioObjectWrite (objectno object_extent)
                 (offset object_extent) bl snapc op_flags), [])
  | AioImageDiscard c _ _ _ =>
      if length object_extent =? fl_object_size (layout ictx)
      then (Some (AioObjectRemove (objectno object_extent) snapc), [])
      else if uint64 (offset object_extent + length object_extent)
                =? fl_object_size (layout ictx)
      then (Some (AioObjectTruncate (objectno object_extent)
                    (offset object_extent) snapc), [])
      else if rbd_skip_partial_discard ictx
      then (None, [Delete_on_finish c])
      else (Some (AioObjectZero (objectno object_extent)
                    (offset object_extent) (length object_extent) snapc), [])
  | _ => (None, [])
  end.

(** [AbstractAioImageWrite::send_object_requests]; [stash] says whether the
    list pointer is non-null, [requests] is the list so far. *)
Fixpoint send_object_requests (ictx : ImageCtx) (req : AioImageRequest)
    (object_extents : ObjectExtents) (snapc : SnapContext) (stash : bool)
    (requests : AioObjectRequests)
  : AioObjectRequests * list Effect :=
  match object_extents with
  | [] => (requests, [])
  | p :: rest =>
      let '(request, es) := send_object_request ictx req p snapc in
      let c := m_aio_comp req in
      match request with
      | Some r =>
          if stash
          then
            let '(rs, es') :=
              send_object_requests ictx req rest snapc stash
                (requests ++ [r]) in
            (rs, New_C_AioRequest c :: es ++ es')
          else
            let '(rs, es') :=
              send_object_requests ictx req rest snapc stash requests in
            (rs, New_C_AioRequest c :: es ++ Object_send c r :: es')
      | None =>
          let '(rs, es') :=
            send_object_requests ictx req rest snapc stash requests in
          (rs, New_C_AioRequest c :: es ++ es')
      end
  end.

(** [AioImageWrite::append_journal_event] and
    [AioImageDiscard::append_journal_event]: the new tid and the effect. *)
Definition append_journal_event (tid : Z) (req : AioImageRequest)
    (requests : AioObjectRequests) (synchronous : bool)
  : Z * list Effect :=
  match req with
  | AioImageWrite c off len buf _ _ =>
      let bl := firstn (Z.to_nat len) buf in
      (journal_append_event tid,
       [Journal_append_event c (AioWriteEvent off len bl) requests
          synchronous])
  | AioImageDiscard c off len _ =>
      (journal_append_event tid,
       [Journal_append_event c (AioDiscardEvent off len) requests
          synchronous])
  | _ => (tid, [])
  end.

(** [AioImageWrite::send_cache_requests] and
    [AioImageDiscard::send_cache_requests]. *)
Definition send_cache_requests (req : AioImageRequest)
    (object_extents : ObjectExtents) (journal_tid : Z) : list Effect :=
  match req with
  | AioImageWrite c _ _ buf op_flags _ =>
      flat_map (fun object_extent =>
        [New_C_AioRequest c;
         Cache_write c (objectno object_extent)
           (assemble_extent (buffer_extents object_extent) buf)
           (length object_extent) (offset object_extent) op_flags])
        object_extents
  | AioImageDiscard _ _ _ _ => [Cache_discard object_extents]
  | _ => []
  end.

Definition update_stats (req : AioImageRequest) (len : Z) : list Effect :=
  match req with
  | AioImageWrite _ _ _ _ _ _ =>
      [Perf_inc l_librbd_wr 1; Perf_inc l_librbd_wr_bytes len]
  | AioImageDiscard _ _ _ _ =>
      [Perf_inc l_librbd_discard 1; Perf_inc l_librbd_discard_bytes len]
  | _ => []
  end.

(** What a send path hands back: whether it ran to its end ([false] when an
    assertion fails or a null pointer is used), the image context and the
    effects up to that point. *)
Record Sent := {
  sent_ok : bool;
  sent_ctx : ImageCtx;
  sent_effects : list Effect
}.

(** [AbstractAioImageWrite::send_request]. *)
Definition write_send_request (ictx : ImageCtx) (req : AioImageRequest)
    (m_off m_len : Z) (m_synchronous : bool) : Sent :=
  let c := m_aio_comp req in
  match image_watcher ictx with
  | None => {| sent_ok := false; sent_ctx := ictx; sent_effects := [] |}
  | Some w =>
      if negb (negb (is_lock_supported w) || is_lock_owner w)
      then {| sent_ok := false; sent_ctx := ictx; sent_effects := [] |}
      else if negb (snap_id ictx =? CEPH_NOSNAP) || read_only ictx
      then {| sent_ok := true; sent_ctx := ictx;
              sent_effects := [Comp_fail c (- EROFS)] |}
      else
        let '(r, clip_len) := clip_io ictx m_off m_len in
        if r <? 0
        then {| sent_ok := true; sent_ctx := ictx;
                sent_effects := [Comp_fail c r] |}
        else
          let snapc := snapc_of ictx in
          let object_extents :=
            if 0 <? clip_len
            then file_to_extents (layout ictx) m_off clip_len 0
            else [] in
          let journaling :=
            match journal ictx with Some _ => true | None => false end in
          let '(requests, es_obj) :=
            send_object_requests ictx req object_extents snapc journaling
              [] in
          let '(journal_tid, ictx', es_journal) :=
            match journal ictx with
            | Some tid =>
                let '(tid', es) :=
                  append_journal_event tid req requests m_synchronous in
                (tid', set_journal (Some tid') ictx, es)
            | None => (0, ictx, [])
            end in
          let es_cache :=
            if object_cacher ictx
            then send_cache_requests req object_extents journal_tid
            else [] in
          {| sent_ok := true; sent_ctx := ictx';
             sent_effects :=
               Comp_init_time c (get_aio_type req) :: es_obj ++ es_journal
                 ++ es_cache ++ update_stats req clip_len
                 ++ [Comp_finish_adding_requests c; Comp_put c] |}
  end.

(** The [map<object_t, vector<ObjectExtent>>] that
    [AioImageRead::send_request] fills and then walks: the objects with
    their extents, in key order.  An object is named after its number, so
    the order of the keys is taken to be the order of the object
    numbers. *)
Definition object_map := list (Z * ObjectExtents).

(** Add one stripe-unit piece to the mapping: to the extents of its object,
    which get an entry at their place in the key order when they have
    none. *)
Fixpoint map_add_block (m : object_map) (objno x_offset x_len boff : Z)
  : object_map :=
  match m with
  | [] => [(objno, add_block [] objno x_offset x_len boff)]
  | (k, exv) :: rest =>
      if objno <? k
      then (objno, add_block [] objno x_offset x_len boff) :: m
      else if objno =? k
      then (k, add_block exv objno x_offset x_len boff) :: rest
      else (k, exv) :: map_add_block rest objno x_offset x_len boff
  end.

Fixpoint file_to_extents_map_loop (fuel : nat) (l : file_layout)
    (base boff cur left : Z) (acc : object_map) : object_map :=
  match fuel with
  | O => acc
  | S fuel' =>
      if left <=? 0 then acc
      else
        let su := fl_stripe_unit l in
        let stripe_count := fl_stripe_count l in
        let stripes_per_object := fl_object_size l / su in
        let blockno := cur / su in
        let stripeno := blockno / stripe_count in
        let stripepos := blockno mod stripe_count in
        let objectsetno := stripeno / stripes_per_object in
        let objno := objectsetno * stripe_count + stripepos in
        let block_start := (stripeno mod stripes_per_object) * su in
        let block_off := cur mod su in
        let max := su - block_off in
        let x_offset := block_start + block_off in
        let x_len := Z.min left max in
        file_to_extents_map_loop fuel' l base boff (cur + x_len)
          (left - x_len)
          (map_add_block acc objno x_offset x_len (cur - base + boff))
  end.

(** Modelled from the spec: the overload of [Striper::file_to_extents]
    ([osdc/Striper.cc] is not part of the sources) that adds the extents of
    a range to a "mapping from object-id to ordered list of
    object-extents" it is given; the pieces are those of
    [file_to_extents]. *)
Definition file_to_extents_map (l : file_layout) (off len : Z)
    (object_extents : object_map) (buffer_offset : Z) : object_map :=
  file_to_extents_map_loop (Z.to_nat len) l off buffer_offset off len
    object_extents.

(** The mapping loop of [AioImageRead::send_request]: the error of the
    first range [clip_io] rejects, or the mapping and the number of buffer
    bytes mapped. *)
Fixpoint read_map_loop (ictx : ImageCtx) (image_extents : list (Z * Z))
    (object_extents : object_map) (buffer_ofs : Z)
  : Z + object_map * Z :=
  match image_extents with
  | [] => inr (object_extents, buffer_ofs)
  | p :: rest =>
      let '(r, len) := clip_io ictx (fst p) (snd p) in
      if r <? 0 then inl r
      else if len =? 0
      then read_map_loop ictx rest object_extents buffer_ofs
      else
        read_map_loop ictx rest
          (file_to_extents_map (layout ictx) (fst p) len object_extents
             buffer_ofs)
          (uint64 (buffer_ofs + len))
  end.

(** The order in which the second loop of [AioImageRead::send_request]
    visits the extents: object after object in key order, the extents of
    an object in the order of its vector. *)
Definition walk (m : object_map) : ObjectExtents := flat_map snd m.


(** The mapping loop, with the extents in the order they are then walked
    in. *)
Definition read_map (ictx : ImageCtx) (image_extents : list (Z * Z))
    (object_extents : object_map) (buffer_ofs : Z)
  : Z + ObjectExtents * Z :=
  match read_map_loop ictx image_extents object_extents buffer_ofs with
  | inl r => inl r
  | inr (m, buffer_ofs') => inr (walk m, buffer_ofs')
  end.

(** [AioImageRead::send_request]. *)
Definition read_send_request (ictx : ImageCtx) (c : AioCompletion)
    (m_image_extents : list (Z * Z)) (m_op_flags : Z) : Sent :=
  let es_ra :=
    if object_cacher ictx && (0 <? readahead_max_bytes ictx)
       && (Z.land m_op_flags LIBRADOS_OP_FLAG_FADVISE_RANDOM =? 0)
    then [Readahead m_image_extents] else [] in
  match read_map ictx m_image_extents [] 0 with
  | inl r =>
      {| sent_ok := true; sent_ctx := ictx;
         sent_effects := es_ra ++ [Comp_fail c r] |}
  | inr (object_extents, buffer_ofs) =>
      let per_extent (q : ObjectExtent) :=
        let req := AioObjectRead (objectno q) (offset q) (length q)
                     (buffer_extents q) (snap_id ictx) m_op_flags in
        if object_cacher ictx
        then [New_C_AioRequest c; Cache_read c req]
        else [New_C_AioRequest c; Object_send c req] in
      {| sent_ok := true; sent_ctx := ictx;
         sent_effects :=
           es_ra ++ [Comp_init_time c AIO_TYPE_READ]
             ++ flat_map per_extent object_extents
             ++ [Comp_finish_adding_requests c; Comp_put c;
                 Perf_inc l_librbd_rd 1;
                 Perf_inc l_librbd_rd_bytes buffer_ofs] |}
  end.

(** [AioImageFlush::send_request]. *)
Definition flush_send_request (ictx : ImageCtx) (c : AioCompletion) : Sent :=
  let '(ictx', es_journal) :=
    match journal ictx with
    | Some tid =>
        (set_journal (Some (journal_append_event tid)) ictx,
         [Journal_append_event c AioFlushEvent [] true])
    | None => (ictx, [])
    end in
  {| sent_ok := true; sent_ctx := ictx';
     sent_effects :=
       es_journal
         ++ [New_C_AioRequest c; Flush_async_operations c;
             Comp_init_time c AIO_TYPE_FLUSH; New_C_AioRequest c]
         ++ (if object_cacher ictx then [Cache_flush c]
             else [Aio_flush_async c])
         ++ [Comp_finish_adding_requests c; Comp_put c;
             Perf_inc l_librbd_aio_flush 1] |}.

(** The virtual [send_request]. *)
Definition send_request (ictx : ImageCtx) (req : AioImageRequest) : Sent :=
  match req with
  | AioImageRead c extents op_flags => read_send_request ictx c extents op_flags
  | AioImageWrite _ off len _ _ sync => write_send_request ictx req off len sync
  | AioImageDiscard _ off len sync => write_send_request ictx req off len sync
  | AioImageFlush c => flush_send_request ictx c
  end.

(** [AioImageRequest::send]. *)
Definition send (ictx : ImageCtx) (req : AioImageRequest) : Sent :=
  let c := m_aio_comp req in
  let r := ictx_check_result ictx in
  if r <? 0
  then {| sent_ok := true; sent_ctx := ictx;
          sent_effects := [Comp_get c; Comp_fail c r] |}
  else
    let out := send_request ictx req in
    {| sent_ok := sent_ok out; sent_ctx := sent_ctx out;
       sent_effects := Comp_get c :: sent_effects out |}.

(** ** [common/Logger.cc]

    The periodic flushing of the process-wide loggers.  The counters of a
    logger ([inc], [set], [favg], ... and the values [_flush] prints) go
    through [LogType.h] and [Logger.h], which are not part of the sources;
    the embedding keeps what [Logger.cc] itself decides: which lines a
    logger writes, when, and with which time stamp. *)

Module LoggerCc.
Import String.

(** [utime_t], as far as the file reads it: the fields behind [sec()],
    [usec()], [sec_ref()] and [usec_ref()]. *)
Record utime_t := { sec : Z; usec : Z }.

(** [operator<] and [operator-=] of [utime_t]; [include/utime.h] is not part
    of the sources, so they are left open. *)
Class utime_ops := {
  utime_lt : utime_t -> utime_t -> bool;
  utime_sub : utime_t -> utime_t -> utime_t
}.

(** The settings of [g_conf] the modelled functions read; [log_interval] is
    a number of seconds, [log_name] a C string that may be null. *)
Record md_config_t := {
  log_interval : Z;
  use_abspaths : bool;
  log_name : option string;
  clock_tare : bool
}.

(** What a logger writes to its file: the header line, written for a
    version of its type, and a line of values, which opens with the time
    stamp. *)
Inductive Line :=
| Header (version : Z)
| Values (stamp : Z).

(** A [Logger] object: [out] is what went to its stream, [type_version]
    is [type->version]. *)
Record Logger := {
  filename : string;
  type_version : Z;
  wrote_header : Z;
  wrote_header_last : Z;
  out : list Line
}.

(** The globals of the file.  Loggers and timer events are named by their
    addresses; [logger_timer] holds the events [add_event_at] scheduled
    that have not fired, [allocated] counts the [C_FlushLoggers] created,
    [made_dirs] records the calls of [mkdir], [closed] the loggers that
    were destroyed, with what they wrote. *)
Record Globals := {
  start : utime_t;
  last_flush : Z;
  logger_list : list (nat * Logger);
  logger_event : option nat;
  logger_timer : list (utime_t * nat);
  allocated : nat;
  made_dirs : list string;
  closed : list Logger
}.

Definition set_start (s : utime_t) (g : Globals) : Globals :=
  {| start := s; last_flush := last_flush g; logger_list := logger_list g;
     logger_event := logger_event g; logger_timer := logger_timer g;
     allocated := allocated g; made_dirs := made_dirs g;
     closed := closed g |}.

Definition set_last_flush (n : Z) (g : Globals) : Globals :=
  {| start := start g; last_flush := n; logger_list := logger_list g;
     logger_event := logger_event g; logger_timer := logger_timer g;
     allocated := allocated g; made_dirs := made_dirs g;
     closed := closed g |}.

Definition set_logger_list (l : list (nat * Logger)) (g : Globals)
  : Globals :=
  {| start := start g; last_flush := last_flush g; logger_list := l;
     logger_event := logger_event g; logger_timer := logger_timer g;
     allocated := allocated g; made_dirs := made_dirs g;
     closed := closed g |}.

Definition set_logger_event (e : option nat) (g : Globals) : Globals :=
  {| start := start g; last_flush := last_flush g;
     logger_list := logger_list g; logger_event := e;
     logger_timer := logger_timer g; allocated := allocated g;
     made_dirs := made_dirs g; closed := closed g |}.

(** [Logger::_flush], called with the global [last_flush]. *)
Definition _flush (last_flush : Z) (l : Logger) : Logger :=
  let n := wrote_header_last l + 1 in
  if negb (wrote_header l =? type_version l) || (10 <? n)
  then {| filename := filename l; type_version := type_version l;
          wrote_header := type_version l; wrote_header_last := 0;
          out := out l ++ [Header (type_version l); Values last_flush] |}
  else {| filename := filename l; type_version := type_version l;
          wrote_header := wrote_header l; wrote_header_last := n;
          out := out l ++ [Values last_flush] |}.

(** The catching-up loop of [flush_all_loggers]; [None] when [fuel] rounds
    did not end it. *)
Fixpoint catch_up (fuel : nat) (interval now_sec : Z) (g : Globals)
  : option Globals :=
  if interval <=? now_sec - last_flush g
  then
    match fuel with
    | O => None
    | S fuel' =>
        catch_up fuel' interval now_sec
          (set_last_flush (last_flush g + interval)
             (set_logger_list
                (map (fun p => (fst p, _flush (last_flush g) (snd p)))
                   (logger_list g))
                g))
    end
  else Some g.

(** [flush_all_loggers]; [now] is what [g_clock.now()] answers. *)
Definition flush_all_loggers `{utime_ops} (fuel : nat) (conf : md_config_t)
    (now : utime_t) (g : Globals) : option Globals :=
  let start' := if utime_lt now (start g) then now else start g in
  let fromstart := utime_sub now start' in
  let now_sec := to_int (sec fromstart) in
  match catch_up fuel (log_interval conf) now_sec (set_start start' g) with
  | None => None
  | Some g1 =>
      let next := {| sec := sec start' + last_flush g1 + log_interval conf;
                     usec := usec start' |} in
      Some {| start := start g1; last_flush := last_flush g1;
              logger_list := logger_list g1;
              logger_event := Some (allocated g1);
              logger_timer := logger_timer g1 ++ [(next, allocated g1)];
              allocated := S (allocated g1); made_dirs := made_dirs g1;
              closed := closed g1 |}
  end.

(** [C_FlushLoggers::finish], for the event at address [this]. *)
Definition finish `{utime_ops} (fuel : nat) (conf : md_config_t)
    (now : utime_t) (this : nat) (g : Globals) : option Globals :=
  match logger_event g with
  | Some e =>
      if Nat.eqb e this
      then flush_all_loggers fuel conf now (set_logger_event None g)
      else Some g
  | None => Some g
  end.

(** The name [Logger::Logger] opens; [cwd] is what
    [get_current_dir_name()] answers.  The second component is the
    directory it makes, if any. *)
Definition logger_filename (conf : md_config_t) (cwd fn : string)
  : string * list string :=
  let filename := ""%string in
  let filename :=
    if use_abspaths conf then (cwd ++ "/")%string else filename in
  let filename := "log/"%string in
  let '(filename, dirs) :=
    match log_name conf with
    | Some name =>
        let filename := (filename ++ name)%string in
        ((filename ++ "/")%string, [filename])
    | None => (filename, [])
    end in
  ((filename ++ fn)%string, dirs).

(** [Logger::Logger] for the object at address [this]; [now0] is the clock
    reading the constructor takes, [now] the one [flush_all_loggers] takes
    after it. *)
Definition new_Logger `{utime_ops} (fuel : nat) (conf : md_config_t)
    (cwd : string) (now0 now : utime_t) (this : nat) (fn : string)
    (type_version : Z) (g : Globals) : option Globals :=
  let '(filename, dirs) := logger_filename conf cwd fn in
  let l := {| filename := filename; type_version := type_version;
              wrote_header := -1; wrote_header_last := 0; out := [] |} in
  let g := {| start := start g; last_flush := last_flush g;
              logger_list := logger_list g; logger_event := logger_event g;
              logger_timer := logger_timer g; allocated := allocated g;
              made_dirs := made_dirs g ++ dirs; closed := closed g |} in
  match
    match logger_list g with
    | [] =>
        let g := if clock_tare conf then g else set_start now0 g in
        flush_all_loggers fuel conf now (set_last_flush 0 g)
    | _ :: _ => Some g
    end
  with
  | None => None
  | Some g' => Some (set_logger_list (logger_list g' ++ [(this, l)]) g')
  end.

(** [Logger::~Logger] for the logger [l] at address [this]. *)
Definition delete_Logger (this : nat) (l : Logger) (g : Globals)
  : Globals :=
  let l := _flush (last_flush g) l in
  let rest :=
    filter (fun p => negb (Nat.eqb (fst p) this)) (logger_list g) in
  {| start := start g; last_flush := last_flush g; logger_list := rest;
     logger_event :=
       match rest with
       | [] => None
       | _ :: _ => logger_event g
       end;
     logger_timer := logger_timer g; allocated := allocated g;
     made_dirs := made_dirs g; closed := closed g ++ [l] |}.

(** What the rest of the process does to the loggers: it constructs one at
    a fresh address, destroys one it constructed, sets the start time, and
    its timer fires an event that was scheduled. *)
Inductive Call :=
| Call_new (this : nat) (fn : string) (type_version : Z) (cwd : string)
    (now0 now : utime_t)
| Call_delete (this : nat)
| Call_set_start (s : utime_t)
| Call_timer (ev : nat) (now : utime_t).

Fixpoint find_logger (this : nat) (l : list (nat * Logger))
  : option Logger :=
  match l with
  | [] => None
  | p :: rest =>
      if Nat.eqb (fst p) this then Some (snd p) else find_logger this rest
  end.

Definition is_scheduled (ev : nat) (g : Globals) : bool :=
  existsb (fun p => Nat.eqb (snd p) ev) (logger_timer g).

(** The globals with the event [ev] taken off the timer. *)
Definition unschedule (ev : nat) (g : Globals) : Globals :=
  {| start := start g; last_flush := last_flush g;
     logger_list := logger_list g; logger_event := logger_event g;
     logger_timer :=
       filter (fun p => negb (Nat.eqb (snd p) ev)) (logger_timer g);
     allocated := allocated g; made_dirs := made_dirs g;
     closed := closed g |}.

(** One call; [None] when the call cannot be made (the address is in use,
    there is no such logger, no such event is scheduled) or does not
    return within [fuel] rounds. *)
Definition call `{utime_ops} (fuel : nat) (conf : md_config_t) (c : Call)
    (g : Globals) : option Globals :=
  match c with
  | Call_new this fn type_version cwd now0 now =>
      match find_logger this (logger_list g) with
      | Some _ => None
      | None => new_Logger fuel conf cwd now0 now this fn type_version g
      end
  | Call_delete this =>
      match find_logger this (logger_list g) with
      | Some l => Some (delete_Logger this l g)
      | None => None
      end
  | Call_set_start s => Some (set_start s g)
  | Call_timer ev now =>
      if is_scheduled ev g
      then
        finish fuel conf now ev (unschedule ev g)
      else None
  end.

Fixpoint calls `{utime_ops} (fuel : nat) (conf : md_config_t)
    (cs : list Call) (g : Globals) : option Globals :=
  match cs with
  | [] => Some g
  | c :: rest =>
      match call fuel conf c g with
      | Some g' => calls fuel conf rest g'
      | None => None
      end
  end.

(** The globals when the process starts: zero-initialised. *)
Definition initial : Globals :=
  {| start := {| sec := 0; usec := 0 |}; last_flush := 0;
     logger_list := []; logger_event := None; logger_timer := [];
     allocated := 0; made_dirs := []; closed := [] |}.

Definition reachable `{utime_ops} (conf : md_config_t) (g : Globals)
  : Prop :=
  exists fuel cs, calls fuel conf cs initial = Some g.

(** The time stamps of the lines of values among [ls]. *)
Definition stamps (ls : list Line) : list Z :=
  flat_map (fun l =>
    match l with
    | Values s => [s]
    | Header _ => []
    end) ls.

(** The stamps of [n] intervals from [from] on. *)
Definition intervals (from interval : Z) (n : nat) : list Z :=
  map (fun k => from + Z.of_nat k * interval) (List.seq 0 n).

(** A logger after flushes at the given values of [last_flush]. *)
Definition flushed (at_stamps : list Z) (l : Logger) : Logger :=
  fold_left (fun l s => _flush s l) at_stamps l.

(** An element paired with its position, counted from [k]. *)
Fixpoint indexed (k : Z) (l : list Z) : list (Z * Z) :=
  match l with
  | [] => []
  | s :: rest => (k, s) :: indexed (k + 1) rest
  end.

Fixpoint increasing (l : list Z) : Prop :=
  match l with
  | [] => True
  | a :: rest =>
      match rest with
      | [] => True
      | b :: _ => a < b
      end /\ increasing rest
  end.

(** The start time [flush_all_loggers] settles on, and the whole seconds
    since then, at the clock reading [now]. *)
Definition start_at `{utime_ops} (now : utime_t) (g : Globals) : utime_t :=
  if utime_lt now (start g) then now else start g.

Definition seconds_since_start `{utime_ops} (now : utime_t) (g : Globals)
  : Z :=
  to_int (sec (utime_sub now (start_at now g))).

(** The whole intervals between [last_flush] and [now_sec]. *)
Definition due (interval now_sec last_flush : Z) : nat :=
  Z.to_nat ((now_sec - last_flush) / interval).

(** The lines a logger writes at the [k]-th flush of its life. *)
Definition lines_of_flush (version : Z) (q : Z * Z) : list Line :=
  if fst q mod 11 =? 0
  then [Header version; Values (snd q)]
  else [Values (snd q)].

(** The name below [log/] a logger is expected under. *)
Definition relative_name (conf : md_config_t) (fn : string) : string :=
  ("log/"
   ++ match log_name conf with
      | Some name => name ++ "/"
      | None => ""
      end
   ++ fn)%string.

(** Stamps that are multiples of the interval, and those below a bound. *)
Definition on_grid (interval : Z) (l : list Z) : Prop :=
  Forall (fun s => 0 <= s /\ s mod interval = 0) l.

Definition below (bound : Z) (l : list Z) : Prop :=
  Forall (fun s => s < bound) l.

(** The lines of values of a logger are well stamped: the stamps grow and
    are multiples of the interval. *)
Definition well_stamped (interval : Z) (l : Logger) : Prop :=
  increasing (stamps (out l)) /\ on_grid interval (stamps (out l)).

(** What the calls keep of the stamps: [last_flush] is a multiple of the
    interval, ahead of every line of a listed logger. *)
Definition stamps_inv (interval : Z) (g : Globals) : Prop :=
  0 <= last_flush g
  /\ last_flush g mod interval = 0
  /\ Forall (fun p => well_stamped interval (snd p)
                      /\ below (last_flush g) (stamps (out (snd p))))
       (logger_list g)
  /\ Forall (well_stamped interval) (closed g).

(** What the calls keep of the timer: the event [logger_event] names is
    scheduled, and there is none when no logger is listed. *)
Definition event_inv (g : Globals) : Prop :=
  match logger_list g with
  | [] => logger_event g = None
  | _ :: _ =>
      exists e, logger_event g = Some e /\ is_scheduled e g = true
  end.

(** [utime_t] compared and subtracted as a number of microseconds, the
    instance the examples run with. *)
Definition usecs (t : utime_t) : Z := sec t * 1000000 + usec t.

#[export] Instance example_utime_ops : utime_ops := {
  utime_lt := fun a b => usecs a <? usecs b;
  utime_sub := fun a b =>
    {| sec := (usecs a - usecs b) / 1000000;
       usec := (usecs a - usecs b) mod 1000000 |}
}.

Definition example_conf : md_config_t :=
  {| log_interval := 5; use_abspaths := true; log_name := Some "osd0"%string;
     clock_tare := false |}.

(** The same settings with a [log_interval] of zero. *)
Definition example_conf_zero : md_config_t :=
  {| log_interval := 0; use_abspaths := true; log_name := Some "osd0"%string;
     clock_tare := false |}.

Definition example_cwd : string := "/home/ceph"%string.
Definition example_fn : string := "osd.log"%string.

Definition at_sec (s : Z) : utime_t := {| sec := s; usec := 0 |}.

(** A logger as its constructor leaves it, and globals that list it. *)
Definition example_logger : Logger :=
  {| filename := relative_name example_conf example_fn; type_version := 0;
     wrote_header := -1; wrote_header_last := 0; out := [] |}.

Definition example_globals : Globals :=
  {| start := at_sec 100; last_flush := 0;
     logger_list := [(1%nat, example_logger)]; logger_event := None;
     logger_timer := []; allocated := 0; made_dirs := []; closed := [] |}.

(** Two loggers are made at second 100; the timer fires at second 117
    and at second 121, then the first logger is destroyed. *)
Definition example_calls : list Call :=
  [Call_new 1%nat example_fn 0 example_cwd (at_sec 100) (at_sec 100);
   Call_new 2%nat "fs.log"%string 0 example_cwd (at_sec 101) (at_sec 101);
   Call_timer 0%nat (at_sec 117);
   Call_timer 1%nat (at_sec 121);
   Call_delete 1%nat].

End LoggerCc.

(** ** [AioImageRequestWQ.cc] *)

Definition set_trace (t : list Effect) (s : AioImageRequestWQ)
  : AioImageRequestWQ :=
  {| m_image_ctx := m_image_ctx s; m_items := m_items s;
     m_processing := m_processing s; m_queued_writes := m_queued_writes s;
     m_in_progress_writes := m_in_progress_writes s;
     m_writes_suspended := m_writes_suspended s; trace := t |}.

Definition emit (es : list Effect) (s : AioImageRequestWQ)
  : AioImageRequestWQ :=
  set_trace (trace s ++ es) s.

Definition set_image_ctx (i : ImageCtx) (s : AioImageRequestWQ)
  : AioImageRequestWQ :=
  {| m_image_ctx := i; m_items := m_items s;
     m_processing := m_processing s; m_queued_writes := m_queued_writes s;
     m_in_progress_writes := m_in_progress_writes s;
     m_writes_suspended := m_writes_suspended s; trace := trace s |}.

Definition set_items (q : list AioImageRequest) (s : AioImageRequestWQ)
  : AioImageRequestWQ :=
  {| m_image_ctx := m_image_ctx s; m_items := q;
     m_processing := m_processing s; m_queued_writes := m_queued_writes s;
     m_in_progress_writes := m_in_progress_writes s;
     m_writes_suspended := m_writes_suspended s; trace := trace s |}.

Definition set_processing (q : list AioImageRequest) (s : AioImageRequestWQ)
  : AioImageRequestWQ :=
  {| m_image_ctx := m_image_ctx s; m_items := m_items s;
     m_processing := q; m_queued_writes := m_queued_writes s;
     m_in_progress_writes := m_in_progress_writes s;
     m_writes_suspended := m_writes_suspended s; trace := trace s |}.

Definition set_queued_writes (n : Z) (s : AioImageRequestWQ)
  : AioImageRequestWQ :=
  {| m_image_ctx := m_image_ctx s; m_items := m_items s;
     m_processing := m_processing s; m_queued_writes := n;
     m_in_progress_writes := m_in_progress_writes s;
     m_writes_suspended := m_writes_suspended s; trace := trace s |}.

Definition set_in_progress_writes (n : Z) (s : AioImageRequestWQ)
  : AioImageRequestWQ :=
  {| m_image_ctx := m_image_ctx s; m_items := m_items s;
     m_processing := m_processing s; m_queued_writes := m_queued_writes s;
     m_in_progress_writes := n;
     m_writes_suspended := m_writes_suspended s; trace := trace s |}.

Definition set_writes_suspended (b : bool) (s : AioImageRequestWQ)
  : AioImageRequestWQ :=
  {| m_image_ctx := m_image_ctx s; m_items := m_items s;
     m_processing := m_processing s; m_queued_writes := m_queued_writes s;
     m_in_progress_writes := m_in_progress_writes s;
     m_writes_suspended := b; trace := trace s |}.

(** A queue that has done nothing yet. *)
Definition init (ictx : ImageCtx) : AioImageRequestWQ :=
  {| m_image_ctx := ictx; m_items := []; m_processing := [];
     m_queued_writes := 0; m_in_progress_writes := 0;
     m_writes_suspended := false; trace := [] |}.

(** The outcome of an operation: the state it leaves, and whether the
    process is still alive ([Fault]: an assertion failed or a null pointer
    was used; the state is the one reached at that point). *)
Inductive Res :=
| Ok (s : AioImageRequestWQ)
| Fault (s : AioImageRequestWQ).

Definition state_of (r : Res) : AioImageRequestWQ :=
  match r with
  | Ok s => s
  | Fault s => s
  end.

(** [req->send()] on thread [t]. *)
Definition run (t : Thread) (req : AioImageRequest) (s : AioImageRequestWQ)
  : Res :=
  let out := send (m_image_ctx s) req in
  let s' := emit (Run t req :: sent_effects out)
              (set_image_ctx (sent_ctx out) s) in
  if sent_ok out then Ok s' else Fault s'.

(** Modelled from the spec: the constructors the queue calls, declared in
    the absent [AioImageRequest.h]: a request carries its completion, its
    byte range, its buffer, its flags and a synchronous marker, which is
    off unless set. *)
Definition new_AioImageRead (c : AioCompletion) (off len op_flags : Z)
  : AioImageRequest :=
  AioImageRead c [(off, len)] op_flags.

Definition new_AioImageWrite (c : AioCompletion) (off len : Z)
    (buf : bufferlist) (op_flags : Z) : AioImageRequest :=
  AioImageWrite c off len buf op_flags false.

Definition new_AioImageDiscard (c : AioCompletion) (off len : Z)
  : AioImageRequest :=
  AioImageDiscard c off len false.

Section WorkQueue.

(** [AioImageFlush::is_write_op()] is declared in [AioImageRequest.h], which
    is not part of the sources; the development holds for either answer. *)
Variable flush_is_write_op : bool.

(** Modelled from the spec: the virtual [is_write_op()] of the other
    variants, declared in the absent header: writes and discards are the
    write requests, reads are not. *)
Definition is_write_op (req : AioImageRequest) : bool :=
  match req with
  | AioImageRead _ _ _ => false
  | AioImageWrite _ _ _ _ _ _ => true
  | AioImageDiscard _ _ _ _ => true
  | AioImageFlush _ => flush_is_write_op
  end.

(** Modelled from the spec: [writes_empty()], declared in the absent
    [AioImageRequestWQ.h]: "the writes queue is empty". *)
Definition writes_empty (s : AioImageRequestWQ) : bool :=
  m_queued_writes s =? 0.

Definition is_lock_required (s : AioImageRequestWQ) : bool :=
  match image_watcher (m_image_ctx s) with
  | None => false
  | Some w => is_lock_supported w && negb (is_lock_owner w)
  end.

(** A call through [m_image_ctx.image_watcher], which is a null pointer
    when the image has no watcher. *)
Definition watcher_call (e : Effect) (f : ImageWatcher -> ImageWatcher)
    (s : AioImageRequestWQ) : Res :=
  match image_watcher (m_image_ctx s) with
  | None => Fault s
  | Some w =>
      Ok (emit [e]
            (set_image_ctx (set_image_watcher (Some (f w)) (m_image_ctx s))
               s))
  end.

Definition flag_aio_ops_pending : AioImageRequestWQ -> Res :=
  watcher_call Watcher_flag_aio_ops_pending (set_aio_ops_pending true).

Definition clear_aio_ops_pending : AioImageRequestWQ -> Res :=
  watcher_call Watcher_clear_aio_ops_pending (set_aio_ops_pending false).

Definition request_lock : AioImageRequestWQ -> Res :=
  watcher_call Watcher_request_lock (fun w => w).

Definition queue (req : AioImageRequest) (lock_required : bool)
    (s : AioImageRequestWQ) : Res :=
  let queued :=
    if is_write_op req then m_queued_writes s + 1 else m_queued_writes s in
  let first_write_op := is_write_op req && (queued =? 1) in
  let s1 := set_items (m_items s ++ [req]) (set_queued_writes queued s) in
  if first_write_op
  then
    match flag_aio_ops_pending s1 with
    | Ok s2 => if lock_required then request_lock s2 else Ok s2
    | Fault s2 => Fault s2
    end
  else Ok s1.

Definition aio_read (c : AioCompletion) (off len op_flags : Z)
    (s : AioImageRequestWQ) : Res :=
  if non_blocking_aio (m_image_ctx s)
  then queue (new_AioImageRead c off len op_flags) false s
  else run Caller (new_AioImageRead c off len op_flags) s.

Definition aio_write (c : AioCompletion) (off len : Z) (buf : bufferlist)
    (op_flags : Z) (s : AioImageRequestWQ) : Res :=
  let lock_required := is_lock_required s in
  if non_blocking_aio (m_image_ctx s) || lock_required
  then queue (new_AioImageWrite c off len buf op_flags) lock_required s
  else run Caller (new_AioImageWrite c off len buf op_flags) s.

Definition aio_discard (c : AioCompletion) (off len : Z)
    (s : AioImageRequestWQ) : Res :=
  let lock_required := is_lock_required s in
  if non_blocking_aio (m_image_ctx s) || lock_required
  then queue (new_AioImageDiscard c off len) lock_required s
  else run Caller (new_AioImageDiscard c off len) s.

Definition aio_flush (c : AioCompletion) (s : AioImageRequestWQ) : Res :=
  if non_blocking_aio (m_image_ctx s) || negb (writes_empty s)
  then queue (AioImageFlush c) false s
  else run Caller (AioImageFlush c) s.

Definition resume_writes (s : AioImageRequestWQ) : AioImageRequestWQ :=
  set_writes_suspended false s.

(** [_void_dequeue]: the item handed to the worker ([None] for [NULL]) and
    the state. *)
Definition _void_dequeue (s : AioImageRequestWQ)
  : option AioImageRequest * AioImageRequestWQ :=
  match m_items s with
  | [] => (None, s)
  | peek_item :: rest =>
      if is_write_op peek_item
      then
        if m_writes_suspended s then (None, s)
        else
          (Some peek_item,
           set_items rest
             (set_in_progress_writes (m_in_progress_writes s + 1) s))
      else (Some peek_item, set_items rest s)
  end.

Definition process (req : AioImageRequest) (s : AioImageRequestWQ) : Res :=
  match run Worker req s with
  | Fault s1 => Fault s1
  | Ok s1 =>
      if is_write_op req
      then
        if negb (0 <? m_queued_writes s1) then Fault s1
        else
          let s2 := set_queued_writes (m_queued_writes s1 - 1) s1 in
          let r3 :=
            if m_queued_writes s2 =? 0 then clear_aio_ops_pending s2
            else Ok s2 in
          match r3 with
          | Fault s3 => Fault s3
          | Ok s3 =>
              if negb (0 <? m_in_progress_writes s3) then Fault s3
              else
                Ok (set_in_progress_writes (m_in_progress_writes s3 - 1) s3)
          end
      else Ok s1
  end.

(** *** Schedules

    What the threads around the queue do, one atomic operation at a time:
    clients submit, workers dequeue an item and later process it, a
    controller suspends and resumes writes, and the lock state of the image
    watcher changes under the watcher's own control. *)
Inductive Event :=
| Ev_aio_read (c : AioCompletion) (off len op_flags : Z)
| Ev_aio_write (c : AioCompletion) (off len : Z) (buf : bufferlist)
    (op_flags : Z)
| Ev_aio_discard (c : AioCompletion) (off len : Z)
| Ev_aio_flush (c : AioCompletion)
| Ev_dequeue
| Ev_process (n : nat)
| Ev_suspend
| Ev_resume
| Ev_lock_state (supported owner : bool).

Fixpoint remove_nth {A : Type} (n : nat) (l : list A) : list A :=
  match l, n with
  | [], _ => []
  | _ :: rest, O => rest
  | x :: rest, S n' => x :: remove_nth n' rest
  end.

Definition set_lock_state (supported owner : bool) (s : AioImageRequestWQ)
  : AioImageRequestWQ :=
  match image_watcher (m_image_ctx s) with
  | None => s
  | Some w =>
      set_image_ctx
        (set_image_watcher
           (Some {| lock_supported := supported; lock_owner := owner;
                    aio_ops_pending := aio_ops_pending w |})
           (m_image_ctx s)) s
  end.

(** One event.  A worker that dequeued an item holds it in [m_processing]
    until it has processed it. *)
Definition exec (ev : Event) (s : AioImageRequestWQ) : Res :=
  match ev with
  | Ev_aio_read c off len op_flags => aio_read c off len op_flags s
  | Ev_aio_write c off len buf op_flags => aio_write c off len buf op_flags s
  | Ev_aio_discard c off len => aio_discard c off len s
  | Ev_aio_flush c => aio_flush c s
  | Ev_dequeue =>
      match _void_dequeue s with
      | (Some item, s') => Ok (set_processing (m_processing s' ++ [item]) s')
      | (None, s') => Ok s'
      end
  | Ev_process n =>
      match nth_error (m_processing s) n with
      | Some req =>
          process req (set_processing (remove_nth n (m_processing s)) s)
      | None => Ok s
      end
  | Ev_suspend => Ok (set_writes_suspended true s)
  | Ev_resume => Ok (resume_writes s)
  | Ev_lock_state supported owner => Ok (set_lock_state supported owner s)
  end.

Fixpoint exec_all (evs : list Event) (s : AioImageRequestWQ) : Res :=
  match evs with
  | [] => Ok s
  | ev :: rest =>
      match exec ev s with
      | Ok s' => exec_all rest s'
      | Fault s' => Fault s'
      end
  end.

(** The states the queue of an image can be in when every operation runs
    without interruption.  The counters and the suspension flag change
    under [m_lock] only; the calls [queue()] makes on the image watcher
    come after it has left the lock, and what an interruption at that
    point allows is the matter of [interleaved]. *)
Definition reachable (s : AioImageRequestWQ) : Prop :=
  exists ictx evs,
    (forall w, image_watcher ictx = Some w -> aio_ops_pending w = false)
    /\ exec_all evs (init ictx) = Ok s.

(** The wait loop of [suspend_writes]: while writes are in progress the
    caller sleeps on [m_cond] and the other threads run, one event of the
    schedule after the other.  [None]: the caller never wakes up. *)
Fixpoint suspend_wait (sched : list Event) (s : AioImageRequestWQ)
  : option (AioImageRequestWQ * list Event) :=
  if 0 <? m_in_progress_writes s
  then
    match sched with
    | [] => None
    | ev :: rest =>
        match exec ev s with
        | Ok s' => suspend_wait rest s'
        | Fault _ => None
        end
    end
  else Some (s, sched).

(** [suspend_writes]: the state at return and the rest of the schedule. *)
Definition suspend_writes (sched : list Event) (s : AioImageRequestWQ)
  : option (AioImageRequestWQ * list Event) :=
  suspend_wait sched (set_writes_suspended true s).

Definition is_resume (ev : Event) : bool :=
  match ev with
  | Ev_resume => true
  | _ => false
  end.

(** *** Completion aggregate and synchronous wrappers *)

(** The requests the object store receives: those sent directly, and those
    stashed in a journal event, which the journal submits once the append
    is issued. *)
Definition object_store_ops (t : list Effect) : AioObjectRequests :=
  flat_map (fun e =>
    match e with
    | Object_send _ r => [r]
    | Journal_append_event _ _ reqs _ => reqs
    | _ => []
    end) t.

(** The results the child operations an effect starts report to completion
    [c]; [reply] is the result each collaborator answers with. *)
Definition child_results (reply : Effect -> Z) (c : AioCompletion)
    (e : Effect) : list Z :=
  match e with
  | Object_send c' _ | Cache_read c' _ | Cache_write c' _ _ _ _ _
  | Cache_flush c' | Flush_async_operations c' | Aio_flush_async c' =>
      if Nat.eqb c c' then [reply e] else []
  | Journal_append_event c' _ reqs _ =>
      if Nat.eqb c c'
      then reply e :: map (fun r => reply (Object_send c r)) reqs
      else []
  | _ => []
  end.

Definition first_failure (c : AioCompletion) (t : list Effect) : option Z :=
  match
    flat_map (fun e =>
      match e with
      | Comp_fail c' r => if Nat.eqb c c' then [r] else []
      | _ => []
      end) t
  with
  | r :: _ => Some r
  | [] => None
  end.

Definition finished_adding (c : AioCompletion) (t : list Effect) : bool :=
  existsb (fun e =>
    match e with
    | Comp_finish_adding_requests c' => Nat.eqb c c'
    | _ => false
    end) t.

(** What an effect adds to the outstanding count of completion [c]
    ([get()] and [add_child()] of the aggregate): the reference [send()]
    takes, a completion context built on the aggregate, and the safe
    callback of a journal append. *)
Definition registered (c : AioCompletion) (e : Effect) : Z :=
  match e with
  | Comp_get c' | New_C_AioRequest c' | Journal_append_event c' _ _ _ =>
      if Nat.eqb c c' then 1 else 0
  | _ => 0
  end.

(** What an effect takes off the count in the end: [put()] drops the
    reference of [send()], and every child operation handed to a
    collaborator reports once ([complete_child]). *)
Definition released (c : AioCompletion) (e : Effect) : Z :=
  match e with
  | Comp_put c' => if Nat.eqb c c' then 1 else 0
  | _ => Z.of_nat (List.length (child_results (fun _ => 0) c e))
  end.

(** The outstanding count of [c] once every operation started in [t] has
    reported. *)
Definition outstanding (c : AioCompletion) (t : list Effect) : Z :=
  fold_right (fun e n => registered c e - released c e + n) 0 t.

(** The precedence of the errors the aggregate ranks: permission, then
    I/O, then not-found. *)
Definition severity (r : Z) : Z :=
  if r =? - EPERM then 3
  else if r =? - EIO then 2
  else if r =? - ENOENT then 1
  else 0.

(** [complete_child(result)] on the cumulative result [acc]: an error
    replaces success, and an error of lower precedence. *)
Definition worse (acc r : Z) : Z :=
  if (r <? 0) && ((0 <=? acc) || (severity acc <? severity r)) then r
  else acc.

Definition cumulative (results : list Z) : Z := fold_left worse results 0.

(** Modelled from the spec: the completion aggregate (section 4.3;
    [AioCompletion.h] and [AioCompletion.cc] are not part of the sources).
    [fail] forces the terminal result.  Otherwise the user callback fires
    "only after the finish-adding-requests marker is set AND all children
    have reported": a completion context built on the aggregate is a child
    ([add_child]: "caller guarantees a later [complete_child(result)]";
    the sources register a child nowhere else), and it reports when the
    operation it was handed to reaches its terminal state, which every
    operation is taken to do.  A context that is deleted or handed to
    nobody never reports, and the count stays above zero.  The result is
    cumulative: "first non-zero error wins", with the precedence
    permission > I/O > not-found; an error the spec does not rank yields
    to those it ranks; the children are taken to report in the order they
    were started. *)
Definition completion_result (reply : Effect -> Z) (c : AioCompletion)
    (t : list Effect) : option Z :=
  match first_failure c t with
  | Some r => Some r
  | None =>
      if finished_adding c t && (outstanding c t =? 0)
      then Some (cumulative (flat_map (child_results reply c) t))
      else None
  end.

(** [cond.wait()] of a synchronous wrapper: the workers of the pool take
    and process items until the completion has fired. *)
Fixpoint cond_wait (fuel : nat) (reply : Effect -> Z) (c : AioCompletion)
    (s : AioImageRequestWQ) : option (Z * AioImageRequestWQ) :=
  match completion_result reply c (trace s) with
  | Some r => Some (r, s)
  | None =>
      match fuel with
      | O => None
      | S fuel' =>
          match exec_all [Ev_dequeue; Ev_process 0] s with
          | Ok s' => cond_wait fuel' reply c s'
          | Fault _ => None
          end
      end
  end.

(** [AioImageRequestWQ::write]; [c] is the completion the wrapper
    creates. *)
Definition write (reply : Effect -> Z) (c : AioCompletion) (off len : Z)
    (buf : bufferlist) (op_flags : Z) (s : AioImageRequestWQ)
  : option (Z * AioImageRequestWQ) :=
  let '(r, len') := clip_io (m_image_ctx s) off len in
  if r <? 0 then Some (r, s)
  else
    match aio_write c off len' buf op_flags s with
    | Fault _ => None
    | Ok s1 =>
        match cond_wait (S (List.length (m_items s1))) reply c s1 with
        | None => None
        | Some (r', s2) =>
            if r' <? 0 then Some (r', s2) else Some (to_ssize_t len', s2)
        end
    end.

(** [AioImageRequestWQ::discard]. *)
Definition discard (reply : Effect -> Z) (c : AioCompletion) (off len : Z)
    (s : AioImageRequestWQ) : option (Z * AioImageRequestWQ) :=
  let '(r, len') := clip_io (m_image_ctx s) off len in
  if r <? 0 then Some (r, s)
  else
    match aio_discard c off len' s with
    | Fault _ => None
    | Ok s1 =>
        match cond_wait (S (List.length (m_items s1))) reply c s1 with
        | None => None
        | Some (r', s2) =>
            if r' <? 0 then Some (r', s2) else Some (to_int len', s2)
        end
    end.

(** *** Observations on traces *)

(** The effects an operation added to the trace of [s]. *)
Definition emitted (s : AioImageRequestWQ) (r : Res) : list Effect :=
  skipn (List.length (trace s)) (trace (state_of r)).

Definition sent_objects (es : list Effect) : AioObjectRequests :=
  flat_map (fun e =>
    match e with
    | Object_send _ r => [r]
    | _ => []
    end) es.

Definition journal_appends (es : list Effect)
  : list (EventEntry * AioObjectRequests * bool) :=
  flat_map (fun e =>
    match e with
    | Journal_append_event _ ev reqs sync => [(ev, reqs, sync)]
    | _ => []
    end) es.

Definition is_cache_effect (e : Effect) : bool :=
  match e with
  | Cache_read _ _ | Cache_write _ _ _ _ _ _ | Cache_discard _
  | Cache_flush _ => true
  | _ => false
  end.

Definition is_watcher_effect (e : Effect) : bool :=
  match e with
  | Watcher_flag_aio_ops_pending | Watcher_clear_aio_ops_pending
  | Watcher_request_lock => true
  | _ => false
  end.

(** The children [send_object_request] constructs for a list of extents. *)
Definition constructed (ictx : ImageCtx) (req : AioImageRequest)
    (object_extents : ObjectExtents) (snapc : SnapContext)
  : AioObjectRequests :=
  flat_map (fun p =>
    match fst (send_object_request ictx req p snapc) with
    | Some r => [r]
    | None => []
    end) object_extents.

(** The object extents [AbstractAioImageWrite::send_request] maps a
    request to. *)
Definition mapped_extents (ictx : ImageCtx) (m_off m_len : Z)
  : ObjectExtents :=
  let clip_len := snd (clip_io ictx m_off m_len) in
  if 0 <? clip_len then file_to_extents (layout ictx) m_off clip_len 0
  else [].

(** The assertion [send_request] opens with holds. *)
Definition lock_usable (ictx : ImageCtx) : Prop :=
  exists w, image_watcher ictx = Some w
            /\ (is_lock_supported w = false \/ is_lock_owner w = true).

(** *** Examples used to exercise the statements *)

Definition example_layout : file_layout :=
  {| fl_stripe_unit := 4194304; fl_stripe_count := 1;
     fl_object_size := 4194304 |}.

Definition example_snapc : SnapContext := {| seq := 0; snaps := [] |}.

(** A writable image at its head, [size] bytes long, without cache. *)
Definition example_ictx (size : Z) (w : option ImageWatcher)
    (j : option Z) (non_blocking skip : bool) : ImageCtx :=
  {| snap_id := CEPH_NOSNAP; read_only := false; image_size := size;
     layout := example_layout; snapc_of := example_snapc;
     object_cacher := false; readahead_max_bytes := 0; journal := j;
     image_watcher := w; non_blocking_aio := non_blocking;
     rbd_skip_partial_discard := skip; ictx_check_result := 0 |}.

Definition watcher_unlocked : ImageWatcher :=
  {| lock_supported := true; lock_owner := false;
     aio_ops_pending := false |}.

Definition watcher_owner : ImageWatcher :=
  {| lock_supported := true; lock_owner := true;
     aio_ops_pending := false |}.

(** The request a submission event constructs. *)
Definition submission_request (ev : Event) : option AioImageRequest :=
  match ev with
  | Ev_aio_read c off len op_flags =>
      Some (new_AioImageRead c off len op_flags)
  | Ev_aio_write c off len buf op_flags =>
      Some (new_AioImageWrite c off len buf op_flags)
  | Ev_aio_discard c off len => Some (new_AioImageDiscard c off len)
  | Ev_aio_flush c => Some (AioImageFlush c)
  | _ => None
  end.

(** The distributed lock is already owned, or not required. *)
Definition lock_owned_or_not_required (s : AioImageRequestWQ) : bool :=
  match image_watcher (m_image_ctx s) with
  | None => true
  | Some w => negb (is_lock_supported w) || is_lock_owner w
  end.

(** The dispatch rule in the words of the specification: inline when
    [non_blocking_aio] is off and, for writes and discards, the lock is
    owned or not required and, for a flush, no write is queued. *)
Definition runs_inline (ev : Event) (s : AioImageRequestWQ) : bool :=
  negb (non_blocking_aio (m_image_ctx s))
  && match ev with
     | Ev_aio_write _ _ _ _ _ | Ev_aio_discard _ _ _ =>
         lock_owned_or_not_required s
     | Ev_aio_flush _ => m_queued_writes s =? 0
     | _ => true
     end.

(** The image watcher replaced by another one. *)
Definition with_watcher (w : option ImageWatcher) (s : AioImageRequestWQ)
  : AioImageRequestWQ :=
  set_image_ctx (set_image_watcher w (m_image_ctx s)) s.

Definition is_ok (r : Res) : bool :=
  match r with
  | Ok _ => true
  | Fault _ => false
  end.

(** The requests of class [AbstractAioImageWrite]. *)
Definition is_abstract_write (req : AioImageRequest) : bool :=
  match req with
  | AioImageWrite _ _ _ _ _ _ | AioImageDiscard _ _ _ _ => true
  | _ => false
  end.

(** The journal event a write or discard describes itself with. *)
Definition journal_event_of (req : AioImageRequest) : EventEntry :=
  match req with
  | AioImageWrite _ off len buf _ _ =>
      AioWriteEvent off len (firstn (Z.to_nat len) buf)
  | AioImageDiscard _ off len _ => AioDiscardEvent off len
  | _ => AioFlushEvent
  end.

(** One round of [send_object_requests] when the children are stashed, and
    when they are sent. *)
Definition stash_effects (ictx : ImageCtx) (req : AioImageRequest)
    (snapc : SnapContext) (p : ObjectExtent) : list Effect :=
  New_C_AioRequest (m_aio_comp req)
    :: snd (send_object_request ictx req p snapc).

Definition submit_effects (ictx : ImageCtx) (req : AioImageRequest)
    (snapc : SnapContext) (p : ObjectExtent) : list Effect :=
  New_C_AioRequest (m_aio_comp req)
    :: snd (send_object_request ictx req p snapc)
    ++ match fst (send_object_request ictx req p snapc) with
       | Some r => [Object_send (m_aio_comp req) r]
       | None => []
       end.

(** An extent that is neither a whole object nor the tail of one. *)
Definition interior (ictx : ImageCtx) (p : ObjectExtent) : Prop :=
  length p <> fl_object_size (layout ictx)
  /\ uint64 (offset p + length p) <> fl_object_size (layout ictx).

Definition total_length (exts : ObjectExtents) : Z :=
  fold_right (fun p n => length p + n) 0 exts.

(** Effects that hand nothing to the object store or the journal. *)
Definition no_store (e : Effect) : bool :=
  match e with
  | Object_send _ _ | Journal_append_event _ _ _ _ => false
  | _ => true
  end.

(** Effects that neither start a child operation nor fail a completion. *)
Definition childless (e : Effect) : bool :=
  match e with
  | Object_send _ _ | Cache_read _ _ | Cache_write _ _ _ _ _ _
  | Cache_flush _ | Flush_async_operations _ | Aio_flush_async _
  | Journal_append_event _ _ _ _ | Comp_fail _ _ => false
  | _ => true
  end.

(** The members [m_off], [m_len] and [m_synchronous] of a write or
    discard. *)
Definition m_off (req : AioImageRequest) : Z :=
  match req with
  | AioImageWrite _ off _ _ _ _ | AioImageDiscard _ off _ _ => off
  | _ => 0
  end.

Definition m_len (req : AioImageRequest) : Z :=
  match req with
  | AioImageWrite _ _ len _ _ _ | AioImageDiscard _ _ len _ => len
  | _ => 0
  end.

Definition m_synchronous (req : AioImageRequest) : bool :=
  match req with
  | AioImageWrite _ _ _ _ _ sync | AioImageDiscard _ _ _ sync => sync
  | _ => false
  end.

(** The scenario "clip on write": the one object write a write of 200
    bytes at offset 4000 of a 4096-byte volume comes down to, and the
    effects of sending the clipped request. *)
Definition clipped_object_write (ictx : ImageCtx) (buf : bufferlist)
    (op_flags : Z) : AioObjectRequest :=
  AioObjectWrite 0 4000 (firstn 96 buf) (snapc_of ictx) op_flags.

Definition clipped_write_effects (ictx : ImageCtx) (c : AioCompletion)
    (buf : bufferlist) (op_flags : Z) : list Effect :=
  [Comp_get c; Comp_init_time c AIO_TYPE_WRITE; New_C_AioRequest c;
   match journal ictx with
   | Some _ =>
       Journal_append_event c (AioWriteEvent 4000 96 (firstn 96 buf))
         [clipped_object_write ictx buf op_flags] false
   | None => Object_send c (clipped_object_write ictx buf op_flags)
   end;
   Perf_inc l_librbd_wr 1; Perf_inc l_librbd_wr_bytes 96;
   Comp_finish_adding_requests c; Comp_put c].

(** Effects among which there is none of the calls the queue makes on the
    image watcher. *)
Definition quiet (es : list Effect) : Prop :=
  Forall (fun e => is_watcher_effect e = false) es.

(** The invariant that ties the watcher's flag to the write counter. *)
Definition pending_inv (s : AioImageRequestWQ) : Prop :=
  0 <= m_queued_writes s
  /\ forall w, image_watcher (m_image_ctx s) = Some w ->
       (m_queued_writes s = 0 <-> aio_ops_pending w = false).

(** The part of the state suspension is about. *)
Definition suspension (s : AioImageRequestWQ) : bool * Z :=
  (m_writes_suspended s, m_in_progress_writes s).

(** The write requests among a list of requests. *)
Definition count_writes (l : list AioImageRequest) : Z :=
  fold_right (fun req n => if is_write_op req then n + 1 else n) 0 l.

(** The write counters say what is queued and what the workers hold, and a
    queue with writes queued has an image watcher. *)
Definition counters_inv (s : AioImageRequestWQ) : Prop :=
  m_queued_writes s = count_writes (m_items s) + count_writes (m_processing s)
  /\ m_in_progress_writes s = count_writes (m_processing s)
  /\ (0 < m_queued_writes s -> image_watcher (m_image_ctx s) <> None).

(** An effect of the send path of the request with completion [c]: it
    names no other completion and is none of the calls by which the queue
    raises or clears the watcher's flag or requests the lock. *)
Definition about (c : AioCompletion) (e : Effect) : bool :=
  match e with
  | Run _ _ | Watcher_flag_aio_ops_pending | Watcher_clear_aio_ops_pending
  | Watcher_request_lock => false
  | Comp_get c' | Comp_fail c' _ | Comp_init_time c' _
  | Comp_finish_adding_requests c' | Comp_put c' | New_C_AioRequest c'
  | Delete_on_finish c' | Object_send c' _
  | Journal_append_event c' _ _ _ | Cache_read c' _
  | Cache_write c' _ _ _ _ _ | Cache_flush c'
  | Flush_async_operations c' | Aio_flush_async c' => Nat.eqb c c'
  | Cache_discard _ | Readahead _ | Perf_inc _ _ => true
  end.

(** The effects by which a request builds its children, as opposed to the
    calls that open and close the completion. *)
Definition is_body (e : Effect) : bool :=
  match e with
  | Comp_init_time _ _ | New_C_AioRequest _ | Delete_on_finish _
  | Object_send _ _ | Journal_append_event _ _ _ _ | Cache_read _ _
  | Cache_write _ _ _ _ _ _ | Cache_discard _ | Cache_flush _ | Readahead _
  | Flush_async_operations _ | Aio_flush_async _ | Perf_inc _ _ => true
  | _ => false
  end.

Definition is_perf (e : Effect) : bool :=
  match e with
  | Perf_inc _ _ => true
  | _ => false
  end.

(** The bytes of a list of image extents that lie inside the volume. *)
Definition clipped_bytes (ictx : ImageCtx) (image_extents : list (Z * Z))
  : Z :=
  fold_right (fun p n => snd (clip_io ictx (fst p) (snd p)) + n) 0
    image_extents.




(** The cache write [AioImageWrite::send_cache_requests] issues for an
    extent. *)
Definition cache_write_of (c : AioCompletion) (buf : bufferlist)
    (op_flags : Z) (p : ObjectExtent) : Effect :=
  Cache_write c (objectno p) (assemble_extent (buffer_extents p) buf)
    (length p) (offset p) op_flags.

Definition is_new_context (e : Effect) : bool :=
  match e with
  | New_C_AioRequest _ => true
  | _ => false
  end.

Definition is_delete_context (e : Effect) : bool :=
  match e with
  | Delete_on_finish _ => true
  | _ => false
  end.

(** The bytes the slices of an extent ask for. *)
Definition slices_length (bext : list (Z * Z)) : Z :=
  fold_right (fun q n => snd q + n) 0 bext.

(** A slice that lies inside a buffer of [n] bytes. *)
Definition slice_in (n : nat) (q : Z * Z) : Prop :=
  0 <= fst q /\ 0 <= snd q /\ fst q + snd q <= Z.of_nat n.

(** The effects of the queue itself, as opposed to those of a request. *)
Definition neutral (e : Effect) : bool :=
  match e with
  | Run _ _ | Watcher_flag_aio_ops_pending | Watcher_clear_aio_ops_pending
  | Watcher_request_lock => true
  | _ => false
  end.

(** The error a write or discard fails with before it maps anything: the
    one [ictx_check] reports, or [-EROFS]. *)
Definition early_error (ictx : ImageCtx) : Z :=
  if ictx_check_result ictx <? 0 then ictx_check_result ictx else - EROFS.

(** The image of [example_ictx] with a cache, and as a read-only image. *)
Definition example_cached_ictx (size : Z) (w : option ImageWatcher)
    (j : option Z) (non_blocking skip : bool) : ImageCtx :=
  {| snap_id := CEPH_NOSNAP; read_only := false; image_size := size;
     layout := example_layout; snapc_of := example_snapc;
     object_cacher := true; readahead_max_bytes := 0; journal := j;
     image_watcher := w; non_blocking_aio := non_blocking;
     rbd_skip_partial_discard := skip; ictx_check_result := 0 |}.

Definition example_read_only_ictx (size : Z) (w : option ImageWatcher)
    (non_blocking : bool) : ImageCtx :=
  {| snap_id := CEPH_NOSNAP; read_only := true; image_size := size;
     layout := example_layout; snapc_of := example_snapc;
     object_cacher := false; readahead_max_bytes := 0; journal := None;
     image_watcher := w; non_blocking_aio := non_blocking;
     rbd_skip_partial_discard := false; ictx_check_result := 0 |}.

(** Three writes submitted to a fresh queue, the first taken by a worker. *)
Definition example_three_writes : list Event :=
  [Ev_aio_write 1%nat 0 4 [x01; x02; x03; x04] 0;
   Ev_aio_write 2%nat 4 4 [x05; x06; x07; x08] 0;
   Ev_aio_write 3%nat 8 4 [x09; x0a; x0b; x0c] 0;
   Ev_dequeue].

(** A write and a read behind it, then writes are suspended. *)
Definition example_write_then_read : list Event :=
  [Ev_aio_write 1%nat 0 4 [x01; x02; x03; x04] 0;
   Ev_aio_read 2%nat 0 4 0;
   Ev_suspend].

(** The effects other than failing a completion. *)
Definition not_fail (e : Effect) : bool :=
  match e with
  | Comp_fail _ _ => false
  | _ => true
  end.

(** The completion contexts [send_object_requests] builds for extents that
    get no request: [send_object_request] answered [NULL]. *)
Definition dropped (ictx : ImageCtx) (req : AioImageRequest)
    (snapc : SnapContext) (object_extents : ObjectExtents) : Z :=
  fold_right (fun p n =>
    match fst (send_object_request ictx req p snapc) with
    | Some _ => n
    | None => 1 + n
    end) 0 object_extents.

(** *** Interleavings inside [queue()]

    [queue()] counts the request under [m_lock], leaves the lock, hands
    the item to the base queue and only then calls the image watcher.
    Between the hand-over and the watcher calls a worker can dequeue and
    process the item. *)

(** [queue()] up to the hand-over of the item: the state, and
    [first_write_op]. *)
Definition queue_enter (req : AioImageRequest) (s : AioImageRequestWQ)
  : AioImageRequestWQ * bool :=
  let queued :=
    if is_write_op req then m_queued_writes s + 1 else m_queued_writes s in
  let first_write_op := is_write_op req && (queued =? 1) in
  (set_items (m_items s ++ [req]) (set_queued_writes queued s),
   first_write_op).

(** The rest of [queue()]: the calls on the image watcher. *)
Definition queue_leave (first_write_op lock_required : bool)
    (s : AioImageRequestWQ) : Res :=
  if first_write_op
  then
    match flag_aio_ops_pending s with
    | Ok s2 => if lock_required then request_lock s2 else Ok s2
    | Fault s2 => Fault s2
    end
  else Ok s.

(** The request and the [lock_required] an [aio_*] function calls
    [queue()] with, when it does not run the request inline. *)
Definition queued_as (ev : Event) (s : AioImageRequestWQ)
  : option (AioImageRequest * bool) :=
  match ev with
  | Ev_aio_read c off len op_flags =>
      if non_blocking_aio (m_image_ctx s)
      then Some (new_AioImageRead c off len op_flags, false)
      else None
  | Ev_aio_write c off len buf op_flags =>
      let lock_required := is_lock_required s in
      if non_blocking_aio (m_image_ctx s) || lock_required
      then Some (new_AioImageWrite c off len buf op_flags, lock_required)
      else None
  | Ev_aio_discard c off len =>
      let lock_required := is_lock_required s in
      if non_blocking_aio (m_image_ctx s) || lock_required
      then Some (new_AioImageDiscard c off len, lock_required)
      else None
  | Ev_aio_flush c =>
      if non_blocking_aio (m_image_ctx s) || negb (writes_empty s)
      then Some (AioImageFlush c, false)
      else None
  | _ => None
  end.

(** The queue together with the submitters that are inside [queue()],
    past the hand-over and before the watcher calls: of each, its
    [first_write_op] and its [lock_required]. *)
Record Interleaved := {
  wq : AioImageRequestWQ;
  inside_queue : list (bool * bool)
}.

(** What a thread does next: an operation that runs without interruption;
    a submission that is interrupted inside [queue()] after the hand-over
    (one that does not call [queue()] runs whole); the resumption of the
    [n]-th interrupted submitter, which finishes [queue()]. *)
Inductive Step :=
| Step_whole (ev : Event)
| Step_enter (ev : Event)
| Step_leave (n : nat).

Inductive Outcome :=
| Running (x : Interleaved)
| Stopped (x : Interleaved).

Definition outcome (r : Res) (inside : list (bool * bool)) : Outcome :=
  match r with
  | Ok s => Running {| wq := s; inside_queue := inside |}
  | Fault s => Stopped {| wq := s; inside_queue := inside |}
  end.

Definition step (st : Step) (x : Interleaved) : Outcome :=
  match st with
  | Step_whole ev => outcome (exec ev (wq x)) (inside_queue x)
  | Step_enter ev =>
      match queued_as ev (wq x) with
      | Some (req, lock_required) =>
          let '(s, first_write_op) := queue_enter req (wq x) in
          Running
            {| wq := s;
               inside_queue :=
                 inside_queue x ++ [(first_write_op, lock_required)] |}
      | None => outcome (exec ev (wq x)) (inside_queue x)
      end
  | Step_leave n =>
      match nth_error (inside_queue x) n with
      | Some (first_write_op, lock_required) =>
          outcome (queue_leave first_write_op lock_required (wq x))
            (remove_nth n (inside_queue x))
      | None => Running x
      end
  end.

Fixpoint steps (sts : list Step) (x : Interleaved) : Outcome :=
  match sts with
  | [] => Running x
  | st :: rest =>
      match step st x with
      | Running x' => steps rest x'
      | Stopped x' => Stopped x'
      end
  end.

(** The states the queue of an image can be in when submissions can be
    interrupted inside [queue()]. *)
Definition interleaved (x : Interleaved) : Prop :=
  exists ictx sts,
    (forall w, image_watcher ictx = Some w -> aio_ops_pending w = false)
    /\ steps sts {| wq := init ictx; inside_queue := [] |} = Running x.

(** A worker takes and processes a write while its submitter is still
    inside [queue()]. *)
Definition overtaken_write (c : AioCompletion) (off len : Z)
    (buf : bufferlist) (op_flags : Z) : list Step :=
  [Step_enter (Ev_aio_write c off len buf op_flags);
   Step_whole Ev_dequeue;
   Step_whole (Ev_process 0);
   Step_leave 0].

(** ** Properties *)

Lemma skipn_length_app {A : Type} (l es : list A) :
  skipn (List.length l) (l ++ es) = es.
Proof.
  induction l as [|x l IH]; simpl; auto.
Qed.

Lemma emitted_emit (s s' : AioImageRequestWQ) (es : list Effect) :
  trace s' = trace s -> emitted s (Ok (emit es s')) = es.
Proof.
  intros H. unfold emitted. simpl. rewrite H. apply skipn_length_app.
Qed.

Lemma emitted_nil (s s' : AioImageRequestWQ) :
  trace s' = trace s -> emitted s (Ok s') = [].
Proof.
  intros H. unfold emitted. simpl. rewrite H.
  rewrite <- (app_nil_r (trace s)) at 2. apply skipn_length_app.
Qed.

(** What [queue] does for a write request when the image has a watcher. *)
Lemma queue_write_op (req : AioImageRequest) (lock_required : bool)
    (s : AioImageRequestWQ) (w : ImageWatcher) :
  is_write_op req = true ->
  image_watcher (m_image_ctx s) = Some w ->
  queue req lock_required s =
  Ok (if m_queued_writes s =? 0
      then
        emit (Watcher_flag_aio_ops_pending
                :: (if lock_required then [Watcher_request_lock] else []))
          (set_image_ctx
             (set_image_watcher (Some (set_aio_ops_pending true w))
                (m_image_ctx s))
             (set_items (m_items s ++ [req]) (set_queued_writes 1 s)))
      else
        set_items (m_items s ++ [req])
          (set_queued_writes (m_queued_writes s + 1) s)).
Proof.
  intros Hw Hi. unfold queue. rewrite Hw. simpl andb.
  destruct (Z.eqb_spec (m_queued_writes s) 0) as [E|E].
  - rewrite E. simpl Z.eqb.
    unfold flag_aio_ops_pending, watcher_call. simpl. rewrite Hi.
    destruct lock_required.
    + unfold request_lock, watcher_call. simpl.
      unfold emit, set_trace. simpl. rewrite <- app_assoc. simpl.
      destruct w; reflexivity.
    + reflexivity.
  - destruct (Z.eqb_spec (m_queued_writes s + 1) 1) as [E'|E']; [lia|].
    reflexivity.
Qed.

(** C1, as amended: when the distributed lock is supported but not owned,
    enqueuing a write or discard invokes the watcher's [request_lock]
    exactly when that enqueue takes [m_queued_writes] from 0 to 1; an
    enqueue that finds writes already queued calls nothing on the watcher. *)
Theorem request_lock_on_first_queued_write (req : AioImageRequest)
    (s : AioImageRequestWQ) (w : ImageWatcher) :
  is_write_op req = true ->
  image_watcher (m_image_ctx s) = Some w ->
  is_lock_supported w = true ->
  is_lock_owner w = false ->
  is_lock_required s = true
  /\ emitted s (queue req (is_lock_required s) s) =
     (if m_queued_writes s =? 0
      then [Watcher_flag_aio_ops_pending; Watcher_request_lock]
      else []).
Proof.
  intros Hw Hi Hsup Hown.
  assert (Hreq : is_lock_required s = true).
  { unfold is_lock_required. rewrite Hi, Hsup, Hown. reflexivity. }
  split; [exact Hreq|].
  rewrite Hreq, (queue_write_op req true s w Hw Hi).
  destruct (m_queued_writes s =? 0).
  - apply emitted_emit. reflexivity.
  - apply emitted_nil. reflexivity.
Qed.

(** The send path changes nothing of the image context but the journal
    tid. *)
Lemma send_ctx (ictx : ImageCtx) (req : AioImageRequest) :
  exists j, sent_ctx (send ictx req) = set_journal j ictx.
Proof.
  assert (Hid : ictx = set_journal (journal ictx) ictx)
    by (destruct ictx; reflexivity).
  unfold send. destruct (ictx_check_result ictx <? 0).
  { exists (journal ictx). exact Hid. }
  simpl. unfold send_request, read_send_request, write_send_request,
    flush_send_request.
  destruct (journal ictx) as [tid|];
    destruct req; simpl;
    repeat match goal with
           | |- context [match image_watcher ictx with _ => _ end] =>
               destruct (image_watcher ictx); simpl
           | |- context [match read_map ?a ?b ?c ?d with _ => _ end] =>
               destruct (read_map a b c d) as [?|[? ?]]; simpl
           | |- context [if ?b then _ else _] => destruct b; simpl
           | |- context [let '(_, _) := ?x in _] => destruct x; simpl
           end;
    eexists; try reflexivity; exact Hid.
Qed.

Ltac quiet_tac :=
  unfold quiet in *;
  repeat first
    [ apply Forall_nil
    | apply Forall_cons; [reflexivity|]
    | apply Forall_app; split
    | assumption ].

Lemma quiet_flat_map {A : Type} (f : A -> list Effect) (l : list A) :
  (forall a, quiet (f a)) -> quiet (flat_map f l).
Proof.
  intros H. induction l as [|a l IH]; simpl.
  - apply Forall_nil.
  - apply Forall_app. split; [apply H | exact IH].
Qed.

Lemma send_object_request_quiet (ictx : ImageCtx) (req : AioImageRequest)
    (p : ObjectExtent) (snapc : SnapContext) :
  quiet (snd (send_object_request ictx req p snapc)).
Proof.
  unfold send_object_request.
  destruct req; simpl;
    repeat match goal with
           | |- context [if ?b then _ else _] => destruct b; simpl
           end;
    quiet_tac.
Qed.

Lemma send_object_requests_quiet (ictx : ImageCtx) (req : AioImageRequest)
    (snapc : SnapContext) (stash : bool) (exts : ObjectExtents) :
  forall requests,
    quiet (snd (send_object_requests ictx req exts snapc stash requests)).
Proof.
  induction exts as [|p rest IH]; intros requests; simpl.
  - apply Forall_nil.
  - pose proof (send_object_request_quiet ictx req p snapc) as Hq.
    destruct (send_object_request ictx req p snapc) as [[r|] es];
      simpl in Hq.
    + destruct stash.
      * specialize (IH (requests ++ [r])).
        destruct (send_object_requests ictx req rest snapc true
                    (requests ++ [r])) as [rs es'].
        simpl in *. quiet_tac.
      * specialize (IH requests).
        destruct (send_object_requests ictx req rest snapc false requests)
          as [rs es'].
        simpl in *. quiet_tac.
    + specialize (IH requests).
      destruct (send_object_requests ictx req rest snapc stash requests)
        as [rs es'].
      simpl in *. quiet_tac.
Qed.

Lemma send_cache_requests_quiet (req : AioImageRequest)
    (exts : ObjectExtents) (tid : Z) :
  quiet (send_cache_requests req exts tid).
Proof.
  destruct req; simpl; try solve [quiet_tac].
  apply quiet_flat_map. intros a. quiet_tac.
Qed.

Lemma write_send_request_quiet (ictx : ImageCtx) (req : AioImageRequest)
    (off len : Z) (sync : bool) :
  quiet (sent_effects (write_send_request ictx req off len sync)).
Proof.
  unfold write_send_request.
  destruct (image_watcher ictx) as [w|]; [|apply Forall_nil].
  destruct (negb (negb (is_lock_supported w) || is_lock_owner w));
    [apply Forall_nil|].
  destruct (negb (snap_id ictx =? CEPH_NOSNAP) || read_only ictx);
    [simpl; quiet_tac|].
  simpl.
  match goal with
  | |- context [send_object_requests ?a ?b ?c ?d ?e ?f] =>
      pose proof (send_object_requests_quiet a b d e c f) as Hq;
      destruct (send_object_requests a b c d e f) as [requests es_obj]
  end.
  simpl in Hq.
  assert (Hc : forall exts tid,
             quiet (if object_cacher ictx
                    then send_cache_requests req exts tid else [])).
  { intros. destruct (object_cacher ictx);
      [apply send_cache_requests_quiet | apply Forall_nil]. }
  assert (Hu : forall n, quiet (update_stats req n))
    by (intros; destruct req; simpl; quiet_tac).
  destruct (journal ictx) as [tid|]; simpl.
  - assert (Hj : quiet (snd (append_journal_event tid req requests sync)))
      by (destruct req; simpl; quiet_tac).
    destruct (append_journal_event tid req requests sync) as [tid' es].
    simpl in *. quiet_tac; try apply Hc; try apply Hu.
  - quiet_tac; try apply Hc; try apply Hu.
Qed.

Lemma send_quiet (ictx : ImageCtx) (req : AioImageRequest) :
  quiet (sent_effects (send ictx req)).
Proof.
  unfold send. destruct (ictx_check_result ictx <? 0); simpl;
    [quiet_tac|].
  apply Forall_cons; [reflexivity|].
  destruct req; simpl; try apply write_send_request_quiet.
  - unfold read_send_request.
    destruct (read_map ictx extents [] 0) as [r|[oe bo]]; simpl.
    + apply Forall_app. split; [|quiet_tac].
      destruct (_ && _); quiet_tac.
    + apply Forall_app. split; [destruct (_ && _); quiet_tac|].
      apply Forall_cons; [reflexivity|].
      apply Forall_app. split; [|quiet_tac].
      apply quiet_flat_map. intros q.
      destruct (object_cacher ictx); quiet_tac.
  - unfold flush_send_request.
    destruct (journal ictx) as [tid|]; simpl;
      destruct (object_cacher ictx); simpl; quiet_tac.
Qed.

Lemma emitted_app (s : AioImageRequestWQ) (r : Res) (es : list Effect) :
  trace (state_of r) = trace s ++ es -> emitted s r = es.
Proof.
  intros H. unfold emitted. rewrite H. apply skipn_length_app.
Qed.

(** [run] touches the trace and the journal tid only. *)
Lemma run_spec (t : Thread) (req : AioImageRequest) (s : AioImageRequestWQ) :
  exists j es,
    quiet es
    /\ state_of (run t req s) =
       emit (Run t req :: es)
         (set_image_ctx (set_journal j (m_image_ctx s)) s).
Proof.
  destruct (send_ctx (m_image_ctx s) req) as [j Hj].
  exists j, (sent_effects (send (m_image_ctx s) req)).
  split; [apply send_quiet|].
  unfold run. rewrite Hj.
  destruct (sent_ok (send (m_image_ctx s) req)); reflexivity.
Qed.

Lemma pending_inv_run (t : Thread) (req : AioImageRequest)
    (s : AioImageRequestWQ) :
  pending_inv s -> pending_inv (state_of (run t req s)).
Proof.
  intros H. destruct (run_spec t req s) as (j & es & _ & E).
  rewrite E. exact H.
Qed.

Lemma pending_inv_queue (req : AioImageRequest) (lock_required : bool)
    (s s' : AioImageRequestWQ) :
  pending_inv s -> queue req lock_required s = Ok s' -> pending_inv s'.
Proof.
  intros [Hq Hw] E. unfold queue in E.
  destruct (is_write_op req); simpl in E.
  - destruct (Z.eqb_spec (m_queued_writes s + 1) 1) as [E1|E1].
    + unfold flag_aio_ops_pending, watcher_call in E. simpl in E.
      destruct (image_watcher (m_image_ctx s)) as [w|]; [|discriminate].
      destruct lock_required.
      * unfold request_lock, watcher_call in E. simpl in E.
        injection E as <-. split; simpl; [lia|].
        intros w' Hw'. injection Hw' as <-. simpl.
        split; [lia|discriminate].
      * injection E as <-. split; simpl; [lia|].
        intros w' Hw'. injection Hw' as <-. simpl.
        split; [lia|discriminate].
    + injection E as <-. split; simpl; [lia|].
      intros w Hi. specialize (Hw w Hi). split; [lia|].
      intros Hp. apply Hw in Hp. lia.
  - injection E as <-. split; simpl; [exact Hq|exact Hw].
Qed.

Lemma pending_inv_process (req : AioImageRequest)
    (s s' : AioImageRequestWQ) :
  pending_inv s -> process req s = Ok s' -> pending_inv s'.
Proof.
  intros H E. unfold process in E.
  pose proof (pending_inv_run Worker req s H) as H1.
  destruct (run Worker req s) as [s1|s1]; [|discriminate].
  simpl in H1. destruct H1 as [Hq Hw].
  destruct (is_write_op req).
  - destruct (Z.ltb_spec 0 (m_queued_writes s1)) as [Hpos|]; simpl in E;
      [|discriminate].
    destruct (Z.eqb_spec (m_queued_writes s1 - 1) 0) as [E0|E0].
    + unfold clear_aio_ops_pending, watcher_call in E. simpl in E.
      destruct (image_watcher (m_image_ctx s1)) as [w|]; [|discriminate].
      simpl in E.
      destruct (negb (0 <? m_in_progress_writes s1)); [discriminate|].
      injection E as <-. split; simpl; [lia|].
      intros w' Hw'. injection Hw' as <-. simpl. split; auto.
    + simpl in E.
      destruct (negb (0 <? m_in_progress_writes s1)); [discriminate|].
      injection E as <-. split; simpl; [lia|].
      intros w Hi. specialize (Hw w Hi). split; [lia|].
      intros Hp. apply Hw in Hp. lia.
  - injection E as <-. split; assumption.
Qed.

Lemma pending_inv_exec (ev : Event) (s s' : AioImageRequestWQ) :
  pending_inv s -> exec ev s = Ok s' -> pending_inv s'.
Proof.
  intros H E. destruct ev; simpl in E.
  - unfold aio_read in E. destruct (non_blocking_aio (m_image_ctx s)).
    + eapply pending_inv_queue; eauto.
    + pose proof (pending_inv_run Caller
                    (new_AioImageRead c off len op_flags) s H) as H1.
      rewrite E in H1. exact H1.
  - unfold aio_write in E. destruct (_ || _).
    + eapply pending_inv_queue; eauto.
    + pose proof (pending_inv_run Caller
                    (new_AioImageWrite c off len buf op_flags) s H) as H1.
      rewrite E in H1. exact H1.
  - unfold aio_discard in E. destruct (_ || _).
    + eapply pending_inv_queue; eauto.
    + pose proof (pending_inv_run Caller
                    (new_AioImageDiscard c off len) s H) as H1.
      rewrite E in H1. exact H1.
  - unfold aio_flush in E. destruct (_ || _).
    + eapply pending_inv_queue; eauto.
    + pose proof (pending_inv_run Caller (AioImageFlush c) s H) as H1.
      rewrite E in H1. exact H1.
  - unfold _void_dequeue in E.
    destruct (m_items s) as [|peek rest]; [injection E as <-; exact H|].
    destruct (is_write_op peek);
      [destruct (m_writes_suspended s)|];
      injection E as <-; exact H.
  - destruct (nth_error (m_processing s) n) as [req|];
      [|injection E as <-; exact H].
    eapply pending_inv_process; [|exact E]. exact H.
  - injection E as <-. exact H.
  - injection E as <-. exact H.
  - injection E as <-. unfold set_lock_state.
    destruct H as [Hq Hw].
    destruct (image_watcher (m_image_ctx s)) as [w|] eqn:Hi.
    + split; simpl; [exact Hq|].
      intros w' Hw'. injection Hw' as <-. simpl. apply Hw. reflexivity.
    + split; [exact Hq|]. rewrite Hi. discriminate.
Qed.

Lemma pending_inv_exec_all (evs : list Event) :
  forall s s', pending_inv s -> exec_all evs s = Ok s' -> pending_inv s'.
Proof.
  induction evs as [|ev evs IH]; intros s s' H E; simpl in E.
  - injection E as <-. exact H.
  - destruct (exec ev s) as [s1|s1] eqn:E1; [|discriminate].
    eapply IH; [|exact E]. eapply pending_inv_exec; eauto.
Qed.

Lemma pending_inv_reachable (s : AioImageRequestWQ) :
  reachable s -> pending_inv s.
Proof.
  intros (ictx & evs & Hinit & E).
  eapply pending_inv_exec_all; [|exact E].
  split; simpl; [lia|]. intros w Hw. split; auto.
Qed.

Lemma quiet_not_in (es : list Effect) (e : Effect) :
  quiet es -> is_watcher_effect e = true -> ~ In e es.
Proof.
  intros Hq He Hin. unfold quiet in Hq. rewrite Forall_forall in Hq.
  specialize (Hq e Hin). congruence.
Qed.

(** The watcher calls of [queue]: the flag is raised exactly when a write
    request finds no write queued. *)
Lemma queue_flags (req : AioImageRequest) (lock_required : bool)
    (s s' : AioImageRequestWQ) :
  queue req lock_required s = Ok s' ->
  (In Watcher_flag_aio_ops_pending (emitted s (Ok s'))
   <-> is_write_op req = true /\ m_queued_writes s = 0)
  /\ ~ In Watcher_clear_aio_ops_pending (emitted s (Ok s')).
Proof.
  intros E. unfold queue in E.
  destruct (is_write_op req); simpl in E.
  - destruct (Z.eqb_spec (m_queued_writes s + 1) 1) as [E1|E1].
    + unfold flag_aio_ops_pending, watcher_call in E. simpl in E.
      destruct (image_watcher (m_image_ctx s)) as [w|]; [|discriminate].
      destruct lock_required.
      * unfold request_lock, watcher_call in E. simpl in E.
        injection E as <-.
        rewrite (emitted_app s _
                   [Watcher_flag_aio_ops_pending; Watcher_request_lock])
          by (simpl; rewrite <- app_assoc; reflexivity).
        simpl. split; [split; [intros _; split; [reflexivity|lia]|auto]|].
        intros [H|[H|[]]]; discriminate.
      * injection E as <-.
        rewrite (emitted_app s _ [Watcher_flag_aio_ops_pending])
          by reflexivity.
        simpl. split; [split; [intros _; split; [reflexivity|lia]|auto]|].
        intros [H|[]]; discriminate.
    + injection E as <-. rewrite emitted_nil by reflexivity. simpl.
      split; [split; [tauto|intros [_ H]; lia]|tauto].
  - injection E as <-. rewrite emitted_nil by reflexivity. simpl.
    split; [split; [tauto|intros [H _]; discriminate]|tauto].
Qed.

(** The watcher calls of [process]: the flag is cleared exactly when the
    last queued write has been processed. *)
Lemma process_clears (req : AioImageRequest) (s s' : AioImageRequestWQ) :
  process req s = Ok s' ->
  (In Watcher_clear_aio_ops_pending (emitted s (Ok s'))
   <-> is_write_op req = true /\ m_queued_writes s = 1)
  /\ ~ In Watcher_flag_aio_ops_pending (emitted s (Ok s')).
Proof.
  intros E. unfold process in E.
  destruct (run_spec Worker req s) as (j & es & Hq & Hs).
  destruct (run Worker req s) as [s1|s1]; [|discriminate].
  simpl in Hs. subst s1.
  pose proof (quiet_not_in es Watcher_clear_aio_ops_pending Hq eq_refl)
    as Hnc.
  pose proof (quiet_not_in es Watcher_flag_aio_ops_pending Hq eq_refl)
    as Hnf.
  destruct (is_write_op req).
  - simpl in E.
    destruct (Z.ltb_spec 0 (m_queued_writes s)) as [Hpos|]; simpl in E;
      [|discriminate].
    destruct (Z.eqb_spec (m_queued_writes s - 1) 0) as [E0|E0].
    + unfold clear_aio_ops_pending, watcher_call in E. simpl in E.
      destruct (image_watcher (m_image_ctx s)) as [w|]; [|discriminate].
      simpl in E.
      destruct (negb (0 <? m_in_progress_writes s)); [discriminate|].
      injection E as <-.
      rewrite (emitted_app s _
                 ((Run Worker req :: es) ++ [Watcher_clear_aio_ops_pending]))
        by (simpl; rewrite <- app_assoc; reflexivity).
      split.
      * split; [intros _; split; [reflexivity|lia]|].
        intros _. apply in_or_app. right. left. reflexivity.
      * intros Hin. apply in_app_or in Hin.
        destruct Hin as [[H|H]|[H|[]]]; try discriminate. auto.
    + simpl in E.
      destruct (negb (0 <? m_in_progress_writes s)); [discriminate|].
      injection E as <-.
      rewrite (emitted_app s _ (Run Worker req :: es)) by reflexivity.
      split.
      * split; [intros [H|H]; [discriminate|tauto]|intros [_ H]; lia].
      * intros [H|H]; [discriminate|tauto].
  - injection E as <-.
    rewrite (emitted_app s _ (Run Worker req :: es)) by reflexivity.
    split.
    + split; [intros [H|H]; [discriminate|tauto]|intros [H _]; discriminate].
    + intros [H|H]; [discriminate|tauto].
Qed.

(** As long as no submitter is overtaken inside [queue()] (the schedules
    of [reachable], where every operation runs without interruption),
    [m_queued_writes] is 0 if and only if the watcher's async-ops-pending
    flag is cleared; [queue] raises the flag exactly on the transition of
    [m_queued_writes] from 0 to 1, and [process] clears it exactly when a
    processed write brings [m_queued_writes] back to 0.  The code does not
    keep this under every interleaving: see
    [flag_raised_with_no_write_queued]. *)
Theorem aio_ops_pending_iff_queued_writes (s : AioImageRequestWQ) :
  reachable s ->
  (forall w, image_watcher (m_image_ctx s) = Some w ->
     (m_queued_writes s = 0 <-> aio_ops_pending w = false))
  /\ (forall req lock_required s',
        queue req lock_required s = Ok s' ->
        (In Watcher_flag_aio_ops_pending (emitted s (Ok s'))
         <-> is_write_op req = true /\ m_queued_writes s = 0)
        /\ ~ In Watcher_clear_aio_ops_pending (emitted s (Ok s')))
  /\ (forall req s',
        process req s = Ok s' ->
        (In Watcher_clear_aio_ops_pending (emitted s (Ok s'))
         <-> is_write_op req = true /\ m_queued_writes s = 1)
        /\ ~ In Watcher_flag_aio_ops_pending (emitted s (Ok s'))).
Proof.
  intros Hr. split; [|split].
  - apply (pending_inv_reachable s Hr).
  - intros req lr s'. apply queue_flags.
  - intros req s'. apply process_clears.
Qed.

Lemma suspension_run (t : Thread) (req : AioImageRequest)
    (s : AioImageRequestWQ) :
  suspension (state_of (run t req s)) = suspension s.
Proof.
  destruct (run_spec t req s) as (j & es & _ & E). rewrite E. reflexivity.
Qed.

Lemma suspension_queue (req : AioImageRequest) (lock_required : bool)
    (s : AioImageRequestWQ) :
  suspension (state_of (queue req lock_required s)) = suspension s.
Proof.
  unfold queue.
  destruct (is_write_op req && _); [|reflexivity].
  unfold flag_aio_ops_pending, request_lock, watcher_call. simpl.
  destruct (image_watcher (m_image_ctx s)); [|reflexivity].
  destruct lock_required; reflexivity.
Qed.

Lemma suspension_process (req : AioImageRequest)
    (s s' : AioImageRequestWQ) :
  process req s = Ok s' ->
  m_writes_suspended s' = m_writes_suspended s
  /\ (0 <= m_in_progress_writes s -> 0 <= m_in_progress_writes s')
  /\ m_in_progress_writes s' <= m_in_progress_writes s.
Proof.
  intros E. unfold process in E.
  pose proof (suspension_run Worker req s) as Hs.
  destruct (run Worker req s) as [s1|s1]; [|discriminate].
  simpl in Hs. unfold suspension in Hs. injection Hs as Hsus Hin.
  rewrite <- Hsus, <- Hin.
  destruct (is_write_op req).
  - destruct (negb (0 <? m_queued_writes s1)); [discriminate|].
    destruct (m_queued_writes _ =? 0).
    + unfold clear_aio_ops_pending, watcher_call in E. simpl in E.
      destruct (image_watcher (m_image_ctx s1)); [|discriminate].
      simpl in E.
      destruct (Z.ltb_spec 0 (m_in_progress_writes s1)); simpl in E;
        [|discriminate].
      injection E as <-. simpl. repeat split; lia.
    + simpl in E.
      destruct (Z.ltb_spec 0 (m_in_progress_writes s1)); simpl in E;
        [|discriminate].
      injection E as <-. simpl. repeat split; lia.
  - injection E as <-. repeat split; lia.
Qed.

(** While writes are suspended and nobody resumes them, no event starts a
    write: the flag stays set and [m_in_progress_writes] does not grow. *)
Lemma suspended_exec (ev : Event) (s s' : AioImageRequestWQ) :
  m_writes_suspended s = true ->
  is_resume ev = false ->
  exec ev s = Ok s' ->
  m_writes_suspended s' = true
  /\ (0 <= m_in_progress_writes s -> 0 <= m_in_progress_writes s')
  /\ m_in_progress_writes s' <= m_in_progress_writes s.
Proof.
  intros Hsus Hev E.
  assert (Hsame : forall r, suspension (state_of r) = suspension s ->
            r = Ok s' ->
            m_writes_suspended s' = true
            /\ (0 <= m_in_progress_writes s -> 0 <= m_in_progress_writes s')
            /\ m_in_progress_writes s' <= m_in_progress_writes s).
  { intros r Hr ->. simpl in Hr. unfold suspension in Hr.
    injection Hr as H1 H2. rewrite H1, H2. repeat split; auto; lia. }
  destruct ev; simpl in E; try discriminate.
  - unfold aio_read in E. destruct (non_blocking_aio _);
      (eapply Hsame; [|exact E]);
      [apply suspension_queue | apply suspension_run].
  - unfold aio_write in E. destruct (_ || _);
      (eapply Hsame; [|exact E]);
      [apply suspension_queue | apply suspension_run].
  - unfold aio_discard in E. destruct (_ || _);
      (eapply Hsame; [|exact E]);
      [apply suspension_queue | apply suspension_run].
  - unfold aio_flush in E. destruct (_ || _);
      (eapply Hsame; [|exact E]);
      [apply suspension_queue | apply suspension_run].
  - unfold _void_dequeue in E. rewrite Hsus in E.
    destruct (m_items s) as [|peek rest].
    + injection E as <-. repeat split; auto; lia.
    + destruct (is_write_op peek); injection E as <-; simpl;
        repeat split; auto; lia.
  - destruct (nth_error (m_processing s) n) as [req|].
    + apply suspension_process in E. simpl in E.
      destruct E as (E1 & E2 & E3). rewrite E1. auto.
    + injection E as <-. repeat split; auto; lia.
  - injection E as <-. simpl. repeat split; auto; lia.
  - injection E as <-. unfold set_lock_state.
    destruct (image_watcher (m_image_ctx s)); simpl;
      repeat split; auto; lia.
Qed.

Lemma suspended_exec_all (evs : list Event) :
  forall s s',
    m_writes_suspended s = true ->
    forallb (fun ev => negb (is_resume ev)) evs = true ->
    0 <= m_in_progress_writes s ->
    exec_all evs s = Ok s' ->
    m_writes_suspended s' = true
    /\ 0 <= m_in_progress_writes s' <= m_in_progress_writes s.
Proof.
  induction evs as [|ev evs IH]; intros s s' Hsus Hnr Hin E; simpl in *.
  - injection E as <-. split; [exact Hsus|lia].
  - apply andb_true_iff in Hnr. destruct Hnr as [Hev Hnr].
    apply negb_true_iff in Hev.
    destruct (exec ev s) as [s1|s1] eqn:E1; [|discriminate].
    destruct (suspended_exec ev s s1 Hsus Hev E1) as (H1 & H2 & H3).
    destruct (IH s1 s' H1 Hnr (H2 Hin) E) as (H4 & H5).
    split; [exact H4|lia].
Qed.

Lemma suspend_wait_returns (sched : list Event) :
  forall s s1 rest,
    m_writes_suspended s = true ->
    forallb (fun ev => negb (is_resume ev)) sched = true ->
    0 <= m_in_progress_writes s ->
    suspend_wait sched s = Some (s1, rest) ->
    m_writes_suspended s1 = true /\ m_in_progress_writes s1 = 0.
Proof.
  induction sched as [|ev sched IH]; intros s s1 rest Hsus Hnr Hin E.
  - simpl in E.
    destruct (Z.ltb_spec 0 (m_in_progress_writes s)); [discriminate|].
    injection E as <- _. split; [exact Hsus|lia].
  - simpl in E.
    destruct (Z.ltb_spec 0 (m_in_progress_writes s)).
    + simpl in Hnr. apply andb_true_iff in Hnr. destruct Hnr as [Hev Hnr].
      apply negb_true_iff in Hev.
      destruct (exec ev s) as [s'|s'] eqn:E1; [|discriminate].
      destruct (suspended_exec ev s s' Hsus Hev E1) as (H1 & H2 & H3).
      apply (IH s' s1 rest H1 Hnr (H2 Hin) E).
    + injection E as <- _. split; [exact Hsus|lia].
Qed.

(** What [_void_dequeue] answers while writes are suspended. *)
Lemma dequeue_while_suspended (s : AioImageRequestWQ)
    (peek_item : AioImageRequest) (rest : list AioImageRequest) :
  m_writes_suspended s = true ->
  m_items s = peek_item :: rest ->
  _void_dequeue s =
  (if is_write_op peek_item then (None, s)
   else (Some peek_item, set_items rest s)).
Proof.
  intros Hsus Hi. unfold _void_dequeue. rewrite Hi, Hsus.
  destruct (is_write_op peek_item); reflexivity.
Qed.

(** C3: [suspend_writes] returns only once [m_in_progress_writes] is zero;
    from its return on, as long as nobody calls [resume_writes], writes stay
    suspended and none is in progress: [_void_dequeue] answers [NULL] and
    leaves the queue as it is whenever the head request is a write, and
    hands out a head request that is a read.  [sched] is what the other
    threads do while the caller waits, [evs] what they do afterwards. *)
Theorem suspend_writes_blocks_writes (sched : list Event)
    (s s1 : AioImageRequestWQ) (rest : list Event) :
  0 <= m_in_progress_writes s ->
  forallb (fun ev => negb (is_resume ev)) sched = true ->
  suspend_writes sched s = Some (s1, rest) ->
  m_in_progress_writes s1 = 0
  /\ m_writes_suspended s1 = true
  /\ forall evs s2,
       forallb (fun ev => negb (is_resume ev)) evs = true ->
       exec_all evs s1 = Ok s2 ->
       m_writes_suspended s2 = true
       /\ m_in_progress_writes s2 = 0
       /\ forall peek_item items,
            m_items s2 = peek_item :: items ->
            (is_write_op peek_item = true -> _void_dequeue s2 = (None, s2))
            /\ (forall c extents op_flags,
                  peek_item = AioImageRead c extents op_flags ->
                  _void_dequeue s2 = (Some peek_item, set_items items s2)).
Proof.
  intros Hin Hnr E. unfold suspend_writes in E.
  destruct (suspend_wait_returns sched (set_writes_suspended true s) s1 rest
              eq_refl Hnr Hin E) as [Hsus H0].
  split; [exact H0|]. split; [exact Hsus|].
  intros evs s2 Hnr2 E2.
  assert (H0' : 0 <= m_in_progress_writes s1) by lia.
  destruct (suspended_exec_all evs s1 s2 Hsus Hnr2 H0' E2) as [Hsus2 Hin2].
  split; [exact Hsus2|]. split; [lia|].
  intros peek_item items Hi.
  pose proof (dequeue_while_suspended s2 peek_item items Hsus2 Hi) as Hd.
  split.
  - intros Hw. rewrite Hw in Hd. exact Hd.
  - intros c extents op_flags ->. exact Hd.
Qed.

(** [queue] appends the request, and calls nothing but the watcher. *)
Lemma queue_spec (req : AioImageRequest) (lock_required : bool)
    (s : AioImageRequestWQ) :
  m_items (state_of (queue req lock_required s)) = m_items s ++ [req]
  /\ exists es,
       trace (state_of (queue req lock_required s)) = trace s ++ es
       /\ Forall (fun e => is_watcher_effect e = true) es.
Proof.
  unfold queue.
  destruct (is_write_op req && _).
  - unfold flag_aio_ops_pending, request_lock, watcher_call. simpl.
    destruct (image_watcher (m_image_ctx s)).
    + destruct lock_required; simpl; (split; [reflexivity|]).
      * exists [Watcher_flag_aio_ops_pending; Watcher_request_lock].
        rewrite <- app_assoc. split; [reflexivity|].
        repeat constructor.
      * exists [Watcher_flag_aio_ops_pending]. split; [reflexivity|].
        repeat constructor.
    + simpl. split; [reflexivity|]. exists [].
      rewrite app_nil_r. split; [reflexivity|constructor].
  - simpl. split; [reflexivity|]. exists [].
    rewrite app_nil_r. split; [reflexivity|constructor].
Qed.

Lemma queue_not_inline (req req' : AioImageRequest) (lock_required : bool)
    (s : AioImageRequestWQ) :
  ~ In (Run Caller req') (emitted s (queue req lock_required s)).
Proof.
  destruct (queue_spec req lock_required s) as (_ & es & Ht & Hes).
  rewrite (emitted_app _ _ _ Ht). intros Hin.
  rewrite Forall_forall in Hes. specialize (Hes _ Hin). discriminate.
Qed.

Lemma run_inline (req : AioImageRequest) (s : AioImageRequestWQ) :
  In (Run Caller req) (emitted s (run Caller req s))
  /\ m_items (state_of (run Caller req s)) = m_items s.
Proof.
  destruct (run_spec Caller req s) as (j & es & _ & E).
  rewrite (emitted_app s _ (Run Caller req :: es)) by (rewrite E; reflexivity).
  rewrite E. split; [left|]; reflexivity.
Qed.

(** How a submission is dispatched, given the test its [aio_*] function
    makes. *)
Lemma dispatch_cases (req : AioImageRequest) (lock_required : bool)
    (b : bool) (s : AioImageRequestWQ) :
  let r := if b then queue req lock_required s else run Caller req s in
  (In (Run Caller req) (emitted s r) <-> negb b = true)
  /\ m_items (state_of r) = if negb b then m_items s else m_items s ++ [req].
Proof.
  destruct b; simpl.
  - split; [|apply queue_spec].
    split; [|discriminate].
    intros H. exfalso. exact (queue_not_inline _ _ _ _ H).
  - destruct (run_inline req s) as [H1 H2]. split; [tauto|exact H2].
Qed.

(** C4: a submission runs inline on the caller's thread if and only if
    [non_blocking_aio] is off and, for a write or discard, the distributed
    lock is owned or not required and, for a flush, no write is queued; in
    every other case the request is appended to the queue. *)
Theorem inline_or_queued (ev : Event) (req : AioImageRequest)
    (s : AioImageRequestWQ) :
  submission_request ev = Some req ->
  (In (Run Caller req) (emitted s (exec ev s)) <-> runs_inline ev s = true)
  /\ m_items (state_of (exec ev s)) =
     (if runs_inline ev s then m_items s else m_items s ++ [req]).
Proof.
  intros Hreq. destruct ev; simpl in Hreq; try discriminate;
    injection Hreq as <-; simpl exec; unfold runs_inline.
  - unfold aio_read. rewrite andb_true_r. apply dispatch_cases.
  - unfold aio_write.
    replace (negb (non_blocking_aio (m_image_ctx s))
             && lock_owned_or_not_required s)
      with (negb (non_blocking_aio (m_image_ctx s) || is_lock_required s)).
    + apply dispatch_cases.
    + unfold lock_owned_or_not_required, is_lock_required.
      destruct (non_blocking_aio _), (image_watcher _) as [w|]; simpl; auto.
      destruct (is_lock_supported w), (is_lock_owner w); reflexivity.
  - unfold aio_discard.
    replace (negb (non_blocking_aio (m_image_ctx s))
             && lock_owned_or_not_required s)
      with (negb (non_blocking_aio (m_image_ctx s) || is_lock_required s)).
    + apply dispatch_cases.
    + unfold lock_owned_or_not_required, is_lock_required.
      destruct (non_blocking_aio _), (image_watcher _) as [w|]; simpl; auto.
      destruct (is_lock_supported w), (is_lock_owner w); reflexivity.
  - unfold aio_flush, writes_empty.
    replace (negb (non_blocking_aio (m_image_ctx s))
             && (m_queued_writes s =? 0))
      with (negb (non_blocking_aio (m_image_ctx s)
                  || negb (m_queued_writes s =? 0))).
    + apply dispatch_cases.
    + destruct (non_blocking_aio _), (m_queued_writes s =? 0); reflexivity.
Qed.

Lemma read_map_watcher (w : option ImageWatcher) (ictx : ImageCtx)
    (extents : list (Z * Z)) :
  forall object_extents buffer_ofs,
    read_map (set_image_watcher w ictx) extents object_extents buffer_ofs
    = read_map ictx extents object_extents buffer_ofs.
Proof.
  assert (H : forall object_extents buffer_ofs,
             read_map_loop (set_image_watcher w ictx) extents
               object_extents buffer_ofs
             = read_map_loop ictx extents object_extents buffer_ofs).
  { induction extents as [|p rest IH]; intros oe bo; simpl;
      [reflexivity|].
    destruct (_ =? 0); apply IH. }
  intros oe bo. unfold read_map. rewrite H. reflexivity.
Qed.

(** Sending a read does not look at the image watcher. *)
Lemma send_read_watcher (w : option ImageWatcher) (ictx : ImageCtx)
    (c : AioCompletion) (extents : list (Z * Z)) (op_flags : Z) :
  send (set_image_watcher w ictx) (AioImageRead c extents op_flags) =
  {| sent_ok := sent_ok (send ictx (AioImageRead c extents op_flags));
     sent_ctx :=
       set_image_watcher w
         (sent_ctx (send ictx (AioImageRead c extents op_flags)));
     sent_effects :=
       sent_effects (send ictx (AioImageRead c extents op_flags)) |}.
Proof.
  unfold send. simpl ictx_check_result.
  destruct (ictx_check_result ictx <? 0); [reflexivity|].
  simpl. unfold read_send_request. rewrite read_map_watcher.
  destruct (read_map ictx extents [] 0) as [r|[oe bo]]; reflexivity.
Qed.

(** A queued read leaves everything but the list of items alone. *)
Lemma queue_read (c : AioCompletion) (extents : list (Z * Z))
    (op_flags : Z) (lock_required : bool) (s : AioImageRequestWQ) :
  queue (AioImageRead c extents op_flags) lock_required s =
  Ok (set_items (m_items s ++ [AioImageRead c extents op_flags]) s).
Proof.
  unfold queue. simpl. destruct s; reflexivity.
Qed.

(** C10: [aio_read] never consults the distributed lock: with any other
    image watcher in place it does the same; it runs inline exactly when
    [non_blocking_aio] is off and is queued otherwise, with
    [lock_required = false]; and it never calls the image watcher, so
    neither [flag_aio_ops_pending] nor [request_lock]. *)
Theorem aio_read_ignores_lock (c : AioCompletion) (off len op_flags : Z)
    (s : AioImageRequestWQ) :
  (forall w,
     state_of (aio_read c off len op_flags (with_watcher w s))
     = with_watcher w (state_of (aio_read c off len op_flags s))
     /\ is_ok (aio_read c off len op_flags (with_watcher w s))
        = is_ok (aio_read c off len op_flags s))
  /\ (In (Run Caller (new_AioImageRead c off len op_flags))
        (emitted s (aio_read c off len op_flags s))
      <-> non_blocking_aio (m_image_ctx s) = false)
  /\ (non_blocking_aio (m_image_ctx s) = true ->
      aio_read c off len op_flags s
      = queue (new_AioImageRead c off len op_flags) false s
      /\ m_items (state_of (aio_read c off len op_flags s))
         = m_items s ++ [new_AioImageRead c off len op_flags])
  /\ Forall (fun e => is_watcher_effect e = false)
       (emitted s (aio_read c off len op_flags s)).
Proof.
  unfold aio_read, new_AioImageRead.
  split; [|split; [|split]].
  - intros w. simpl non_blocking_aio.
    destruct (non_blocking_aio (m_image_ctx s)).
    + rewrite !queue_read. split; reflexivity.
    + unfold run. simpl m_image_ctx. rewrite send_read_watcher. simpl.
      destruct (sent_ok _); split; reflexivity.
  - pose proof (dispatch_cases (AioImageRead c [(off, len)] op_flags) false
                  (non_blocking_aio (m_image_ctx s)) s) as [H _].
    simpl in H. rewrite H.
    destruct (non_blocking_aio _); simpl; split; congruence.
  - intros ->. split; [reflexivity|]. rewrite queue_read. reflexivity.
  - destruct (non_blocking_aio (m_image_ctx s)).
    + rewrite queue_read, emitted_nil by reflexivity. constructor.
    + destruct (run_spec Caller (AioImageRead c [(off, len)] op_flags) s)
        as (j & es & Hq & E).
      rewrite (emitted_app s _ (Run Caller _ :: es))
        by (rewrite E; reflexivity).
      constructor; [reflexivity|exact Hq].
Qed.


(** With a list to stash into, [send_object_requests] sends nothing and
    appends every child it constructs to the list. *)
Lemma send_object_requests_stash (ictx : ImageCtx) (req : AioImageRequest)
    (snapc : SnapContext) (exts : ObjectExtents) :
  forall requests,
    send_object_requests ictx req exts snapc true requests =
    (requests ++ constructed ictx req exts snapc,
     flat_map (stash_effects ictx req snapc) exts).
Proof.
  induction exts as [|p rest IH]; intros requests; simpl.
  - rewrite app_nil_r. reflexivity.
  - unfold stash_effects at 1.
    destruct (send_object_request ictx req p snapc) as [[r|] es]; simpl.
    + rewrite IH, <- app_assoc. reflexivity.
    + rewrite IH. reflexivity.
Qed.

(** Without one, it sends every child right after constructing it. *)
Lemma send_object_requests_submit (ictx : ImageCtx) (req : AioImageRequest)
    (snapc : SnapContext) (exts : ObjectExtents) :
  forall requests,
    send_object_requests ictx req exts snapc false requests =
    (requests, flat_map (submit_effects ictx req snapc) exts).
Proof.
  induction exts as [|p rest IH]; intros requests; simpl.
  - reflexivity.
  - unfold submit_effects at 1.
    destruct (send_object_request ictx req p snapc) as [[r|] es]; simpl.
    + rewrite IH, <- app_assoc. reflexivity.
    + rewrite IH, app_nil_r. reflexivity.
Qed.

(** The whole of [AbstractAioImageWrite::send_request] on a writable image
    at its head. *)
Lemma write_send_request_effects (ictx : ImageCtx) (req : AioImageRequest)
    (off len : Z) (sync : bool) :
  lock_usable ictx ->
  snap_id ictx = CEPH_NOSNAP ->
  read_only ictx = false ->
  let c := m_aio_comp req in
  let exts := mapped_extents ictx off len in
  let tail :=
    (if object_cacher ictx
     then send_cache_requests req exts
            match journal ictx with
            | Some tid => fst (append_journal_event tid req
                                 (constructed ictx req exts (snapc_of ictx))
                                 sync)
            | None => 0
            end
     else [])
    ++ update_stats req (snd (clip_io ictx off len))
    ++ [Comp_finish_adding_requests c; Comp_put c] in
  sent_ok (write_send_request ictx req off len sync) = true
  /\ sent_effects (write_send_request ictx req off len sync) =
     Comp_init_time c (get_aio_type req)
       :: match journal ictx with
          | Some tid =>
              flat_map (stash_effects ictx req (snapc_of ictx)) exts
                ++ snd (append_journal_event tid req
                          (constructed ictx req exts (snapc_of ictx)) sync)
          | None => flat_map (submit_effects ictx req (snapc_of ictx)) exts
          end ++ tail.
Proof.
  intros (w & Hw & Hlock) Hhead Hrw c exts tail.
  subst tail exts c. unfold write_send_request, mapped_extents.
  assert (Hassert : negb (negb (is_lock_supported w) || is_lock_owner w)
                    = false)
    by (destruct Hlock as [-> | ->];
        destruct (is_lock_supported w); reflexivity).
  rewrite Hw, Hassert, Hhead, Hrw, Z.eqb_refl. simpl.
  destruct (journal ictx) as [tid|].
  - rewrite send_object_requests_stash. simpl.
    destruct (append_journal_event _ _ _ _) as [tid' es]. simpl.
    split; [reflexivity|]. rewrite <- !app_assoc. reflexivity.
  - rewrite send_object_requests_submit. simpl.
    split; reflexivity.
Qed.

Lemma no_store_observed (es : list Effect) :
  forallb no_store es = true ->
  sent_objects es = [] /\ journal_appends es = []
  /\ object_store_ops es = [].
Proof.
  induction es as [|e es IH]; simpl; [auto|].
  intros H. apply andb_true_iff in H. destruct H as [He Hes].
  destruct (IH Hes) as (H1 & H2 & H3).
  destruct e; try discriminate; simpl; auto.
Qed.

Lemma forallb_flat_map {A B : Type} (P : B -> bool) (f : A -> list B)
    (l : list A) :
  (forall a, forallb P (f a) = true) -> forallb P (flat_map f l) = true.
Proof.
  intros H. induction l as [|a l IH]; simpl; [reflexivity|].
  rewrite forallb_app, H, IH. reflexivity.
Qed.

Lemma send_object_request_no_store (ictx : ImageCtx) (req : AioImageRequest)
    (p : ObjectExtent) (snapc : SnapContext) :
  forallb no_store (snd (send_object_request ictx req p snapc)) = true.
Proof.
  unfold send_object_request.
  destruct req; simpl;
    repeat match goal with
           | |- context [if ?b then _ else _] => destruct b; simpl
           end;
    reflexivity.
Qed.

Lemma stash_effects_no_store (ictx : ImageCtx) (req : AioImageRequest)
    (snapc : SnapContext) (exts : ObjectExtents) :
  forallb no_store (flat_map (stash_effects ictx req snapc) exts) = true.
Proof.
  apply forallb_flat_map. intros p. unfold stash_effects. simpl.
  apply send_object_request_no_store.
Qed.

Lemma sent_objects_app (es es' : list Effect) :
  sent_objects (es ++ es') = sent_objects es ++ sent_objects es'.
Proof.
  apply flat_map_app.
Qed.

Lemma journal_appends_app (es es' : list Effect) :
  journal_appends (es ++ es') = journal_appends es ++ journal_appends es'.
Proof.
  apply flat_map_app.
Qed.

Lemma submit_effects_observed (ictx : ImageCtx) (req : AioImageRequest)
    (snapc : SnapContext) (exts : ObjectExtents) :
  sent_objects (flat_map (submit_effects ictx req snapc) exts)
  = constructed ictx req exts snapc
  /\ journal_appends (flat_map (submit_effects ictx req snapc) exts) = [].
Proof.
  induction exts as [|p rest [IH1 IH2]]; [split; reflexivity|].
  change (flat_map (submit_effects ictx req snapc) (p :: rest))
    with (submit_effects ictx req snapc p
            ++ flat_map (submit_effects ictx req snapc) rest).
  rewrite sent_objects_app, journal_appends_app, IH1, IH2.
  unfold submit_effects.
  change (New_C_AioRequest (m_aio_comp req) :: ?l)
    with ([New_C_AioRequest (m_aio_comp req)] ++ l).
  rewrite !sent_objects_app, !journal_appends_app.
  destruct (no_store_observed _
              (send_object_request_no_store ictx req p snapc))
    as (H1 & H2 & _).
  rewrite H1, H2. unfold constructed. simpl.
  destruct (fst (send_object_request ictx req p snapc)); split; reflexivity.
Qed.

Lemma write_tail_no_store (ictx : ImageCtx) (req : AioImageRequest)
    (exts : ObjectExtents) (tid n : Z) (c : AioCompletion) :
  forallb no_store
    ((if object_cacher ictx then send_cache_requests req exts tid else [])
       ++ update_stats req n
       ++ [Comp_finish_adding_requests c; Comp_put c]) = true.
Proof.
  rewrite !forallb_app.
  assert (H1 : forallb no_store
                 (if object_cacher ictx
                  then send_cache_requests req exts tid else []) = true).
  { destruct (object_cacher ictx); [|reflexivity].
    destruct req; simpl; try reflexivity.
    apply forallb_flat_map. intros a. reflexivity. }
  assert (H2 : forallb no_store (update_stats req n) = true)
    by (destruct req; reflexivity).
  rewrite H1, H2. reflexivity.
Qed.

Lemma append_journal_event_spec (tid : Z) (req : AioImageRequest)
    (requests : AioObjectRequests) (sync : bool) :
  is_abstract_write req = true ->
  snd (append_journal_event tid req requests sync) =
  [Journal_append_event (m_aio_comp req) (journal_event_of req) requests
     sync].
Proof.
  destruct req; try discriminate; reflexivity.
Qed.

Lemma send_request_abstract_write (ictx : ImageCtx) (req : AioImageRequest) :
  is_abstract_write req = true ->
  send_request ictx req =
  write_send_request ictx req (m_off req) (m_len req) (m_synchronous req).
Proof.
  destruct req; try discriminate; reflexivity.
Qed.

(** What a write or discard on a writable image at its head hands to the
    object store and to the journal. *)
Lemma send_request_observed (ictx : ImageCtx) (req : AioImageRequest) :
  is_abstract_write req = true ->
  lock_usable ictx ->
  snap_id ictx = CEPH_NOSNAP ->
  read_only ictx = false ->
  match journal ictx with
  | Some _ =>
      sent_objects (sent_effects (send_request ictx req)) = []
      /\ journal_appends (sent_effects (send_request ictx req)) =
         [(journal_event_of req,
           constructed ictx req
             (mapped_extents ictx (m_off req) (m_len req)) (snapc_of ictx),
           m_synchronous req)]
  | None =>
      sent_objects (sent_effects (send_request ictx req))
      = constructed ictx req
          (mapped_extents ictx (m_off req) (m_len req)) (snapc_of ictx)
      /\ journal_appends (sent_effects (send_request ictx req)) = []
  end.
Proof.
  intros Hreq Hlock Hhead Hrw.
  rewrite (send_request_abstract_write _ _ Hreq).
  destruct (write_send_request_effects ictx req (m_off req) (m_len req)
              (m_synchronous req) Hlock Hhead Hrw) as [_ E].
  rewrite E. clear E.
  change (Comp_init_time ?c ?t :: ?l) with ([Comp_init_time c t] ++ l).
  destruct (journal ictx) as [tid|]; cbv beta iota.
  - rewrite (append_journal_event_spec _ _ _ _ Hreq).
    pose proof (no_store_observed _
                  (write_tail_no_store ictx req
                     (mapped_extents ictx (m_off req) (m_len req))
                     (fst (append_journal_event tid req
                             (constructed ictx req
                                (mapped_extents ictx (m_off req)
                                   (m_len req)) (snapc_of ictx))
                             (m_synchronous req)))
                     (snd (clip_io ictx (m_off req) (m_len req)))
                     (m_aio_comp req)))
      as (H3 & H4 & _).
    set (tail := (if object_cacher ictx then _ else _) ++ _ ++ _) in *.
    rewrite !sent_objects_app, !journal_appends_app, H3, H4.
    destruct (no_store_observed _
                (stash_effects_no_store ictx req (snapc_of ictx)
                   (mapped_extents ictx (m_off req) (m_len req))))
      as (H1 & H2 & _).
    rewrite H1, H2. split; reflexivity.
  - pose proof (no_store_observed _
                  (write_tail_no_store ictx req
                     (mapped_extents ictx (m_off req) (m_len req)) 0
                     (snd (clip_io ictx (m_off req) (m_len req)))
                     (m_aio_comp req)))
      as (H3 & H4 & _).
    set (tail := (if object_cacher ictx then _ else _) ++ _ ++ _) in *.
    rewrite !sent_objects_app, !journal_appends_app, H3, H4.
    destruct (submit_effects_observed ictx req (snapc_of ictx)
                (mapped_extents ictx (m_off req) (m_len req)))
      as (H1 & H2).
    rewrite H1, H2. simpl. rewrite app_nil_r. split; reflexivity.
Qed.

(** C8: with a journal, [send_object_requests] stashes every child it
    constructs and sends none, and the list is handed to the journal's
    append-event operation; without a journal every child is sent right
    after it is constructed. *)
Theorem children_stashed_or_sent (ictx : ImageCtx) (req : AioImageRequest) :
  is_abstract_write req = true ->
  lock_usable ictx ->
  snap_id ictx = CEPH_NOSNAP ->
  read_only ictx = false ->
  let snapc := snapc_of ictx in
  let es := sent_effects (send_request ictx req) in
  let kids :=
    constructed ictx req (mapped_extents ictx (m_off req) (m_len req))
      snapc in
  (forall exts requests,
     send_object_requests ictx req exts snapc true requests =
     (requests ++ constructed ictx req exts snapc,
      flat_map (stash_effects ictx req snapc) exts)
     /\ sent_objects (flat_map (stash_effects ictx req snapc) exts) = [])
  /\ (forall exts requests,
        send_object_requests ictx req exts snapc false requests =
        (requests, flat_map (submit_effects ictx req snapc) exts)
        /\ sent_objects (flat_map (submit_effects ictx req snapc) exts)
           = constructed ictx req exts snapc)
  /\ match journal ictx with
     | Some _ =>
         sent_objects es = []
         /\ journal_appends es =
            [(journal_event_of req, kids, m_synchronous req)]
     | None => sent_objects es = kids /\ journal_appends es = []
     end.
Proof.
  intros Hreq Hlock Hhead Hrw snapc es kids.
  split; [|split].
  - intros exts requests. split; [apply send_object_requests_stash|].
    apply no_store_observed, stash_effects_no_store.
  - intros exts requests. split; [apply send_object_requests_submit|].
    apply submit_effects_observed.
  - apply send_request_observed; assumption.
Qed.

(** The extents of the striper cover as many bytes as were asked for. *)
Lemma total_length_add_block (exts : ObjectExtents)
    (objno x_offset x_len boff : Z) :
  total_length (add_block exts objno x_offset x_len boff)
  = total_length exts + x_len.
Proof.
  induction exts as [|e rest IH]; simpl; [lia|].
  destruct (_ && _); simpl; lia.
Qed.

Lemma total_length_loop (l : file_layout) (base boff : Z) (fuel : nat) :
  0 < fl_stripe_unit l ->
  forall cur left acc,
    0 <= left <= Z.of_nat fuel ->
    total_length (file_to_extents_loop fuel l base boff cur left acc)
    = total_length acc + left.
Proof.
  intros Hsu. induction fuel as [|fuel IH]; intros cur left acc Hleft.
  - simpl. lia.
  - simpl file_to_extents_loop.
    destruct (Z.leb_spec left 0) as [H0|Hpos]; [lia|].
    pose proof (Z.mod_pos_bound cur (fl_stripe_unit l) Hsu) as Hmod.
    rewrite IH by lia. rewrite total_length_add_block. lia.
Qed.

Lemma total_length_file_to_extents (l : file_layout) (off len boff : Z) :
  0 < fl_stripe_unit l -> 0 <= len ->
  total_length (file_to_extents l off len boff) = len.
Proof.
  intros Hsu Hlen. unfold file_to_extents.
  rewrite total_length_loop by lia. reflexivity.
Qed.

(** C9: for a journaled write that reaches past the end of the volume, the
    [AioWriteEvent] appended to the journal carries the offset, the length
    and the whole buffer of the request as submitted, while the object
    extents the children are built from cover the clipped length only. *)
Theorem journal_event_is_unclipped (ictx : ImageCtx) (c : AioCompletion)
    (off len : Z) (buf : bufferlist) (op_flags : Z) (sync : bool)
    (tid : Z) :
  let req := AioImageWrite c off len buf op_flags sync in
  let es := sent_effects (send_request ictx req) in
  journal ictx = Some tid ->
  lock_usable ictx ->
  snap_id ictx = CEPH_NOSNAP ->
  read_only ictx = false ->
  0 < fl_stripe_unit (layout ictx) ->
  0 < len ->
  image_size ictx < off + len ->
  List.length buf = Z.to_nat len ->
  journal_appends es =
    [(AioWriteEvent off len buf,
      constructed ictx req (mapped_extents ictx off len) (snapc_of ictx),
      sync)]
  /\ sent_objects es = []
  /\ total_length (mapped_extents ictx off len)
     = Z.max 0 (image_size ictx - off)
  /\ Z.max 0 (image_size ictx - off) < len.
Proof.
  intros req es Hj Hlock Hhead Hrw Hsu Hlen Hpast Hbuf.
  pose proof (send_request_observed ictx req eq_refl Hlock Hhead Hrw)
    as H.
  rewrite Hj in H. destruct H as [Hsent Happ].
  split; [|split; [exact Hsent|split; [|lia]]].
  - subst es. rewrite Happ. simpl journal_event_of.
    rewrite <- Hbuf, firstn_all. reflexivity.
  - unfold mapped_extents, clip_io. simpl snd.
    replace (Z.min len (Z.max 0 (image_size ictx - off)))
      with (Z.max 0 (image_size ictx - off)) by lia.
    destruct (Z.ltb_spec 0 (Z.max 0 (image_size ictx - off))).
    + apply total_length_file_to_extents; lia.
    + simpl. lia.
Qed.

(** ** The outstanding count of the completion aggregate *)

Lemma outstanding_app (c : AioCompletion) (a b : list Effect) :
  outstanding c (a ++ b) = outstanding c a + outstanding c b.
Proof.
  unfold outstanding. induction a as [|e a IH]; simpl; [reflexivity|].
  rewrite IH. lia.
Qed.

Lemma outstanding_neutral (c : AioCompletion) (t : list Effect) :
  forallb neutral t = true -> outstanding c t = 0.
Proof.
  unfold outstanding. induction t as [|e t IH]; simpl; [reflexivity|].
  intros H. apply andb_true_iff in H. destruct H as [He Ht].
  rewrite (IH Ht). destruct e; try discriminate; reflexivity.
Qed.

Lemma neutral_silent (reply : Effect -> Z) (c : AioCompletion)
    (t : list Effect) :
  forallb neutral t = true ->
  first_failure c t = None
  /\ finished_adding c t = false
  /\ flat_map (child_results reply c) t = [].
Proof.
  unfold first_failure, finished_adding.
  induction t as [|e t IH]; simpl; [auto|].
  intros H. apply andb_true_iff in H. destruct H as [He Ht].
  destruct (IH Ht) as (H1 & H2 & H3).
  destruct e; try discriminate; simpl; auto.
Qed.

Lemma first_failure_app (c : AioCompletion) (a b : list Effect) :
  first_failure c a = None ->
  first_failure c (a ++ b) = first_failure c b.
Proof.
  unfold first_failure. rewrite flat_map_app.
  destruct (flat_map _ a); [reflexivity|discriminate].
Qed.

Lemma finished_adding_app (c : AioCompletion) (a b : list Effect) :
  finished_adding c (a ++ b) = finished_adding c a || finished_adding c b.
Proof.
  unfold finished_adding. apply existsb_app.
Qed.

(** The queue's own effects around the effects of a request change nothing
    of what the request's completion does. *)
Lemma completion_result_framed (reply : Effect -> Z) (c : AioCompletion)
    (pre L post : list Effect) :
  forallb neutral pre = true -> forallb neutral post = true ->
  completion_result reply c (pre ++ L ++ post) = completion_result reply c L.
Proof.
  intros Hpre Hpost.
  destruct (neutral_silent reply c pre Hpre) as (F1 & A1 & R1).
  destruct (neutral_silent reply c post Hpost) as (F2 & A2 & R2).
  unfold completion_result.
  rewrite (first_failure_app c pre _ F1).
  assert (Hf : first_failure c (L ++ post) = first_failure c L).
  { unfold first_failure in *. rewrite flat_map_app.
    destruct (flat_map _ post); [|discriminate].
    rewrite app_nil_r. reflexivity. }
  rewrite Hf, !finished_adding_app, A1, A2, orb_false_r. cbn [orb].
  rewrite !outstanding_app, (outstanding_neutral c pre Hpre),
    (outstanding_neutral c post Hpost), Z.add_0_l, Z.add_0_r.
  rewrite !flat_map_app, R1, R2, app_nil_r. reflexivity.
Qed.

(** No error among the results: the cumulative result is success. *)
Lemma cumulative_success (results : list Z) :
  Forall (fun r => 0 <= r) results -> cumulative results = 0.
Proof.
  unfold cumulative. intros H. induction H as [|r l Hr Hl IH];
    [reflexivity|].
  cbn [fold_left]. unfold worse at 2.
  destruct (Z.ltb_spec r 0); [lia|]. exact IH.
Qed.

(** The cumulative result is success or an error. *)
Lemma cumulative_nonpos (results : list Z) : cumulative results <= 0.
Proof.
  unfold cumulative.
  assert (H : forall acc, acc <= 0 -> fold_left worse results acc <= 0).
  { induction results as [|r l IH]; intros acc Hacc; [exact Hacc|].
    cbn [fold_left]. apply IH. unfold worse.
    destruct (Z.ltb_spec r 0); cbn [andb]; [|exact Hacc].
    destruct (_ || _); lia. }
  apply H. lia.
Qed.

Lemma child_results_nonneg (reply : Effect -> Z) (c : AioCompletion)
    (t : list Effect) :
  (forall e, 0 <= reply e) ->
  Forall (fun r => 0 <= r) (flat_map (child_results reply c) t).
Proof.
  intros Hreply. induction t as [|e t IH]; [constructor|].
  cbn [flat_map]. apply Forall_app. split; [|exact IH].
  destruct e; cbn [child_results]; try constructor;
    destruct (Nat.eqb c c0); try constructor; auto.
  apply Forall_forall. intros r Hin. apply in_map_iff in Hin.
  destruct Hin as (x & <- & _). apply Hreply.
Qed.

Lemma childless_observed (reply : Effect -> Z) (c : AioCompletion)
    (es : list Effect) :
  forallb childless es = true ->
  first_failure c es = None /\ flat_map (child_results reply c) es = [].
Proof.
  unfold first_failure.
  induction es as [|e es IH]; simpl; [auto|].
  intros H. apply andb_true_iff in H. destruct H as [He Hes].
  destruct (IH Hes) as [H1 H2].
  destruct e; try discriminate; simpl; auto.
Qed.

Lemma object_store_ops_nil (es : list Effect) :
  sent_objects es = [] ->
  Forall (fun a => snd (fst a) = []) (journal_appends es) ->
  object_store_ops es = [].
Proof.
  induction es as [|e es IH]; simpl; [auto|].
  intros Hs Hj. destruct e; simpl in *; try (apply IH; assumption).
  - discriminate.
  - inversion Hj as [|a l Ha Hl]; subst. simpl in Ha. subst reqs.
    simpl. apply IH; assumption.
Qed.

(** [AioImageDiscard::send_object_request] on an interior extent. *)
Lemma discard_interior (ictx : ImageCtx) (c : AioCompletion) (off len : Z)
    (sync : bool) (p : ObjectExtent) (snapc : SnapContext) :
  interior ictx p ->
  send_object_request ictx (AioImageDiscard c off len sync) p snapc =
  (if rbd_skip_partial_discard ictx then (None, [Delete_on_finish c])
   else (Some (AioObjectZero (objectno p) (offset p) (length p) snapc), [])).
Proof.
  intros [H1 H2]. unfold send_object_request.
  apply Z.eqb_neq in H1, H2. rewrite H1, H2. reflexivity.
Qed.

Lemma discard_skipped (ictx : ImageCtx) (c : AioCompletion) (off len : Z)
    (sync : bool) (snapc : SnapContext) (exts : ObjectExtents) :
  rbd_skip_partial_discard ictx = true ->
  Forall (interior ictx) exts ->
  constructed ictx (AioImageDiscard c off len sync) exts snapc = []
  /\ forallb childless
       (flat_map (submit_effects ictx (AioImageDiscard c off len sync) snapc)
          exts) = true.
Proof.
  intros Hskip Hall. induction Hall as [|p rest Hp Hrest [IH1 IH2]].
  - split; reflexivity.
  - unfold constructed in *.
    change (flat_map ?f (p :: rest)) with (f p ++ flat_map f rest).
    rewrite forallb_app, IH1, IH2. unfold submit_effects.
    rewrite (discard_interior ictx c off len sync p snapc Hp), Hskip.
    split; reflexivity.
Qed.

(** A range inside the first stripe unit maps to one extent of object 0. *)
Lemma file_to_extents_single (l : file_layout) (off len boff : Z) :
  0 < len -> 0 <= off -> off + len <= fl_stripe_unit l ->
  file_to_extents l off len boff =
  [ {| objectno := 0; offset := off; length := len;
       buffer_extents := [(boff, len)] |} ].
Proof.
  intros Hlen Hoff Hsu. unfold file_to_extents.
  destruct (Z.to_nat len) as [|n] eqn:En; [lia|].
  cbn [file_to_extents_loop].
  destruct (Z.leb_spec len 0) as [|_]; [lia|].
  rewrite (Z.div_small off) by lia.
  rewrite (Z.mod_small off) by lia.
  rewrite !Zdiv_0_l, !Zmod_0_l.
  replace (Z.min len (fl_stripe_unit l - off)) with len by lia.
  replace (len - len) with 0 by lia.
  replace (off - off + boff) with boff by lia.
  replace (0 * fl_stripe_count l + 0) with 0 by lia.
  replace (0 * fl_stripe_unit l + off) with off by lia.
  cbn [add_block].
  destruct n as [|n]; cbn [file_to_extents_loop]; reflexivity.
Qed.

(** [run] in terms of [send]. *)
Lemma run_state (t : Thread) (req : AioImageRequest) (s : AioImageRequestWQ) :
  exists j,
    run t req s =
    (if sent_ok (send (m_image_ctx s) req) then Ok else Fault)
      (emit (Run t req :: sent_effects (send (m_image_ctx s) req))
         (set_image_ctx (set_journal j (m_image_ctx s)) s)).
Proof.
  destruct (send_ctx (m_image_ctx s) req) as [j Hj].
  exists j. unfold run. rewrite Hj.
  destruct (sent_ok _); reflexivity.
Qed.

(** Sending the clipped write of the scenario. *)
Lemma clipped_write_sent (ictx : ImageCtx) (c : AioCompletion)
    (buf : bufferlist) (op_flags : Z) :
  image_size ictx = 4096 ->
  lock_usable ictx ->
  snap_id ictx = CEPH_NOSNAP ->
  read_only ictx = false ->
  object_cacher ictx = false ->
  0 <= ictx_check_result ictx ->
  4096 <= fl_stripe_unit (layout ictx) ->
  sent_ok (send ictx (new_AioImageWrite c 4000 96 buf op_flags)) = true
  /\ sent_effects (send ictx (new_AioImageWrite c 4000 96 buf op_flags))
     = clipped_write_effects ictx c buf op_flags.
Proof.
  intros Hsize Hlock Hhead Hrw Hcache Hcheck Hsu.
  unfold send, new_AioImageWrite.
  destruct (Z.ltb_spec (ictx_check_result ictx) 0); [lia|].
  simpl send_request. simpl sent_ok. simpl sent_effects.
  destruct (write_send_request_effects ictx
              (AioImageWrite c 4000 96 buf op_flags false) 4000 96 false
              Hlock Hhead Hrw) as [Hok E].
  split; [exact Hok|]. rewrite E. clear E Hok.
  assert (Hext : mapped_extents ictx 4000 96 =
                 [ {| objectno := 0; offset := 4000; length := 96;
                      buffer_extents := [(0, 96)] |} ]).
  { unfold mapped_extents, clip_io. rewrite Hsize. simpl snd. simpl Z.ltb.
    cbv beta iota. apply file_to_extents_single; lia. }
  assert (Ha : assemble_extent [(0, 96)] buf = firstn 96 buf).
  { unfold assemble_extent. change (Z.to_nat (snd (0, 96))) with 96%nat.
    change (Z.to_nat (fst (0, 96))) with 0%nat.
    rewrite app_nil_r. reflexivity. }
  rewrite Hext. unfold clip_io. rewrite Hsize, Hcache.
  unfold clipped_write_effects, clipped_object_write, constructed,
    stash_effects, submit_effects, send_object_request,
    append_journal_event, update_stats.
  rewrite Hcache.
  cbn [flat_map app fst snd m_aio_comp objectno offset length
       buffer_extents get_aio_type].
  rewrite Ha. change (Z.to_nat 96) with 96%nat.
  change (Z.min 96 (Z.max 0 (4096 - 4000))) with 96.
  destruct (journal ictx) as [tid|]; reflexivity.
Qed.

(** What the completion and the object store see of the scenario's write,
    whatever effects of the queue surround it in the trace. *)
Lemma clipped_write_observed (reply : Effect -> Z) (ictx : ImageCtx)
    (c : AioCompletion) (buf : bufferlist) (op_flags : Z)
    (pre post : list Effect) :
  (forall e, 0 <= reply e) ->
  forallb neutral pre = true ->
  forallb neutral post = true ->
  completion_result reply c
    (pre ++ clipped_write_effects ictx c buf op_flags ++ post) = Some 0
  /\ (forallb no_store pre = true -> forallb no_store post = true ->
      object_store_ops
        (pre ++ clipped_write_effects ictx c buf op_flags ++ post)
      = [clipped_object_write ictx buf op_flags]).
Proof.
  intros Hreply Hpre Hpost. split.
  - rewrite (completion_result_framed reply c pre _ post Hpre Hpost).
    unfold completion_result.
    rewrite (cumulative_success _ (child_results_nonneg reply c _ Hreply)).
    unfold clipped_write_effects, first_failure, finished_adding,
      outstanding.
    destruct (journal ictx); simpl; rewrite !Nat.eqb_refl; simpl;
      rewrite ?Nat.eqb_refl, ?orb_true_r; reflexivity.
  - intros Hs1 Hs2.
    destruct (no_store_observed pre Hs1) as (_ & _ & H1).
    destruct (no_store_observed post Hs2) as (_ & _ & H2).
    unfold object_store_ops in *. rewrite !flat_map_app, H1, H2.
    unfold clipped_write_effects.
    destruct (journal ictx); reflexivity.
Qed.

(** A worker processing the only queued write. *)
Lemma process_last_write (req : AioImageRequest) (s : AioImageRequestWQ)
    (w : ImageWatcher) :
  is_write_op req = true ->
  image_watcher (m_image_ctx s) = Some w ->
  m_queued_writes s = 1 ->
  m_in_progress_writes s = 1 ->
  sent_ok (send (m_image_ctx s) req) = true ->
  exists s',
    process req s = Ok s'
    /\ trace s' =
       trace s ++ Run Worker req :: sent_effects (send (m_image_ctx s) req)
         ++ [Watcher_clear_aio_ops_pending].
Proof.
  intros Hwop Hw Hq Hin Hok. unfold process.
  destruct (run_state Worker req s) as [j Hrun].
  rewrite Hok in Hrun. rewrite Hrun, Hwop. clear Hrun.
  unfold clear_aio_ops_pending, watcher_call.
  cbn [m_queued_writes m_in_progress_writes m_image_ctx image_watcher emit
       set_trace set_image_ctx set_queued_writes set_journal
       set_in_progress_writes set_image_watcher].
  rewrite Hq. cbn [Z.ltb Z.compare negb Z.sub Z.eqb Z.add Z.opp Z.pos_sub].
  cbn [m_queued_writes m_in_progress_writes m_image_ctx image_watcher emit
       set_trace set_image_ctx set_queued_writes set_journal
       set_in_progress_writes set_image_watcher].
  rewrite Hw.
  cbn [m_queued_writes m_in_progress_writes m_image_ctx image_watcher emit
       set_trace set_image_ctx set_queued_writes set_journal
       set_in_progress_writes set_image_watcher].
  rewrite Hin. cbn [Z.ltb Z.compare negb].
  eexists. split; [reflexivity|].
  unfold emit, set_trace. cbn [trace set_in_progress_writes set_image_ctx
                               set_queued_writes].
  rewrite <- app_assoc. reflexivity.
Qed.

(** C7: on a volume 4096 bytes long, the synchronous write of 200 bytes at
    offset 4000 returns 96, and the object store receives exactly one
    object write, of 96 bytes.  The image is writable, at its head,
    without cache and usable with the lock as it stands; the collaborators
    report no error; a stripe unit holds the range. *)
Theorem write_clipped_to_volume (reply : Effect -> Z) (ictx : ImageCtx)
    (c : AioCompletion) (buf : bufferlist) (op_flags : Z) :
  image_size ictx = 4096 ->
  lock_usable ictx ->
  snap_id ictx = CEPH_NOSNAP ->
  read_only ictx = false ->
  object_cacher ictx = false ->
  0 <= ictx_check_result ictx ->
  4096 <= fl_stripe_unit (layout ictx) ->
  (forall e, 0 <= reply e) ->
  List.length buf = 200%nat ->
  exists s',
    write reply c 4000 200 buf op_flags (init ictx) = Some (96, s')
    /\ object_store_ops (trace s')
       = [AioObjectWrite 0 4000 (firstn 96 buf) (snapc_of ictx) op_flags]
    /\ List.length (firstn 96 buf) = 96%nat.
Proof.
  intros Hsize Hlock Hhead Hrw Hcache Hcheck Hsu Hreply Hbuf.
  assert (Hlen : List.length (firstn 96 buf) = 96%nat)
    by (rewrite firstn_length_le; [reflexivity | rewrite Hbuf; lia]).
  pose proof Hlock as (w & Hw & Hw').
  assert (Hreq : is_lock_required (init ictx) = false).
  { unfold is_lock_required. simpl. rewrite Hw.
    destruct Hw' as [-> | ->];
      [reflexivity | destruct (is_lock_supported w); reflexivity]. }
  unfold write, clip_io. simpl image_size. rewrite Hsize.
  change (Z.min 200 (Z.max 0 (4096 - 4000))) with 96.
  change (0 <? 0) with false. cbv beta iota.
  unfold aio_write. rewrite Hreq. simpl m_image_ctx.
  destruct (non_blocking_aio ictx) eqn:Hnb; simpl orb; cbv beta iota.
  - set (req := new_AioImageWrite c 4000 96 buf op_flags).
    rewrite (queue_write_op req false (init ictx) w eq_refl Hw).
    change (m_queued_writes (init ictx) =? 0) with true. cbv beta iota.
    set (ictx1 := set_image_watcher (Some (set_aio_ops_pending true w))
                    ictx).
    set (s1 := {| m_image_ctx := ictx1; m_items := []; m_processing := [];
                  m_queued_writes := 1; m_in_progress_writes := 1;
                  m_writes_suspended := false;
                  trace := [Watcher_flag_aio_ops_pending] |}).
    assert (Hlock1 : lock_usable ictx1).
    { exists (set_aio_ops_pending true w). split; [reflexivity|exact Hw']. }
    destruct (clipped_write_sent ictx1 c buf op_flags Hsize Hlock1 Hhead Hrw
                Hcache Hcheck Hsu) as [Hok Heff].
    destruct (process_last_write req s1 (set_aio_ops_pending true w)
                eq_refl eq_refl eq_refl eq_refl Hok) as (s3 & Hproc & Htr).
    fold req in Heff. simpl m_image_ctx in Htr. rewrite Heff in Htr.
    change (clipped_write_effects ictx1 c buf op_flags)
      with (clipped_write_effects ictx c buf op_flags) in Htr.
    destruct (clipped_write_observed reply ictx c buf op_flags
                [Watcher_flag_aio_ops_pending; Run Worker req]
                [Watcher_clear_aio_ops_pending]
                Hreply eq_refl eq_refl) as [Hres Hops].
    specialize (Hops eq_refl eq_refl).
    set (L := clipped_write_effects ictx c buf op_flags) in *.
    clearbody L.
    cbn [cond_wait].
    change (completion_result reply c (trace (emit _ _))) with (@None Z).
    cbv beta iota.
    match goal with
    | |- context [exec_all ?evs ?s] =>
        change (exec_all evs s)
          with (match process req s1 with
                | Ok s'' => Ok s''
                | Fault s'' => Fault s''
                end)
    end.
    rewrite Hproc. cbv beta iota.
    change (List.length (m_items (emit _ _))) with 1%nat.
    cbn [cond_wait].
    change (trace s1) with [Watcher_flag_aio_ops_pending] in Htr.
    change ([Watcher_flag_aio_ops_pending]
              ++ Run Worker req :: L ++ [Watcher_clear_aio_ops_pending])
      with ([Watcher_flag_aio_ops_pending; Run Worker req]
              ++ L ++ [Watcher_clear_aio_ops_pending]) in Htr.
    rewrite Htr.
    rewrite Hres. change (0 <? 0) with false. cbv beta iota.
    eexists. split; [reflexivity|]. split; [|exact Hlen].
    rewrite Htr. exact Hops.
  - destruct (run_state Caller (new_AioImageWrite c 4000 96 buf op_flags)
                (init ictx)) as [j Hrun].
    change (m_image_ctx (init ictx)) with ictx in Hrun.
    destruct (clipped_write_sent ictx c buf op_flags Hsize Hlock Hhead Hrw
                Hcache Hcheck Hsu) as [Hok Heff].
    rewrite Hok, Heff in Hrun. rewrite Hrun.
    destruct (clipped_write_observed reply ictx c buf op_flags
                [Run Caller (new_AioImageWrite c 4000 96 buf op_flags)] []
                Hreply eq_refl eq_refl) as [Hres Hops].
    specialize (Hops eq_refl eq_refl).
    set (L := clipped_write_effects ictx c buf op_flags) in *.
    clearbody L.
    cbn [cond_wait]. 
    match goal with |- context [completion_result reply c ?t] =>
      replace t with ([Run Caller (new_AioImageWrite c 4000 96 buf op_flags)] ++ L ++ []) by (simpl; rewrite app_nil_r; reflexivity) end.
    rewrite Hres. change (0 <? 0) with false. cbv beta iota.
    eexists. split; [reflexivity|]. split; [|exact Hlen].
    simpl trace. rewrite app_nil_r in Hops. exact Hops.
Qed.

(** ** The write counters *)

Lemma count_writes_app (l l' : list AioImageRequest) :
  count_writes (l ++ l') = count_writes l + count_writes l'.
Proof.
  induction l as [|req l IH]; simpl; [reflexivity|].
  destruct (is_write_op req); lia.
Qed.

Lemma count_writes_nonneg (l : list AioImageRequest) : 0 <= count_writes l.
Proof.
  induction l as [|req l IH]; simpl; [lia|].
  destruct (is_write_op req); lia.
Qed.

Lemma count_writes_remove_nth (l : list AioImageRequest) :
  forall n req,
    nth_error l n = Some req ->
    count_writes l =
    count_writes (remove_nth n l) + (if is_write_op req then 1 else 0).
Proof.
  induction l as [|x l IH]; intros [|n] req H; simpl in H; try discriminate.
  - injection H as <-. simpl. destruct (is_write_op x); lia.
  - simpl. rewrite (IH n req H). destruct (is_write_op x); lia.
Qed.

Lemma counters_inv_run (t : Thread) (req : AioImageRequest)
    (s : AioImageRequestWQ) :
  counters_inv s -> counters_inv (state_of (run t req s)).
Proof.
  intros H. destruct (run_spec t req s) as (j & es & _ & E).
  rewrite E. exact H.
Qed.

Lemma counters_inv_queue (req : AioImageRequest) (lock_required : bool)
    (s s' : AioImageRequestWQ) :
  counters_inv s -> queue req lock_required s = Ok s' -> counters_inv s'.
Proof.
  intros (Hq & Hp & Hw) E. unfold queue in E.
  pose proof (count_writes_nonneg (m_items s)) as N1.
  pose proof (count_writes_nonneg (m_processing s)) as N2.
  destruct (is_write_op req) eqn:Hop; simpl in E.
  - destruct (Z.eqb_spec (m_queued_writes s + 1) 1) as [E1|E1].
    + unfold flag_aio_ops_pending, request_lock, watcher_call in E.
      simpl in E.
      destruct (image_watcher (m_image_ctx s)) as [w|]; [|discriminate].
      destruct lock_required; simpl in E; injection E as <-;
        unfold counters_inv; simpl; rewrite count_writes_app; simpl;
        rewrite Hop; (split; [lia|split; [exact Hp|discriminate]]).
    + injection E as <-. unfold counters_inv. simpl.
      rewrite count_writes_app. simpl. rewrite Hop.
      split; [lia|split; [exact Hp|]]. intros _. apply Hw. lia.
  - injection E as <-. unfold counters_inv. simpl.
    rewrite count_writes_app. simpl. rewrite Hop.
    split; [lia|split; [exact Hp|exact Hw]].
Qed.

Lemma counters_inv_dequeue (s : AioImageRequestWQ) :
  counters_inv s ->
  counters_inv
    (match _void_dequeue s with
     | (Some item, s') => set_processing (m_processing s' ++ [item]) s'
     | (None, s') => s'
     end).
Proof.
  intros (Hq & Hp & Hw). unfold _void_dequeue.
  destruct (m_items s) as [|peek rest] eqn:Hi.
  - unfold counters_inv. rewrite Hi. auto.
  - simpl in Hq.
    destruct (is_write_op peek) eqn:Hop.
    + destruct (m_writes_suspended s).
      * unfold counters_inv. rewrite Hi. simpl. rewrite Hop. auto.
      * unfold counters_inv. simpl. rewrite count_writes_app. simpl.
        rewrite Hop. split; [lia|split; [lia|exact Hw]].
    + unfold counters_inv. simpl. rewrite count_writes_app. simpl.
      rewrite Hop. split; [lia|split; [lia|exact Hw]].
Qed.

(** A worker finishing the request it holds in slot [n]. *)
Lemma counters_inv_process (n : nat) (req : AioImageRequest)
    (s s' : AioImageRequestWQ) :
  counters_inv s ->
  nth_error (m_processing s) n = Some req ->
  process req (set_processing (remove_nth n (m_processing s)) s) = Ok s' ->
  counters_inv s'.
Proof.
  intros (Hq & Hp & Hw) Hn E. unfold process in E.
  pose proof (count_writes_remove_nth _ _ _ Hn) as Hrm.
  destruct (run_spec Worker req
              (set_processing (remove_nth n (m_processing s)) s))
    as (j & es & _ & Hs).
  destruct (run Worker req _) as [s1|s1]; [|discriminate].
  simpl in Hs. subst s1.
  destruct (is_write_op req).
  - simpl in E.
    destruct (Z.ltb_spec 0 (m_queued_writes s)) as [Hpos|]; simpl in E;
      [|discriminate].
    destruct (Z.eqb_spec (m_queued_writes s - 1) 0) as [E0|E0].
    + unfold clear_aio_ops_pending, watcher_call in E. simpl in E.
      destruct (image_watcher (m_image_ctx s)) as [w|]; [|discriminate].
      simpl in E.
      destruct (Z.ltb_spec 0 (m_in_progress_writes s)); simpl in E;
        [|discriminate].
      injection E as <-. unfold counters_inv. simpl.
      split; [lia|split; [lia|discriminate]].
    + simpl in E.
      destruct (Z.ltb_spec 0 (m_in_progress_writes s)); simpl in E;
        [|discriminate].
      injection E as <-. unfold counters_inv. simpl.
      split; [lia|split; [lia|]]. intros _. apply Hw. lia.
  - injection E as <-. unfold counters_inv. simpl.
    split; [lia|split; [lia|exact Hw]].
Qed.

Lemma counters_inv_exec (ev : Event) (s s' : AioImageRequestWQ) :
  counters_inv s -> exec ev s = Ok s' -> counters_inv s'.
Proof.
  intros H E. destruct ev; simpl in E.
  - unfold aio_read in E. destruct (non_blocking_aio (m_image_ctx s)).
    + eapply counters_inv_queue; eauto.
    + pose proof (counters_inv_run Caller
                    (new_AioImageRead c off len op_flags) s H) as H1.
      rewrite E in H1. exact H1.
  - unfold aio_write in E. destruct (_ || _).
    + eapply counters_inv_queue; eauto.
    + pose proof (counters_inv_run Caller
                    (new_AioImageWrite c off len buf op_flags) s H) as H1.
      rewrite E in H1. exact H1.
  - unfold aio_discard in E. destruct (_ || _).
    + eapply counters_inv_queue; eauto.
    + pose proof (counters_inv_run Caller
                    (new_AioImageDiscard c off len) s H) as H1.
      rewrite E in H1. exact H1.
  - unfold aio_flush in E. destruct (_ || _).
    + eapply counters_inv_queue; eauto.
    + pose proof (counters_inv_run Caller (AioImageFlush c) s H) as H1.
      rewrite E in H1. exact H1.
  - pose proof (counters_inv_dequeue s H) as H1.
    destruct (_void_dequeue s) as [[item|] s0]; injection E as <-; exact H1.
  - destruct (nth_error (m_processing s) n) as [req|] eqn:Hn;
      [|injection E as <-; exact H].
    eapply counters_inv_process; eauto.
  - injection E as <-. exact H.
  - injection E as <-. exact H.
  - injection E as <-. unfold set_lock_state.
    destruct H as (Hq & Hp & Hw).
    destruct (image_watcher (m_image_ctx s)) as [w|] eqn:Hi.
    + unfold counters_inv. simpl. split; [exact Hq|split; [exact Hp|]].
      discriminate.
    + unfold counters_inv. rewrite Hi. auto.
Qed.

Lemma counters_inv_exec_all (evs : list Event) :
  forall s s', counters_inv s -> exec_all evs s = Ok s' -> counters_inv s'.
Proof.
  induction evs as [|ev evs IH]; intros s s' H E; simpl in E.
  - injection E as <-. exact H.
  - destruct (exec ev s) as [s1|s1] eqn:E1; [|discriminate].
    eapply IH; [|exact E]. eapply counters_inv_exec; eauto.
Qed.

Lemma counters_inv_reachable (s : AioImageRequestWQ) :
  reachable s -> counters_inv s.
Proof.
  intros (ictx & evs & _ & E).
  eapply counters_inv_exec_all; [|exact E].
  unfold counters_inv. simpl. split; [reflexivity|split; [reflexivity|lia]].
Qed.

(** X1: in every reachable state [m_queued_writes] is the number of write
    requests that are queued or held by a worker, and
    [m_in_progress_writes] the number of those held by a worker; so
    [0 <= m_in_progress_writes <= m_queued_writes]. *)
Theorem counters_count_writes (s : AioImageRequestWQ) :
  reachable s ->
  m_queued_writes s
  = count_writes (m_items s) + count_writes (m_processing s)
  /\ m_in_progress_writes s = count_writes (m_processing s)
  /\ 0 <= m_in_progress_writes s <= m_queued_writes s.
Proof.
  intros Hr. destruct (counters_inv_reachable s Hr) as (Hq & Hp & _).
  pose proof (count_writes_nonneg (m_items s)).
  pose proof (count_writes_nonneg (m_processing s)).
  repeat split; lia.
Qed.

(** ** Where the process can stop *)

Lemma write_send_request_ok (ictx : ImageCtx) (req : AioImageRequest)
    (off len : Z) (sync : bool) :
  sent_ok (write_send_request ictx req off len sync) =
  match image_watcher ictx with
  | None => false
  | Some w => negb (is_lock_supported w) || is_lock_owner w
  end.
Proof.
  unfold write_send_request.
  destruct (image_watcher ictx) as [w|]; [|reflexivity].
  destruct (negb (is_lock_supported w) || is_lock_owner w); simpl;
    [|reflexivity].
  repeat match goal with
         | |- context [if ?b then _ else _] => destruct b; simpl
         | |- context [let '(_, _) := ?x in _] => destruct x; simpl
         | |- context [match journal ictx with _ => _ end] =>
             destruct (journal ictx); simpl
         end;
    reflexivity.
Qed.

(** X2: [send()] trips an assertion or a null pointer only for a write or
    discard that passed [ictx_check] on an image whose watcher is missing,
    or whose lock is supported but not owned; reads and flushes always run
    to their end. *)
Theorem send_aborts_only_on_lock (ictx : ImageCtx) (req : AioImageRequest) :
  sent_ok (send ictx req) = false
  <-> is_abstract_write req = true
      /\ 0 <= ictx_check_result ictx
      /\ ~ lock_usable ictx.
Proof.
  unfold send.
  destruct (Z.ltb_spec (ictx_check_result ictx) 0) as [Hneg|Hpos]; simpl.
  { split; [discriminate|]. intros (_ & H & _). lia. }
  assert (Hw : forall off len sync,
             sent_ok (write_send_request ictx req off len sync) = false
             <-> ~ lock_usable ictx).
  { intros off len sync. rewrite write_send_request_ok. unfold lock_usable.
    destruct (image_watcher ictx) as [w|].
    - destruct (is_lock_supported w) eqn:Hs, (is_lock_owner w) eqn:Ho;
        simpl; split; try discriminate; try reflexivity.
      + intros H. exfalso. apply H. exists w. auto.
      + intros _ (w' & Hw' & [H|H]); injection Hw' as <-; congruence.
      + intros H. exfalso. apply H. exists w. auto.
      + intros H. exfalso. apply H. exists w. auto.
    - split; [|reflexivity]. intros _ (w & Hw' & _). discriminate. }
  destruct req; simpl.
  - unfold read_send_request.
    destruct (read_map ictx extents [] 0) as [r|[oe bo]]; simpl;
      (split; [discriminate|intros (H & _); discriminate]).
  - rewrite Hw. tauto.
  - rewrite Hw. tauto.
  - unfold flush_send_request. destruct (journal ictx); simpl;
      (split; [discriminate|intros (H & _); discriminate]).
Qed.


(** ** Order of dispatch *)

(** X4: while writes are suspended, a write at the head of the queue holds
    back everything behind it: however often the workers ask, nothing is
    dequeued, reads queued behind the write included. *)
Theorem suspended_write_blocks_queue (s : AioImageRequestWQ)
    (peek_item : AioImageRequest) (rest : list AioImageRequest) (k : nat) :
  m_writes_suspended s = true ->
  m_items s = peek_item :: rest ->
  is_write_op peek_item = true ->
  exec_all (repeat Ev_dequeue k) s = Ok s.
Proof.
  intros Hsus Hi Hw. induction k as [|k IH]; simpl; [reflexivity|].
  unfold _void_dequeue. rewrite Hi, Hw, Hsus. exact IH.
Qed.

(** Dequeuing with writes not suspended. *)
Lemma dequeue_running (s : AioImageRequestWQ) (peek_item : AioImageRequest)
    (rest : list AioImageRequest) :
  m_writes_suspended s = false ->
  m_items s = peek_item :: rest ->
  exec Ev_dequeue s =
  Ok (set_processing (m_processing s ++ [peek_item])
        (set_items rest
           (set_in_progress_writes
              (m_in_progress_writes s
               + (if is_write_op peek_item then 1 else 0)) s))).
Proof.
  intros Hsus Hi. simpl. unfold _void_dequeue. rewrite Hi, Hsus.
  destruct (is_write_op peek_item); simpl.
  - reflexivity.
  - rewrite Z.add_0_r. destruct s; reflexivity.
Qed.

(** X5: with writes not suspended the workers receive the queued requests
    in the order of their submission: as many dequeues as there are items
    empty the queue, the requests are held in queue order, and
    [m_in_progress_writes] has grown by the number of writes among them. *)
Theorem dequeue_in_submission_order (s : AioImageRequestWQ) :
  m_writes_suspended s = false ->
  exists s',
    exec_all (repeat Ev_dequeue (List.length (m_items s))) s = Ok s'
    /\ m_items s' = []
    /\ m_processing s' = m_processing s ++ m_items s
    /\ m_in_progress_writes s'
       = m_in_progress_writes s + count_writes (m_items s)
    /\ m_queued_writes s' = m_queued_writes s
    /\ trace s' = trace s.
Proof.
  remember (m_items s) as items eqn:Hitems.
  revert s Hitems. induction items as [|req items IH]; intros s Hitems Hsus.
  - exists s. simpl. rewrite app_nil_r, Z.add_0_r. repeat split; auto.
  - symmetry in Hitems.
    pose proof (dequeue_running s req items Hsus Hitems) as Hd.
    set (s1 := set_processing _ _) in Hd.
    destruct (IH s1 eq_refl Hsus) as (s' & E & H1 & H2 & H3 & H4 & H5).
    exists s'. simpl repeat. simpl exec_all.
    simpl in Hd. rewrite Hd.
    split; [exact E|]. split; [exact H1|].
    split; [rewrite H2; simpl; rewrite <- app_assoc; reflexivity|].
    split; [rewrite H3; simpl; destruct (is_write_op req); lia|].
    split; assumption.
Qed.

(** ** Submissions on an image with a watcher *)

Lemma queue_ok (req : AioImageRequest) (lock_required : bool)
    (s : AioImageRequestWQ) (w : ImageWatcher) :
  image_watcher (m_image_ctx s) = Some w ->
  is_ok (queue req lock_required s) = true.
Proof.
  intros Hw. unfold queue.
  destruct (is_write_op req && _); [|reflexivity].
  unfold flag_aio_ops_pending, request_lock, watcher_call. simpl.
  rewrite Hw. destruct lock_required; reflexivity.
Qed.

Lemma run_ok (t : Thread) (req : AioImageRequest) (s : AioImageRequestWQ) :
  is_ok (run t req s) = sent_ok (send (m_image_ctx s) req).
Proof.
  unfold run. destruct (sent_ok _); reflexivity.
Qed.

(** X6: on an image with a watcher no submission stops the process: the
    queue never runs a write or discard inline unless the lock is owned or
    not supported, so the assertion [send_request] opens with holds. *)
Theorem submission_never_aborts (ev : Event) (req : AioImageRequest)
    (s : AioImageRequestWQ) (w : ImageWatcher) :
  submission_request ev = Some req ->
  image_watcher (m_image_ctx s) = Some w ->
  is_ok (exec ev s) = true.
Proof.
  intros Hreq Hw.
  assert (Hinline : is_lock_required s = false ->
                    forall r, sent_ok (send (m_image_ctx s) r) = true).
  { intros Hl r. destruct (sent_ok (send (m_image_ctx s) r)) eqn:E;
      [reflexivity|].
    unfold send in E. destruct (_ <? 0); [discriminate|]. simpl in E.
    destruct r; simpl in E.
    - unfold read_send_request in E.
      destruct (read_map _ _ _ _) as [?|[? ?]]; discriminate.
    - rewrite write_send_request_ok, Hw in E.
      unfold is_lock_required in Hl. rewrite Hw in Hl.
      destruct (is_lock_supported w), (is_lock_owner w); discriminate.
    - rewrite write_send_request_ok, Hw in E.
      unfold is_lock_required in Hl. rewrite Hw in Hl.
      destruct (is_lock_supported w), (is_lock_owner w); discriminate.
    - unfold flush_send_request in E.
      destruct (journal _); discriminate. }
  assert (Hany : forall r,
             is_abstract_write r = false ->
             sent_ok (send (m_image_ctx s) r) = true).
  { intros r Hr. destruct (sent_ok (send (m_image_ctx s) r)) eqn:E;
      [reflexivity|].
    unfold send in E. destruct (_ <? 0); [discriminate|]. simpl in E.
    destruct r; simpl in E; try discriminate.
    - unfold read_send_request in E.
      destruct (read_map _ _ _ _) as [?|[? ?]]; discriminate.
    - unfold flush_send_request in E.
      destruct (journal _); discriminate. }
  destruct ev; simpl in Hreq; try discriminate; injection Hreq as <-;
    simpl exec.
  - unfold aio_read. destruct (non_blocking_aio _).
    + eapply queue_ok; eauto.
    + rewrite run_ok. apply Hany. reflexivity.
  - unfold aio_write.
    destruct (non_blocking_aio _); simpl; [eapply queue_ok; eauto|].
    destruct (is_lock_required s) eqn:Hl; [eapply queue_ok; eauto|].
    rewrite run_ok. apply Hinline. reflexivity.
  - unfold aio_discard.
    destruct (non_blocking_aio _); simpl; [eapply queue_ok; eauto|].
    destruct (is_lock_required s) eqn:Hl; [eapply queue_ok; eauto|].
    rewrite run_ok. apply Hinline. reflexivity.
  - unfold aio_flush. destruct (_ || _).
    + eapply queue_ok; eauto.
    + rewrite run_ok. apply Hany. reflexivity.
Qed.

(** ** One request, one completion *)

Ltac about_tac :=
  rewrite ?forallb_app; simpl; rewrite ?Nat.eqb_refl; simpl;
  repeat match goal with
         | H : forallb _ _ = true |- _ => rewrite H; simpl
         end;
  try reflexivity.

Lemma send_object_requests_about (ictx : ImageCtx) (req : AioImageRequest)
    (snapc : SnapContext) (stash : bool) (exts : ObjectExtents) :
  forall requests,
    forallb (about (m_aio_comp req))
      (snd (send_object_requests ictx req exts snapc stash requests))
    = true.
Proof.
  induction exts as [|p rest IH]; intros requests; simpl; [reflexivity|].
  assert (Hp : forallb (about (m_aio_comp req))
                 (snd (send_object_request ictx req p snapc)) = true).
  { unfold send_object_request. destruct req; simpl;
      repeat match goal with
             | |- context [if ?b then _ else _] => destruct b; simpl
             end;
      rewrite ?Nat.eqb_refl; reflexivity. }
  destruct (send_object_request ictx req p snapc) as [[r|] es];
    simpl in Hp.
  - destruct stash.
    + specialize (IH (requests ++ [r])).
      destruct (send_object_requests ictx req rest snapc true
                  (requests ++ [r])) as [rs es'].
      simpl in *. about_tac.
    + specialize (IH requests).
      destruct (send_object_requests ictx req rest snapc false requests)
        as [rs es'].
      simpl in *. about_tac.
  - specialize (IH requests).
    destruct (send_object_requests ictx req rest snapc stash requests)
      as [rs es'].
    simpl in *. about_tac.
Qed.

Lemma write_send_request_about (ictx : ImageCtx) (req : AioImageRequest)
    (off len : Z) (sync : bool) :
  forallb (about (m_aio_comp req))
    (sent_effects (write_send_request ictx req off len sync)) = true.
Proof.
  unfold write_send_request.
  destruct (image_watcher ictx) as [w|]; [|reflexivity].
  destruct (negb (negb (is_lock_supported w) || is_lock_owner w));
    [reflexivity|].
  destruct (negb (snap_id ictx =? CEPH_NOSNAP) || read_only ictx);
    [simpl; rewrite Nat.eqb_refl; reflexivity|].
  simpl.
  match goal with
  | |- context [send_object_requests ?a ?b ?c ?d ?e ?f] =>
      pose proof (send_object_requests_about a b d e c f) as Hq;
      destruct (send_object_requests a b c d e f) as [requests es_obj]
  end.
  simpl in Hq.
  assert (Hc : forall exts tid,
             forallb (about (m_aio_comp req))
               (if object_cacher ictx
                then send_cache_requests req exts tid else []) = true).
  { intros. destruct (object_cacher ictx); [|reflexivity].
    destruct req; simpl; try reflexivity.
    apply forallb_flat_map. intros a. simpl. rewrite Nat.eqb_refl.
    reflexivity. }
  assert (Hu : forall n,
             forallb (about (m_aio_comp req)) (update_stats req n) = true)
    by (intros; destruct req; reflexivity).
  destruct (journal ictx) as [tid|]; simpl.
  - assert (Hj : forallb (about (m_aio_comp req))
                   (snd (append_journal_event tid req requests sync))
                 = true)
      by (destruct req; simpl; rewrite ?Nat.eqb_refl; reflexivity).
    destruct (append_journal_event tid req requests sync) as [tid' es].
    simpl in *. rewrite Nat.eqb_refl. simpl.
    rewrite !forallb_app, Hq, Hj, Hc, Hu. simpl. rewrite Nat.eqb_refl.
    reflexivity.
  - rewrite Nat.eqb_refl. simpl.
    rewrite !forallb_app, Hq, Hc, Hu. simpl. rewrite Nat.eqb_refl.
    reflexivity.
Qed.

(** X7: whatever [send()] does for a request, it does to the request's own
    completion: no effect names another completion, and none is one of the
    calls the work queue makes on the image watcher
    ([flag_aio_ops_pending], [clear_aio_ops_pending], [request_lock]).
    The send path does query the watcher: the assertion [send_request]
    opens with reads [is_lock_supported] and [is_lock_owner]; it changes
    nothing of it. *)
Theorem send_touches_own_completion (ictx : ImageCtx)
    (req : AioImageRequest) :
  forallb (about (m_aio_comp req)) (sent_effects (send ictx req)) = true.
Proof.
  unfold send. destruct (ictx_check_result ictx <? 0); simpl;
    rewrite ?Nat.eqb_refl; simpl; [reflexivity|].
  destruct req; simpl;
    [|exact (write_send_request_about ictx
               (AioImageWrite c off len buf op_flags synchronous) off len
               synchronous)
     |exact (write_send_request_about ictx
               (AioImageDiscard c off len synchronous) off len synchronous)
     |].
  - unfold read_send_request.
    destruct (read_map ictx extents [] 0) as [r|[oe bo]]; simpl.
    + rewrite forallb_app. simpl. rewrite ?Nat.eqb_refl.
      match goal with
      | |- context [if ?b then [Readahead _] else []] => destruct b
      end; reflexivity.
    + rewrite !forallb_app.
      assert (H : forall l : ObjectExtents,
                 forallb (about c)
                   (flat_map
                      (fun q =>
                         if object_cacher ictx
                         then [New_C_AioRequest c;
                               Cache_read c
                                 (AioObjectRead (objectno q) (offset q)
                                    (length q) (buffer_extents q)
                                    (snap_id ictx) op_flags)]
                         else [New_C_AioRequest c;
                               Object_send c
                                 (AioObjectRead (objectno q) (offset q)
                                    (length q) (buffer_extents q)
                                    (snap_id ictx) op_flags)]) l) = true).
      { intros l. apply forallb_flat_map. intros q.
        destruct (object_cacher ictx); simpl; rewrite ?Nat.eqb_refl;
          reflexivity. }
      simpl. rewrite forallb_app, H. simpl. rewrite ?Nat.eqb_refl.
      match goal with
      | |- context [if ?b then [Readahead _] else []] => destruct b
      end; reflexivity.
  - unfold flush_send_request.
    destruct (journal ictx) as [tid|]; simpl;
      destruct (object_cacher ictx); simpl; rewrite ?Nat.eqb_refl;
      reflexivity.
Qed.

(** ** Opening and closing the completion *)

Lemma send_object_requests_body (ictx : ImageCtx) (req : AioImageRequest)
    (snapc : SnapContext) (stash : bool) (exts : ObjectExtents) :
  forall requests,
    forallb is_body
      (snd (send_object_requests ictx req exts snapc stash requests))
    = true.
Proof.
  induction exts as [|p rest IH]; intros requests; simpl; [reflexivity|].
  assert (Hp : forallb is_body
                 (snd (send_object_request ictx req p snapc)) = true).
  { unfold send_object_request. destruct req; simpl;
      repeat match goal with
             | |- context [if ?b then _ else _] => destruct b; simpl
             end;
      reflexivity. }
  destruct (send_object_request ictx req p snapc) as [[r|] es];
    simpl in Hp.
  - destruct stash.
    + specialize (IH (requests ++ [r])).
      destruct (send_object_requests ictx req rest snapc true
                  (requests ++ [r])) as [rs es'].
      simpl in *. rewrite forallb_app, Hp, IH. reflexivity.
    + specialize (IH requests).
      destruct (send_object_requests ictx req rest snapc false requests)
        as [rs es'].
      simpl in *. rewrite forallb_app, Hp. simpl. exact IH.
  - specialize (IH requests).
    destruct (send_object_requests ictx req rest snapc stash requests)
      as [rs es'].
    simpl in *. rewrite forallb_app, Hp, IH. reflexivity.
Qed.

(** The three ways [AbstractAioImageWrite::send_request] can go. *)
Lemma write_send_request_shape (ictx : ImageCtx) (req : AioImageRequest)
    (off len : Z) (sync : bool) :
  let c := m_aio_comp req in
  let out := write_send_request ictx req off len sync in
  sent_ok out = false
  \/ (exists r, sent_effects out = [Comp_fail c r])
  \/ (exists mid,
        sent_effects out =
        mid ++ [Comp_finish_adding_requests c; Comp_put c]
        /\ forallb is_body mid = true).
Proof.
  intros c out. subst c out. unfold write_send_request.
  destruct (image_watcher ictx) as [w|]; [|left; reflexivity].
  destruct (negb (negb (is_lock_supported w) || is_lock_owner w));
    [left; reflexivity|].
  right.
  destruct (negb (snap_id ictx =? CEPH_NOSNAP) || read_only ictx);
    [left; eexists; reflexivity|].
  simpl. right.
  match goal with
  | |- context [send_object_requests ?a ?b ?c ?d ?e ?f] =>
      pose proof (send_object_requests_body a b d e c f) as Hq;
      destruct (send_object_requests a b c d e f) as [requests es_obj]
  end.
  simpl in Hq.
  assert (Hc : forall exts tid,
             forallb is_body
               (if object_cacher ictx
                then send_cache_requests req exts tid else []) = true).
  { intros. destruct (object_cacher ictx); [|reflexivity].
    destruct req; simpl; try reflexivity.
    apply forallb_flat_map. intros a. reflexivity. }
  assert (Hu : forall n, forallb is_body (update_stats req n) = true)
    by (intros; destruct req; reflexivity).
  destruct (journal ictx) as [tid|]; simpl.
  - assert (Hj : forallb is_body
                   (snd (append_journal_event tid req requests sync))
                 = true)
      by (destruct req; reflexivity).
    destruct (append_journal_event tid req requests sync) as [tid' es].
    simpl in *.
    match goal with
    | |- exists mid, ?h :: ?a ++ ?b ++ ?x ++ ?y ++ ?tl = mid ++ ?tl /\ _ =>
        exists (h :: a ++ b ++ x ++ y)
    end.
    split.
    + simpl. rewrite <- !app_assoc. reflexivity.
    + simpl. rewrite !forallb_app, Hq, Hj, Hc, Hu. reflexivity.
  - match goal with
    | |- exists mid, ?h :: ?a ++ ?x ++ ?y ++ ?tl = mid ++ ?tl /\ _ =>
        exists (h :: a ++ x ++ y)
    end.
    split.
    + simpl. rewrite <- !app_assoc. reflexivity.
    + simpl. rewrite !forallb_app, Hq, Hc, Hu. reflexivity.
Qed.

(** X8: a [send()] that runs to its end either fails the completion, once
    and as its last act, having started no child operation, or it marks
    the completion as complete ([finish_adding_requests], then [put]) once,
    after every child has been constructed; only statistics follow.  It
    never does both, and it takes its reference ([get]) first. *)
Theorem send_fails_or_finishes (ictx : ImageCtx) (req : AioImageRequest) :
  sent_ok (send ictx req) = true ->
  let c := m_aio_comp req in
  let es := sent_effects (send ictx req) in
  (exists pre r,
     es = Comp_get c :: pre ++ [Comp_fail c r]
     /\ forallb is_body pre = true
     /\ forallb childless pre = true)
  \/ (exists pre post,
        es = Comp_get c :: pre
               ++ Comp_finish_adding_requests c :: Comp_put c :: post
        /\ forallb is_body pre = true
        /\ forallb is_perf post = true).
Proof.
  intros Hok c es. subst c es. revert Hok. unfold send.
  destruct (ictx_check_result ictx <? 0).
  { intros _. left. exists [], (ictx_check_result ictx). simpl. auto. }
  simpl. intros Hok.
  assert (Hw : forall r off len sync,
             sent_ok (write_send_request ictx r off len sync) = true ->
             let c := m_aio_comp r in
             let es := sent_effects (write_send_request ictx r off len sync)
             in
             (exists pre r',
                Comp_get c :: es = Comp_get c :: pre ++ [Comp_fail c r']
                /\ forallb is_body pre = true
                /\ forallb childless pre = true)
             \/ (exists pre post,
                   Comp_get c :: es =
                   Comp_get c :: pre
                     ++ Comp_finish_adding_requests c :: Comp_put c :: post
                   /\ forallb is_body pre = true
                   /\ forallb is_perf post = true)).
  { intros r off len sync Hok' c es.
    destruct (write_send_request_shape ictx r off len sync)
      as [H|[[r' H]|(mid & H & Hmid)]].
    - rewrite H in Hok'. discriminate.
    - left. exists [], r'. subst es. rewrite H. auto.
    - right. exists mid, []. subst es. rewrite H. auto. }
  destruct req; simpl in *.
  - unfold read_send_request.
    destruct (read_map ictx extents [] 0) as [r|[oe bo]]; simpl.
    + left.
      match goal with
      | |- context [if ?b then [Readahead ?x] else []] =>
          exists (if b then [Readahead x] else []), r; destruct b; auto
      end.
    + right.
      match goal with
      | |- exists pre post,
             Comp_get c :: ?ra ++ ?i :: ?kids ++ ?f :: ?p :: ?perf = _ /\ _ =>
          exists (ra ++ i :: kids), perf
      end.
      split; [|split; [|reflexivity]].
      * rewrite <- !app_assoc. reflexivity.
      * rewrite forallb_app. simpl. rewrite forallb_flat_map.
        -- match goal with
           | |- context [if ?b then [Readahead _] else []] => destruct b
           end; reflexivity.
        -- intros q. destruct (object_cacher ictx); reflexivity.
  - exact (Hw _ _ _ _ Hok).
  - exact (Hw _ _ _ _ Hok).
  - right. unfold flush_send_request.
    destruct (journal ictx) as [tid|]; simpl.
    + eexists [Journal_append_event c AioFlushEvent [] true;
               New_C_AioRequest c; Flush_async_operations c;
               Comp_init_time c AIO_TYPE_FLUSH; New_C_AioRequest c;
               if object_cacher ictx then Cache_flush c
               else Aio_flush_async c],
        [Perf_inc l_librbd_aio_flush 1].
      destruct (object_cacher ictx); auto.
    + eexists [New_C_AioRequest c; Flush_async_operations c;
               Comp_init_time c AIO_TYPE_FLUSH; New_C_AioRequest c;
               if object_cacher ictx then Cache_flush c
               else Aio_flush_async c],
        [Perf_inc l_librbd_aio_flush 1].
      destruct (object_cacher ictx); auto.
Qed.

(** ** Reads *)

Lemma total_length_app (l l' : ObjectExtents) :
  total_length (l ++ l') = total_length l + total_length l'.
Proof.
  induction l as [|p l IH]; simpl; [reflexivity|]. rewrite IH. lia.
Qed.

Lemma total_length_map_add_block (m : object_map)
    (objno x_offset x_len boff : Z) :
  total_length (walk (map_add_block m objno x_offset x_len boff))
  = total_length (walk m) + x_len.
Proof.
  unfold walk. induction m as [|[k exv] rest IH];
    cbn [map_add_block flat_map snd].
  - cbn [add_block]. rewrite app_nil_r. cbn. lia.
  - destruct (objno <? k).
    + cbn [flat_map snd add_block]. rewrite total_length_app. cbn. lia.
    + destruct (objno =? k); cbn [flat_map snd];
        rewrite !total_length_app.
      * rewrite total_length_add_block. lia.
      * rewrite IH. lia.
Qed.

Lemma total_length_map_loop (l : file_layout) (base boff : Z) (fuel : nat) :
  0 < fl_stripe_unit l ->
  forall cur left acc,
    0 <= left <= Z.of_nat fuel ->
    total_length (walk (file_to_extents_map_loop fuel l base boff cur left
                          acc))
    = total_length (walk acc) + left.
Proof.
  intros Hsu. induction fuel as [|fuel IH]; intros cur left acc Hleft.
  - simpl. lia.
  - simpl file_to_extents_map_loop.
    destruct (Z.leb_spec left 0) as [H0|Hpos]; [lia|].
    pose proof (Z.mod_pos_bound cur (fl_stripe_unit l) Hsu) as Hmod.
    rewrite IH by lia. rewrite total_length_map_add_block. lia.
Qed.

Lemma read_map_clipped (ictx : ImageCtx) (image_extents : list (Z * Z)) :
  0 < fl_stripe_unit (layout ictx) ->
  Forall (fun p => 0 <= snd p) image_extents ->
  forall object_extents buffer_ofs,
    0 <= buffer_ofs ->
    buffer_ofs + clipped_bytes ictx image_extents < 2 ^ 64 ->
    exists m,
      read_map_loop ictx image_extents object_extents buffer_ofs
      = inr (m, buffer_ofs + clipped_bytes ictx image_extents)
      /\ total_length (walk m)
         = total_length (walk object_extents)
           + clipped_bytes ictx image_extents.
Proof.
  intros Hsu Hall. induction Hall as [|p rest Hp Hrest IH];
    intros oe bo Hbo Hsum.
  - exists oe. simpl. rewrite !Z.add_0_r. auto.
  - simpl in Hsum |- *.
    set (len := Z.min (snd p) (Z.max 0 (image_size ictx - fst p))) in *.
    assert (Hlen : 0 <= len) by (subst len; lia).
    assert (Hrest_nonneg : 0 <= clipped_bytes ictx rest).
    { clear - Hrest. induction Hrest as [|q l Hq Hl IHl]; simpl; [lia|].
      lia. }
    destruct (Z.eqb_spec len 0) as [E0|E0].
    + destruct (IH oe bo Hbo) as (m & E & T); [lia|].
      exists m. rewrite E, E0. split; [f_equal; f_equal; lia|lia].
    + assert (Hu : uint64 (bo + len) = bo + len)
        by (unfold uint64; apply Z.mod_small; lia).
      rewrite Hu.
      destruct (IH (file_to_extents_map (layout ictx) (fst p) len oe bo)
                  (bo + len)) as (m & E & T); [lia|lia|].
      exists m. rewrite E. split; [f_equal; f_equal; lia|].
      rewrite T. unfold file_to_extents_map.
      rewrite total_length_map_loop by lia. lia.
Qed.

(** X9: a read whose ranges start inside the volume (or are empty) maps
    exactly the bytes of those ranges that lie inside the volume: the
    buffer length it records is the sum of the clipped lengths, empty
    ranges are skipped, and the object extents it reads cover that many
    bytes. *)
Theorem read_maps_clipped_bytes (ictx : ImageCtx)
    (image_extents : list (Z * Z)) :
  0 < fl_stripe_unit (layout ictx) ->
  Forall (fun p => 0 <= snd p) image_extents ->
  Forall (fun p => 0 <= fst p < image_size ictx \/ snd p = 0)
    image_extents ->
  clipped_bytes ictx image_extents < 2 ^ 64 ->
  exists object_extents,
    read_map ictx image_extents [] 0
    = inr (object_extents, clipped_bytes ictx image_extents)
    /\ total_length object_extents = clipped_bytes ictx image_extents.
Proof.
  intros Hsu Hall _ Hsum.
  destruct (read_map_clipped ictx image_extents Hsu Hall [] 0)
    as (m & E & T); [lia|lia|].
  exists (walk m). unfold read_map. rewrite E. auto.
Qed.








(** ** Writes and discards on an image with a cache *)

Lemma cached_write_constructs_nothing (ictx : ImageCtx) (c : AioCompletion)
    (off len : Z) (buf : bufferlist) (op_flags : Z) (sync : bool)
    (snapc : SnapContext) (exts : ObjectExtents) :
  object_cacher ictx = true ->
  let req := AioImageWrite c off len buf op_flags sync in
  constructed ictx req exts snapc = []
  /\ flat_map (stash_effects ictx req snapc) exts
     = map (fun _ => New_C_AioRequest c) exts
  /\ flat_map (submit_effects ictx req snapc) exts
     = map (fun _ => New_C_AioRequest c) exts.
Proof.
  intros Hc req. subst req.
  assert (Hp : forall p,
             send_object_request ictx
               (AioImageWrite c off len buf op_flags sync) p snapc
             = (None, []))
    by (intros p; unfold send_object_request; rewrite Hc; reflexivity).
  unfold constructed, stash_effects, submit_effects.
  induction exts as [|p l (IH1 & IH2 & IH3)]; [auto|].
  cbn [flat_map map]. rewrite IH1, IH2, IH3, Hp. auto.
Qed.

Lemma filter_map_const {A : Type} (P : Effect -> bool) (e : Effect)
    (l : list A) :
  filter P (map (fun _ => e) l) = if P e then map (fun _ => e) l else [].
Proof.
  induction l as [|a l IH]; simpl.
  - destruct (P e); reflexivity.
  - rewrite IH. destruct (P e); reflexivity.
Qed.

Lemma filter_flat_map_pair {A : Type} (P : Effect -> bool)
    (f g : A -> Effect) (l : list A) :
  (forall a, P (f a) = true) -> (forall a, P (g a) = false) ->
  filter P (flat_map (fun a => [f a; g a]) l) = map f l.
Proof.
  intros Hf Hg. induction l as [|a l IH]; simpl; [reflexivity|].
  rewrite Hf, Hg, IH. reflexivity.
Qed.

Lemma filter_flat_map_pair' {A : Type} (P : Effect -> bool)
    (f g : A -> Effect) (l : list A) :
  (forall a, P (f a) = false) -> (forall a, P (g a) = true) ->
  filter P (flat_map (fun a => [f a; g a]) l) = map g l.
Proof.
  intros Hf Hg. induction l as [|a l IH]; simpl; [reflexivity|].
  rewrite Hf, Hg, IH. reflexivity.
Qed.

Lemma filter_flat_map_none {A : Type} (P : Effect -> bool)
    (f : A -> list Effect) (l : list A) :
  (forall a, forallb (fun e => negb (P e)) (f a) = true) ->
  filter P (flat_map f l) = [].
Proof.
  intros H. induction l as [|a l IH]; simpl; [reflexivity|].
  rewrite filter_app, IH, app_nil_r.
  specialize (H a). induction (f a) as [|e es IHe]; simpl in *;
    [reflexivity|].
  apply andb_true_iff in H. destruct H as [He Hes].
  destruct (P e); [discriminate|]. auto.
Qed.

(** X11: on an image with a cache a write constructs no object request:
    nothing is sent to the object store, a journal event is appended with
    an empty list of requests, and the data goes to the cache in one cache
    write per object extent.  The completion context that
    [send_object_requests] creates per extent is neither handed on nor
    deleted: two contexts are created per extent, one is used. *)
Theorem cached_write_goes_to_cache (ictx : ImageCtx) (c : AioCompletion)
    (off len : Z) (buf : bufferlist) (op_flags : Z) (sync : bool) :
  let req := AioImageWrite c off len buf op_flags sync in
  let es := sent_effects (send_request ictx req) in
  let exts := mapped_extents ictx off len in
  object_cacher ictx = true ->
  lock_usable ictx ->
  snap_id ictx = CEPH_NOSNAP ->
  read_only ictx = false ->
  object_store_ops es = []
  /\ journal_appends es
     = match journal ictx with
       | Some _ => [(journal_event_of req, [], sync)]
       | None => []
       end
  /\ filter is_cache_effect es = map (cache_write_of c buf op_flags) exts
  /\ List.length (filter is_new_context es) = (2 * List.length exts)%nat
  /\ filter is_delete_context es = [].
Proof.
  intros req es exts Hc Hlock Hhead Hrw.
  pose proof (send_request_observed ictx req eq_refl Hlock Hhead Hrw) as Ho.
  destruct (cached_write_constructs_nothing ictx c off len buf op_flags sync
              (snapc_of ictx) exts Hc) as (K1 & K2 & K3).
  fold req in K1, K2, K3. simpl m_off in Ho. simpl m_len in Ho.
  fold exts in Ho. rewrite K1 in Ho. simpl m_synchronous in Ho.
  assert (Hops : object_store_ops es = []).
  { subst es. destruct (journal ictx); destruct Ho as [H1 H2];
      apply object_store_ops_nil; try assumption; rewrite H2;
      repeat constructor. }
  assert (Hj : journal_appends es
               = match journal ictx with
                 | Some _ => [(journal_event_of req, [], sync)]
                 | None => []
                 end).
  { subst es. destruct (journal ictx); destruct Ho as [_ H2]; exact H2. }
  split; [exact Hops|]. split; [exact Hj|].
  subst es. simpl send_request.
  destruct (write_send_request_effects ictx req off len sync Hlock Hhead Hrw)
    as [_ E].
  rewrite E. clear E. fold exts. rewrite Hc, K1, K2, K3.
  assert (Hcw : forall tid,
             send_cache_requests req exts tid
             = flat_map (fun p => [New_C_AioRequest c;
                                   cache_write_of c buf op_flags p]) exts)
    by reflexivity.
  rewrite Hcw.
  assert (F1 : filter is_cache_effect
                 (flat_map (fun p => [New_C_AioRequest c;
                                      cache_write_of c buf op_flags p]) exts)
               = map (cache_write_of c buf op_flags) exts)
    by (apply filter_flat_map_pair'; reflexivity).
  assert (F2 : filter is_new_context
                 (flat_map (fun p => [New_C_AioRequest c;
                                      cache_write_of c buf op_flags p]) exts)
               = map (fun _ => New_C_AioRequest c) exts)
    by (apply filter_flat_map_pair; reflexivity).
  assert (F3 : filter is_delete_context
                 (flat_map (fun p => [New_C_AioRequest c;
                                      cache_write_of c buf op_flags p]) exts)
               = [])
    by (apply filter_flat_map_none; reflexivity).
  change (Comp_init_time ?a ?t :: ?l) with ([Comp_init_time a t] ++ l).
  destruct (journal ictx) as [tid|]; cbv beta iota;
    rewrite !filter_app, F1, F2, F3, !filter_map_const; simpl;
    rewrite ?app_nil_r, ?length_app, ?length_map; simpl;
    (split; [reflexivity|split; [lia|reflexivity]]).
Qed.

Lemma object_store_ops_split (es : list Effect) :
  (journal_appends es = [] -> object_store_ops es = sent_objects es)
  /\ (sent_objects es = [] ->
      object_store_ops es
      = flat_map (fun a => snd (fst a)) (journal_appends es)).
Proof.
  induction es as [|e es [IH1 IH2]]; [split; reflexivity|].
  unfold object_store_ops, sent_objects, journal_appends in *.
  destruct e; simpl; split; intros H; auto; try discriminate.
  - rewrite IH1; [reflexivity|exact H].
  - rewrite IH2; [reflexivity|exact H].
Qed.

Lemma discard_constructs_each (ictx : ImageCtx) (c : AioCompletion)
    (off len : Z) (sync : bool) (snapc : SnapContext)
    (exts : ObjectExtents) :
  rbd_skip_partial_discard ictx = false ->
  List.length (constructed ictx (AioImageDiscard c off len sync) exts snapc)
  = List.length exts.
Proof.
  intros Hskip. unfold constructed.
  induction exts as [|p l IH]; [reflexivity|].
  cbn [flat_map]. rewrite length_app, IH.
  unfold send_object_request. rewrite Hskip.
  destruct (_ =? _); [reflexivity|]. destruct (_ =? _); reflexivity.
Qed.

(** X12: a discard on an image with a cache, unlike a write, still builds
    its object requests: the cache is told once to discard all the
    extents, and every extent yields an object request that goes to the
    object store, directly or through the journal. *)
Theorem cached_discard_still_sends (ictx : ImageCtx) (c : AioCompletion)
    (off len : Z) (sync : bool) :
  let req := AioImageDiscard c off len sync in
  let es := sent_effects (send_request ictx req) in
  let exts := mapped_extents ictx off len in
  object_cacher ictx = true ->
  rbd_skip_partial_discard ictx = false ->
  lock_usable ictx ->
  snap_id ictx = CEPH_NOSNAP ->
  read_only ictx = false ->
  filter is_cache_effect es = [Cache_discard exts]
  /\ object_store_ops es = constructed ictx req exts (snapc_of ictx)
  /\ List.length (object_store_ops es) = List.length exts.
Proof.
  intros req es exts Hc Hskip Hlock Hhead Hrw.
  pose proof (send_request_observed ictx req eq_refl Hlock Hhead Hrw) as Ho.
  simpl m_off in Ho. simpl m_len in Ho. fold exts in Ho.
  assert (Hops : object_store_ops es
                 = constructed ictx req exts (snapc_of ictx)).
  { subst es. destruct (object_store_ops_split
                          (sent_effects (send_request ictx req)))
      as [S1 S2].
    destruct (journal ictx); destruct Ho as [H1 H2].
    - rewrite (S2 H1), H2. simpl. apply app_nil_r.
    - rewrite (S1 H2). exact H1. }
  split; [|split; [exact Hops|]].
  - subst es. simpl send_request.
    destruct (write_send_request_effects ictx req off len sync Hlock Hhead
                Hrw) as [_ E].
    rewrite E. clear E. fold exts. rewrite Hc.
    change (Comp_init_time ?a ?t :: ?l) with ([Comp_init_time a t] ++ l).
    assert (F1 : filter is_cache_effect
                   (flat_map (stash_effects ictx req (snapc_of ictx)) exts)
                 = []).
    { apply filter_flat_map_none. intros p. unfold stash_effects.
      unfold send_object_request. simpl.
      repeat match goal with
             | |- context [if ?b then _ else _] => destruct b; simpl
             end; reflexivity. }
    assert (F2 : filter is_cache_effect
                   (flat_map (submit_effects ictx req (snapc_of ictx)) exts)
                 = []).
    { apply filter_flat_map_none. intros p. unfold submit_effects.
      unfold send_object_request. simpl.
      repeat match goal with
             | |- context [if ?b then _ else _] => destruct b; simpl
             end; reflexivity. }
    destruct (journal ictx) as [tid|]; cbv beta iota;
      rewrite !filter_app, ?F1, ?F2; reflexivity.
  - rewrite Hops. apply discard_constructs_each. exact Hskip.
Qed.

(** ** Empty requests *)

(** X13: a write or discard of length zero maps to no object extent: it
    creates no completion context and no object or cache write, yet it is
    still appended to the journal (with no requests), counted in the
    statistics with zero bytes, and its completion is closed. *)
Theorem zero_length_write (ictx : ImageCtx) (req : AioImageRequest) :
  is_abstract_write req = true ->
  m_len req = 0 ->
  lock_usable ictx ->
  snap_id ictx = CEPH_NOSNAP ->
  read_only ictx = false ->
  let c := m_aio_comp req in
  sent_effects (send_request ictx req) =
  Comp_init_time c (get_aio_type req)
    :: match journal ictx with
       | Some _ =>
           [Journal_append_event c (journal_event_of req) []
              (m_synchronous req)]
       | None => []
       end
    ++ (if object_cacher ictx
        then match req with
             | AioImageDiscard _ _ _ _ => [Cache_discard []]
             | _ => []
             end
        else [])
    ++ update_stats req 0
    ++ [Comp_finish_adding_requests c; Comp_put c].
Proof.
  intros Hreq Hlen Hlock Hhead Hrw c. subst c.
  rewrite (send_request_abstract_write _ _ Hreq).
  destruct (write_send_request_effects ictx req (m_off req) (m_len req)
              (m_synchronous req) Hlock Hhead Hrw) as [_ E].
  rewrite E. clear E.
  assert (Hext : mapped_extents ictx (m_off req) (m_len req) = []).
  { unfold mapped_extents, clip_io. rewrite Hlen. simpl snd.
    replace (Z.min 0 (Z.max 0 (image_size ictx - m_off req))) with 0 by lia.
    reflexivity. }
  assert (Hclip : snd (clip_io ictx (m_off req) (m_len req)) = 0)
    by (unfold clip_io; rewrite Hlen; simpl; lia).
  rewrite Hext, Hclip. unfold constructed. simpl flat_map.
  destruct (journal ictx) as [tid|]; cbv beta iota.
  - rewrite (append_journal_event_spec _ _ _ _ Hreq).
    destruct req; try discriminate; reflexivity.
  - destruct req; try discriminate; reflexivity.
Qed.

(** ** Gathering the payload of an object write *)

Lemma firstn_plus {A : Type} (a b : nat) (l : list A) :
  firstn (a + b) l = firstn a l ++ firstn b (skipn a l).
Proof.
  revert l. induction a as [|a IH]; intros l; simpl; [reflexivity|].
  destruct l as [|x l]; simpl.
  - destruct b; reflexivity.
  - rewrite IH. reflexivity.
Qed.

Lemma skipn_plus {A : Type} (a b : nat) (l : list A) :
  skipn (a + b) l = skipn b (skipn a l).
Proof.
  revert l. induction a as [|a IH]; intros l; simpl; [reflexivity|].
  destruct l as [|x l]; simpl; [destruct b; reflexivity|apply IH].
Qed.

(** X14: the payload [assemble_extent] gathers for an object extent has as
    many bytes as its buffer slices ask for, provided every slice lies
    inside the source buffer; and two slices that are adjacent in the
    buffer gather the same bytes as the one slice that spans them. *)
Theorem assemble_extent_gathers (buf : bufferlist) :
  (forall bext,
     Forall (slice_in (List.length buf)) bext ->
     Z.of_nat (List.length (assemble_extent bext buf)) = slices_length bext)
  /\ (forall o a b,
        0 <= o -> 0 <= a -> 0 <= b ->
        assemble_extent [(o, a); (o + a, b)] buf
        = assemble_extent [(o, a + b)] buf).
Proof.
  split.
  - intros bext Hall. induction Hall as [|q l (H1 & H2 & H3) Hl IH]; simpl;
      [reflexivity|].
    rewrite length_app, length_firstn, length_skipn, Nat2Z.inj_add, IH. lia.
  - intros o a b Ho Ha Hb. simpl. rewrite !app_nil_r.
    rewrite !Z2Nat.inj_add by lia.
    rewrite firstn_plus, skipn_plus. reflexivity.
Qed.

(** ** The synchronous wrappers *)

Lemma neutral_observed (reply : Effect -> Z) (c : AioCompletion)
    (t : list Effect) :
  forallb neutral t = true ->
  first_failure c t = None
  /\ finished_adding c t = false
  /\ flat_map (child_results reply c) t = []
  /\ object_store_ops t = [].
Proof.
  unfold first_failure, finished_adding, object_store_ops.
  induction t as [|e t IH]; simpl; [auto|].
  intros H. apply andb_true_iff in H. destruct H as [He Ht].
  destruct (IH Ht) as (H1 & H2 & H3 & H4).
  destruct e; try discriminate; simpl; auto.
Qed.

Lemma set_image_watcher_same (ictx : ImageCtx) (w : ImageWatcher) :
  image_watcher ictx = Some w ->
  set_image_watcher (Some (set_aio_ops_pending (aio_ops_pending w) w)) ictx
  = ictx.
Proof.
  intros H. destruct ictx; simpl in *. subst. destruct w; reflexivity.
Qed.

(** Submitting a write or discard to a fresh queue and waiting for its
    completion, when the lock is usable as it stands: the request is sent
    once, by the caller or by a worker. *)
Lemma submit_and_wait (reply : Effect -> Z) (ictx : ImageCtx)
    (req : AioImageRequest) (w : ImageWatcher) (L : list Effect) (r : Z) :
  is_abstract_write req = true ->
  image_watcher ictx = Some w ->
  (forall p,
     sent_ok (send (set_image_watcher (Some (set_aio_ops_pending p w)) ictx)
                req) = true
     /\ sent_effects
          (send (set_image_watcher (Some (set_aio_ops_pending p w)) ictx)
             req) = L) ->
  (forall pre post,
     forallb neutral pre = true -> forallb neutral post = true ->
     completion_result reply (m_aio_comp req) (pre ++ L ++ post) = Some r) ->
  forall lock_required,
  exists s1 s2 pre post,
    (if non_blocking_aio ictx
     then queue req lock_required (init ictx)
     else run Caller req (init ictx)) = Ok s1
    /\ cond_wait (S (List.length (m_items s1))) reply (m_aio_comp req) s1
       = Some (r, s2)
    /\ trace s2 = pre ++ L ++ post
    /\ forallb neutral pre = true
    /\ forallb neutral post = true
    /\ m_items s2 = [] /\ m_queued_writes s2 = 0
    /\ m_in_progress_writes s2 = 0.
Proof.
  intros Hreq Hw Hsend Hres lock_required.
  assert (Hwop : is_write_op req = true)
    by (destruct req; try discriminate; reflexivity).
  destruct (non_blocking_aio ictx).
  - rewrite (queue_write_op req lock_required (init ictx) w Hwop Hw).
    change (m_queued_writes (init ictx) =? 0) with true. cbv beta iota.
    set (pre0 := Watcher_flag_aio_ops_pending
                   :: (if lock_required then [Watcher_request_lock]
                       else [])).
    assert (Hpre0 : forallb neutral pre0 = true)
      by (subst pre0; destruct lock_required; reflexivity).
    set (sA := emit pre0 _).
    pose proof (dequeue_running sA req [] eq_refl eq_refl) as E1.
    rewrite Hwop in E1.
    set (sB := set_processing _ _) in E1.
    set (sC := set_processing (remove_nth 0 (m_processing sB)) sB).
    destruct (Hsend true) as [Hok Heff].
    destruct (process_last_write req sC (set_aio_ops_pending true w)
                Hwop eq_refl eq_refl eq_refl Hok) as (s3 & Hproc & Htr).
    assert (Hfin : m_items s3 = [] /\ m_queued_writes s3 = 0
                   /\ m_in_progress_writes s3 = 0).
    { pose proof Hproc as Hp. unfold process in Hp.
      destruct (run_spec Worker req sC) as (j & es & _ & Hs).
      destruct (run Worker req sC) as [s2|s2]; [|discriminate].
      simpl in Hs. subst s2. rewrite Hwop in Hp. simpl in Hp.
      injection Hp as <-. auto. }
    change (m_image_ctx sC)
      with (set_image_watcher (Some (set_aio_ops_pending true w)) ictx)
      in Htr.
    rewrite Heff in Htr.
    change (trace sC) with pre0 in Htr.
    pose proof (Hres (pre0 ++ [Run Worker req])
                  [Watcher_clear_aio_ops_pending]) as Hr.
    rewrite forallb_app, Hpre0 in Hr. specialize (Hr eq_refl eq_refl).
    rewrite <- app_assoc in Hr. simpl in Hr.
    destruct (neutral_observed reply (m_aio_comp req) pre0 Hpre0)
      as (N1 & N2 & _).
    exists sA, s3, (pre0 ++ [Run Worker req]),
      [Watcher_clear_aio_ops_pending].
    split; [reflexivity|].
    split.
    + change (List.length (m_items sA)) with 1%nat.
      cbn [cond_wait exec_all].
      change (trace sA) with pre0.
      unfold completion_result at 1. rewrite N1, N2.
      rewrite E1. cbv beta iota.
      change (exec (Ev_process 0) sB) with (process req sC).
      rewrite Hproc. cbv beta iota.
      rewrite Htr. simpl app. rewrite Hr. reflexivity.
    + split; [rewrite Htr, <- app_assoc; reflexivity|].
      split; [rewrite forallb_app, Hpre0; reflexivity|].
      split; [reflexivity|]. exact Hfin.
  - destruct (run_state Caller req (init ictx)) as [j Hrun].
    change (m_image_ctx (init ictx)) with ictx in Hrun.
    destruct (Hsend (aio_ops_pending w)) as [Hok Heff].
    rewrite (set_image_watcher_same ictx w Hw) in Hok, Heff.
    rewrite Hok, Heff in Hrun.
    pose proof (Hres [Run Caller req] [] eq_refl eq_refl) as Hr.
    eexists _, _, [Run Caller req], [].
    split; [exact Hrun|].
    split.
    + cbn [cond_wait].
      match goal with
      | |- context [completion_result reply ?c (trace (emit ?e ?s))] =>
          replace (trace (emit e s)) with ([Run Caller req] ++ L ++ [])
            by (simpl; rewrite app_nil_r; reflexivity)
      end.
      rewrite Hr. reflexivity.
    + split; [simpl; rewrite app_nil_r; reflexivity|].
      repeat split; reflexivity.
Qed.

Lemma first_failure_app_neutral (c : AioCompletion) (pre t : list Effect) :
  forallb neutral pre = true ->
  first_failure c (pre ++ t) = first_failure c t.
Proof.
  unfold first_failure. induction pre as [|e pre IH]; simpl; [reflexivity|].
  intros H. apply andb_true_iff in H. destruct H as [He Hpre].
  destruct e; try discriminate; simpl; auto.
Qed.

(** Sending a write or discard that fails early. *)
Lemma send_fails_early (ictx : ImageCtx) (req : AioImageRequest) :
  is_abstract_write req = true ->
  lock_usable ictx ->
  ictx_check_result ictx < 0
  \/ snap_id ictx <> CEPH_NOSNAP \/ read_only ictx = true ->
  sent_ok (send ictx req) = true
  /\ sent_effects (send ictx req)
     = [Comp_get (m_aio_comp req);
        Comp_fail (m_aio_comp req) (early_error ictx)].
Proof.
  intros Hreq (w & Hw & Hlock) Hearly. unfold send, early_error.
  destruct (Z.ltb_spec (ictx_check_result ictx) 0) as [Hneg|Hpos];
    [split; reflexivity|].
  destruct Hearly as [H|Hro]; [lia|].
  assert (Hassert : negb (negb (is_lock_supported w) || is_lock_owner w)
                    = false)
    by (destruct Hlock as [-> | ->];
        destruct (is_lock_supported w); reflexivity).
  assert (Hcond : negb (snap_id ictx =? CEPH_NOSNAP) || read_only ictx
                  = true).
  { destruct Hro as [Hs | ->]; [|apply orb_true_r].
    apply Z.eqb_neq in Hs. rewrite Hs. reflexivity. }
  destruct req; try discriminate; simpl send_request;
    unfold write_send_request; rewrite Hw, Hassert, Hcond; split;
    reflexivity.
Qed.

(** X15: the synchronous [write] and [discard] hand the failure of the
    request back to the caller: on a fresh queue, when [ictx_check] fails
    or the image is a snapshot or read-only, a write or discard that
    starts inside the volume returns that error ([-EROFS] for the latter)
    instead of a length, whether the request was run inline or by a
    worker; nothing reaches the object store and the queue is left
    empty. *)
Theorem sync_wrappers_return_early_error (reply : Effect -> Z)
    (ictx : ImageCtx) (c : AioCompletion) (off len : Z) (buf : bufferlist)
    (op_flags : Z) :
  lock_usable ictx ->
  ictx_check_result ictx < 0
  \/ snap_id ictx <> CEPH_NOSNAP \/ read_only ictx = true ->
  0 <= off < image_size ictx ->
  0 <= len ->
  (exists s',
     write reply c off len buf op_flags (init ictx)
     = Some (early_error ictx, s')
     /\ object_store_ops (trace s') = []
     /\ m_items s' = [] /\ m_queued_writes s' = 0)
  /\ (exists s',
        discard reply c off len (init ictx) = Some (early_error ictx, s')
        /\ object_store_ops (trace s') = []
        /\ m_items s' = [] /\ m_queued_writes s' = 0).
Proof.
  intros Hlock Hearly _ _. pose proof Hlock as (w & Hw & Hw').
  assert (Hneg : (early_error ictx <? 0) = true).
  { unfold early_error.
    destruct (Z.ltb_spec (ictx_check_result ictx) 0);
      [apply Z.ltb_lt; assumption|reflexivity]. }
  assert (Hreq : is_lock_required (init ictx) = false).
  { unfold is_lock_required. simpl. rewrite Hw.
    destruct Hw' as [-> | ->];
      [reflexivity | destruct (is_lock_supported w); reflexivity]. }
  assert (Hgen : forall req,
             is_abstract_write req = true ->
             m_aio_comp req = c ->
             exists s1 s2,
               (if non_blocking_aio ictx
                then queue req false (init ictx)
                else run Caller req (init ictx)) = Ok s1
               /\ cond_wait (S (List.length (m_items s1))) reply c s1
                  = Some (early_error ictx, s2)
               /\ object_store_ops (trace s2) = []
               /\ m_items s2 = [] /\ m_queued_writes s2 = 0).
  { intros req Hab Hc.
    destruct (submit_and_wait reply ictx req w
                [Comp_get c; Comp_fail c (early_error ictx)]
                (early_error ictx) Hab Hw) with (lock_required := false)
      as (s1 & s2 & pre & post & E1 & E2 & Et & Hpre & Hpost & F1 & F2 & _).
    - intros p.
      assert (Hl : lock_usable
                     (set_image_watcher (Some (set_aio_ops_pending p w))
                        ictx))
        by (exists (set_aio_ops_pending p w); split;
            [reflexivity|exact Hw']).
      destruct (send_fails_early _ req Hab Hl Hearly) as [H1 H2].
      rewrite Hc in H2. split; [exact H1|exact H2].
    - intros pre post Hpre Hpost. rewrite Hc. unfold completion_result.
      rewrite (first_failure_app_neutral c pre _ Hpre).
      unfold first_failure. simpl. rewrite Nat.eqb_refl. reflexivity.
    - exists s1, s2. rewrite Hc in E2.
      split; [exact E1|]. split; [exact E2|].
      split; [|split; assumption].
      rewrite Et. unfold object_store_ops.
      rewrite !flat_map_app. simpl.
      destruct (neutral_observed reply c pre Hpre) as (_ & _ & _ & N1).
      destruct (neutral_observed reply c post Hpost) as (_ & _ & _ & N2).
      unfold object_store_ops in N1, N2. rewrite N1, N2. reflexivity. }
  split.
  - unfold write, clip_io. cbv beta iota. change (0 <? 0) with false.
    cbv beta iota. unfold aio_write. rewrite Hreq, orb_false_r.
    destruct (Hgen (new_AioImageWrite c off
                      (Z.min len
                         (Z.max 0 (image_size (m_image_ctx (init ictx))
                                   - off)))
                      buf op_flags) eq_refl eq_refl)
      as (s1 & s2 & E1 & E2 & Hrest).
    exists s2. change (m_image_ctx (init ictx)) with ictx in *.
    rewrite E1, E2, Hneg. split; [reflexivity|exact Hrest].
  - unfold discard, clip_io. cbv beta iota. change (0 <? 0) with false.
    cbv beta iota. unfold aio_discard. rewrite Hreq, orb_false_r.
    destruct (Hgen (new_AioImageDiscard c off
                      (Z.min len
                         (Z.max 0 (image_size (m_image_ctx (init ictx))
                                   - off))))
                eq_refl eq_refl)
      as (s1 & s2 & E1 & E2 & Hrest).
    exists s2. change (m_image_ctx (init ictx)) with ictx in *.
    rewrite E1, E2, Hneg. split; [reflexivity|exact Hrest].
Qed.

(** ** What holds a lock-required write back *)

(** X16: the queue itself does not hold back a write that needs the lock:
    unless writes are suspended, a worker dequeues a write or discard at
    the head of the queue although the lock is supported and not owned,
    and processing it stops at the assertion [send_request] opens with
    (when [ictx_check] passes).  Only suspension keeps such a request
    queued. *)
Theorem unsuspended_lock_required_write_aborts (s : AioImageRequestWQ)
    (req : AioImageRequest) (rest : list AioImageRequest)
    (w : ImageWatcher) :
  m_writes_suspended s = false ->
  m_items s = req :: rest ->
  is_abstract_write req = true ->
  image_watcher (m_image_ctx s) = Some w ->
  is_lock_supported w = true ->
  is_lock_owner w = false ->
  0 <= ictx_check_result (m_image_ctx s) ->
  is_ok (exec_all [Ev_dequeue; Ev_process (List.length (m_processing s))] s)
  = false.
Proof.
  intros Hsus Hi Hreq Hw Hsup Hown Hcheck.
  cbn [exec_all]. rewrite (dequeue_running s req rest Hsus Hi).
  cbv beta iota. cbn [exec m_processing set_processing].
  rewrite nth_error_app2 by lia. rewrite Nat.sub_diag. cbn [nth_error].
  unfold process.
  assert (Hsend : sent_ok (send (m_image_ctx s) req) = false).
  { unfold send.
    destruct (Z.ltb_spec (ictx_check_result (m_image_ctx s)) 0); [lia|].
    simpl. rewrite (send_request_abstract_write _ _ Hreq).
    rewrite write_send_request_ok, Hw, Hsup, Hown. reflexivity. }
  destruct (run Worker req _) as [s1|s1] eqn:E.
  - pose proof (run_ok Worker req
                  (set_processing
                     (remove_nth (List.length (m_processing s))
                        (m_processing s ++ [req]))
                     (set_processing (m_processing s ++ [req])
                        (set_items rest
                           (set_in_progress_writes
                              (m_in_progress_writes s
                               + (if is_write_op req then 1 else 0)) s)))))
      as Hr.
    rewrite E in Hr. simpl in Hr. congruence.
  - reflexivity.
Qed.

(** ** The wait of [suspend_writes] ends *)

Lemma send_ok_usable (ictx : ImageCtx) (req : AioImageRequest) :
  lock_usable ictx -> sent_ok (send ictx req) = true.
Proof.
  intros (w & Hw & Hl). unfold send. destruct (_ <? 0); [reflexivity|].
  simpl. destruct req; simpl.
  - unfold read_send_request.
    destruct (read_map _ _ _ _) as [?|[? ?]]; reflexivity.
  - rewrite write_send_request_ok, Hw.
    destruct Hl as [-> | ->]; [reflexivity|apply orb_true_r].
  - rewrite write_send_request_ok, Hw.
    destruct Hl as [-> | ->]; [reflexivity|apply orb_true_r].
  - unfold flush_send_request. destruct (journal _); reflexivity.
Qed.

Lemma lock_usable_set_journal (j : option Z) (ictx : ImageCtx) :
  lock_usable ictx -> lock_usable (set_journal j ictx).
Proof.
  intros (w & Hw & Hl). exists w. split; [exact Hw|exact Hl].
Qed.

(** What [process] leaves alone. *)
Lemma process_frame (req : AioImageRequest) (s s' : AioImageRequestWQ) :
  process req s = Ok s' ->
  m_processing s' = m_processing s
  /\ m_items s' = m_items s
  /\ m_writes_suspended s' = m_writes_suspended s
  /\ (lock_usable (m_image_ctx s) -> lock_usable (m_image_ctx s')).
Proof.
  intros E. unfold process in E.
  destruct (run_spec Worker req s) as (j & es & _ & Hs).
  destruct (run Worker req s) as [s1|s1]; [|discriminate].
  simpl in Hs. subst s1.
  destruct (is_write_op req).
  - simpl in E. destruct (negb (0 <? m_queued_writes s)); [discriminate|].
    destruct (m_queued_writes s - 1 =? 0).
    + unfold clear_aio_ops_pending, watcher_call in E. simpl in E.
      destruct (image_watcher (m_image_ctx s)) as [w|] eqn:Hw;
        [|discriminate].
      simpl in E.
      destruct (negb (0 <? m_in_progress_writes s)); [discriminate|].
      injection E as <-. simpl.
      split; [reflexivity|]. split; [reflexivity|].
      split; [reflexivity|].
      intros (w' & Hw' & Hl). rewrite Hw in Hw'. injection Hw' as <-.
      exists (set_aio_ops_pending false w). split; [reflexivity|exact Hl].
    + simpl in E.
      destruct (negb (0 <? m_in_progress_writes s)); [discriminate|].
      injection E as <-. simpl.
      split; [reflexivity|]. split; [reflexivity|].
      split; [reflexivity|]. apply lock_usable_set_journal.
  - injection E as <-. simpl.
    split; [reflexivity|]. split; [reflexivity|].
    split; [reflexivity|]. apply lock_usable_set_journal.
Qed.

(** A worker finishing the first request it holds, on an image whose lock
    is usable. *)
Lemma process_first_ok (s : AioImageRequestWQ) (req : AioImageRequest)
    (held : list AioImageRequest) :
  counters_inv s ->
  m_processing s = req :: held ->
  lock_usable (m_image_ctx s) ->
  exists s',
    exec (Ev_process 0) s = Ok s'
    /\ counters_inv s'
    /\ m_processing s' = held
    /\ m_items s' = m_items s
    /\ m_writes_suspended s' = m_writes_suspended s
    /\ lock_usable (m_image_ctx s').
Proof.
  intros Hinv Hp Hl.
  assert (Hn : nth_error (m_processing s) 0 = Some req)
    by (rewrite Hp; reflexivity).
  destruct (exec (Ev_process 0) s) as [s'|s'] eqn:E.
  - exists s'. split; [reflexivity|].
    split; [eapply counters_inv_exec; eauto|].
    cbn [exec] in E. rewrite Hn in E.
    destruct (process_frame _ _ _ E) as (F1 & F2 & F3 & F4).
    simpl in F1, F2, F3, F4. rewrite Hp in F1. auto.
  - exfalso. cbn [exec] in E. rewrite Hn in E. unfold process in E.
    destruct Hinv as (Hq & Hin & Hw).
    pose proof (count_writes_remove_nth _ _ _ Hn) as Hrm.
    pose proof (count_writes_nonneg (m_items s)) as N1.
    pose proof (count_writes_nonneg (remove_nth 0 (m_processing s))) as N2.
    destruct (run_state Worker req
                (set_processing (remove_nth 0 (m_processing s)) s))
      as [j Hrun].
    rewrite Hrun in E. clear Hrun.
    cbn [m_image_ctx set_processing] in E.
    rewrite (send_ok_usable _ req Hl) in E.
    destruct (is_write_op req); [|discriminate].
    assert (H1 : (0 <? m_queued_writes s) = true) by (apply Z.ltb_lt; lia).
    assert (H2 : (0 <? m_in_progress_writes s) = true)
      by (apply Z.ltb_lt; lia).
    assert (H3 : image_watcher (m_image_ctx s) <> None) by (apply Hw; lia).
    unfold clear_aio_ops_pending, watcher_call in E.
    cbn [m_queued_writes m_in_progress_writes m_image_ctx image_watcher emit
         set_trace set_image_ctx set_queued_writes set_journal
         set_processing set_in_progress_writes set_image_watcher] in E.
    rewrite H1 in E. cbn [negb] in E.
    destruct (m_queued_writes s - 1 =? 0).
    + destruct (image_watcher (m_image_ctx s)) as [w|]; [|auto].
      cbn [m_queued_writes m_in_progress_writes m_image_ctx image_watcher
           emit set_trace set_image_ctx set_queued_writes set_journal
           set_processing set_in_progress_writes set_image_watcher] in E.
      rewrite H2 in E. discriminate.
    + cbn [m_queued_writes m_in_progress_writes m_image_ctx image_watcher
           emit set_trace set_image_ctx set_queued_writes set_journal
           set_processing set_in_progress_writes set_image_watcher] in E.
      rewrite H2 in E. discriminate.
Qed.

Lemma suspend_wait_drains (held : list AioImageRequest) :
  forall s,
    counters_inv s ->
    m_processing s = held ->
    m_writes_suspended s = true ->
    lock_usable (m_image_ctx s) ->
    exists s' rest,
      suspend_wait (repeat (Ev_process 0) (List.length held)) s
      = Some (s', rest)
      /\ m_in_progress_writes s' = 0
      /\ m_writes_suspended s' = true
      /\ m_items s' = m_items s.
Proof.
  induction held as [|req held IH]; intros s Hinv Hp Hsus Hl.
  - destruct Hinv as (_ & Hin & _). rewrite Hp in Hin. simpl in Hin.
    exists s, []. simpl. rewrite Hin. simpl. auto.
  - simpl repeat. cbn [suspend_wait].
    destruct (Z.ltb_spec 0 (m_in_progress_writes s)) as [Hpos|Hzero].
    + destruct (process_first_ok s req held Hinv Hp Hl)
        as (s1 & E & Hinv1 & Hp1 & Hi1 & Hs1 & Hl1).
      rewrite E.
      destruct (IH s1 Hinv1 Hp1 (eq_trans Hs1 Hsus) Hl1)
        as (s' & rest & E' & H1 & H2 & H3).
      exists s', rest. rewrite E'. rewrite H3, Hi1. auto.
    + pose proof (count_writes_nonneg (m_processing s)).
      destruct Hinv as (_ & Hin & _).
      eexists s, _. split; [reflexivity|]. split; [lia|auto].
Qed.

(** X17: [suspend_writes] does return: in a reachable state of an image
    whose lock is usable, once the workers have processed the requests
    they hold, the wait is over with no write in progress; nothing was
    taken from the queue meanwhile. *)
Theorem suspend_writes_returns (s : AioImageRequestWQ) :
  reachable s ->
  lock_usable (m_image_ctx s) ->
  exists s' rest,
    suspend_writes (repeat (Ev_process 0) (List.length (m_processing s))) s
    = Some (s', rest)
    /\ m_in_progress_writes s' = 0
    /\ m_writes_suspended s' = true
    /\ m_items s' = m_items s.
Proof.
  intros Hr Hl. unfold suspend_writes.
  apply (suspend_wait_drains (m_processing s) (set_writes_suspended true s)).
  - exact (counters_inv_reachable s Hr).
  - reflexivity.
  - reflexivity.
  - exact Hl.
Qed.

(** ** The synchronous wrappers on success *)

Lemma send_object_requests_watcher (w : option ImageWatcher)
    (ictx : ImageCtx) (req : AioImageRequest) (snapc : SnapContext)
    (stash : bool) (exts : ObjectExtents) :
  forall requests,
    send_object_requests (set_image_watcher w ictx) req exts snapc stash
      requests
    = send_object_requests ictx req exts snapc stash requests.
Proof.
  assert (Hp : forall p,
             send_object_request (set_image_watcher w ictx) req p snapc
             = send_object_request ictx req p snapc)
    by (intros p; destruct req; reflexivity).
  induction exts as [|p rest IH]; intros requests; [reflexivity|].
  cbn [send_object_requests]. rewrite Hp.
  destruct (send_object_request ictx req p snapc) as [[r|] es].
  - destruct stash; rewrite IH; reflexivity.
  - rewrite IH. reflexivity.
Qed.

(** The send path reads the lock state of the watcher, not its
    async-ops-pending flag. *)
Lemma send_pending_irrelevant (ictx : ImageCtx) (w : ImageWatcher)
    (p : bool) (req : AioImageRequest) :
  image_watcher ictx = Some w ->
  sent_ok (send (set_image_watcher (Some (set_aio_ops_pending p w)) ictx)
             req)
  = sent_ok (send ictx req)
  /\ sent_effects
       (send (set_image_watcher (Some (set_aio_ops_pending p w)) ictx) req)
     = sent_effects (send ictx req).
Proof.
  intros Hw.
  assert (Hwr : forall off len sync,
             sent_ok (write_send_request
                        (set_image_watcher
                           (Some (set_aio_ops_pending p w)) ictx)
                        req off len sync)
             = sent_ok (write_send_request ictx req off len sync)
             /\ sent_effects
                  (write_send_request
                     (set_image_watcher
                        (Some (set_aio_ops_pending p w)) ictx)
                     req off len sync)
                = sent_effects (write_send_request ictx req off len sync)).
  { intros off len sync. unfold write_send_request.
    cbn [image_watcher set_image_watcher snap_id read_only journal
         snapc_of layout object_cacher]. rewrite Hw.
    change (is_lock_supported (set_aio_ops_pending p w))
      with (is_lock_supported w).
    change (is_lock_owner (set_aio_ops_pending p w))
      with (is_lock_owner w).
    destruct (negb (negb (is_lock_supported w) || is_lock_owner w));
      [split; reflexivity|].
    destruct (negb (snap_id ictx =? CEPH_NOSNAP) || read_only ictx);
      [split; reflexivity|].
    unfold clip_io. cbn [image_size set_image_watcher].
    cbv beta iota. change (0 <? 0) with false. cbv beta iota.
    rewrite send_object_requests_watcher.
    destruct (send_object_requests ictx req _ _ _ _) as [requests es_obj].
    destruct (journal ictx) as [tid|].
    - destruct (append_journal_event tid req requests sync) as [tid' es].
      split; reflexivity.
    - split; reflexivity. }
  unfold send. cbn [ictx_check_result set_image_watcher].
  destruct (ictx_check_result ictx <? 0); [split; reflexivity|].
  destruct req; cbn [send_request sent_ok sent_effects m_aio_comp].
  - unfold read_send_request.
    rewrite read_map_watcher.
    cbn [object_cacher readahead_max_bytes snap_id set_image_watcher].
    destruct (read_map ictx extents [] 0) as [r|[oe bo]]; split; reflexivity.
  - destruct (Hwr off len synchronous) as [H1 H2]. rewrite H1, H2.
    split; reflexivity.
  - destruct (Hwr off len synchronous) as [H1 H2]. rewrite H1, H2.
    split; reflexivity.
  - unfold flush_send_request.
    cbn [journal object_cacher set_image_watcher].
    destruct (journal ictx); split; reflexivity.
Qed.

Lemma not_fail_no_failure (c : AioCompletion) (t : list Effect) :
  forallb not_fail t = true -> first_failure c t = None.
Proof.
  unfold first_failure. induction t as [|e t IH]; simpl; [reflexivity|].
  intros H. apply andb_true_iff in H. destruct H as [He Ht].
  destruct e; try discriminate; simpl; auto.
Qed.

Lemma forallb_weaken {A : Type} (f g : A -> bool) (l : list A) :
  (forall a, f a = true -> g a = true) ->
  forallb f l = true -> forallb g l = true.
Proof.
  intros Hfg H. rewrite forallb_forall in *. auto.
Qed.

(** A write or discard sent to a writable image head with a usable lock
    runs to its end and closes the completion. *)
Lemma send_succeeds (ictx : ImageCtx) (req : AioImageRequest) :
  is_abstract_write req = true ->
  lock_usable ictx ->
  0 <= ictx_check_result ictx ->
  snap_id ictx = CEPH_NOSNAP ->
  read_only ictx = false ->
  sent_ok (send ictx req) = true
  /\ exists mid,
       sent_effects (send ictx req)
       = Comp_get (m_aio_comp req)
           :: mid ++ [Comp_finish_adding_requests (m_aio_comp req);
                      Comp_put (m_aio_comp req)]
       /\ forallb is_body mid = true.
Proof.
  intros Hreq Hlock Hcheck Hhead Hrw. unfold send.
  destruct (Z.ltb_spec (ictx_check_result ictx) 0) as [Hneg|_]; [lia|].
  cbn [sent_ok sent_effects].
  assert (Hgen : forall off len sync,
             sent_ok (write_send_request ictx req off len sync) = true
             /\ exists mid,
                  sent_effects (write_send_request ictx req off len sync)
                  = mid ++ [Comp_finish_adding_requests (m_aio_comp req);
                            Comp_put (m_aio_comp req)]
                  /\ forallb is_body mid = true).
  { intros off len sync.
    pose proof (write_send_request_effects ictx req off len sync Hlock
                  Hhead Hrw) as He.
    cbv zeta in He. destruct He as [Hok Heff].
    split; [exact Hok|].
    pose proof (write_send_request_shape ictx req off len sync) as Hs.
    cbv zeta in Hs. destruct Hs as [Hs|[(r & Hs)|Hs]].
    - rewrite Hok in Hs. discriminate.
    - rewrite Heff in Hs. discriminate.
    - exact Hs. }
  destruct req; try discriminate; cbn [send_request m_aio_comp] in *.
  - destruct (Hgen off len synchronous) as (Hok & mid & Heff & Hmid).
    split; [exact Hok|]. exists mid. rewrite Heff. auto.
  - destruct (Hgen off len synchronous) as (Hok & mid & Heff & Hmid).
    split; [exact Hok|]. exists mid. rewrite Heff. auto.
Qed.

(** *** Contexts and the outstanding count *)

Lemma outstanding_cons (c : AioCompletion) (e : Effect) (t : list Effect) :
  outstanding c (e :: t) = registered c e - released c e + outstanding c t.
Proof.
  reflexivity.
Qed.

Lemma outstanding_object_request (ictx : ImageCtx) (req : AioImageRequest)
    (p : ObjectExtent) (snapc : SnapContext) :
  outstanding (m_aio_comp req) (snd (send_object_request ictx req p snapc))
  = 0.
Proof.
  unfold send_object_request. destruct req; cbn [snd]; try reflexivity;
    repeat match goal with
           | |- context [if ?b then _ else _] => destruct b; cbn [snd]
           end;
    reflexivity.
Qed.

(** Sent one by one, every context is reported on but those of the extents
    that got no request. *)
Lemma outstanding_submit (ictx : ImageCtx) (req : AioImageRequest)
    (snapc : SnapContext) (exts : ObjectExtents) :
  outstanding (m_aio_comp req)
    (flat_map (submit_effects ictx req snapc) exts)
  = dropped ictx req snapc exts.
Proof.
  induction exts as [|p rest IH]; [reflexivity|].
  cbn [flat_map dropped fold_right]. fold (dropped ictx req snapc rest).
  rewrite outstanding_app, IH. unfold submit_effects.
  rewrite outstanding_cons, outstanding_app, outstanding_object_request.
  cbn [registered released child_results]. rewrite Nat.eqb_refl.
  destruct (fst (send_object_request ictx req p snapc)) as [r|].
  - rewrite outstanding_cons. cbn [registered released child_results].
    rewrite Nat.eqb_refl. cbn [List.length outstanding fold_right]. lia.
  - cbn [List.length outstanding fold_right]. lia.
Qed.

Lemma outstanding_stash (ictx : ImageCtx) (req : AioImageRequest)
    (snapc : SnapContext) (exts : ObjectExtents) :
  outstanding (m_aio_comp req)
    (flat_map (stash_effects ictx req snapc) exts)
  = Z.of_nat (List.length exts).
Proof.
  induction exts as [|p rest IH]; [reflexivity|].
  cbn [flat_map]. rewrite outstanding_app, IH. unfold stash_effects.
  rewrite outstanding_cons, outstanding_object_request.
  cbn [registered released child_results]. rewrite Nat.eqb_refl.
  cbn [List.length]. lia.
Qed.

Lemma constructed_dropped (ictx : ImageCtx) (req : AioImageRequest)
    (snapc : SnapContext) (exts : ObjectExtents) :
  Z.of_nat (List.length (constructed ictx req exts snapc))
  + dropped ictx req snapc exts
  = Z.of_nat (List.length exts).
Proof.
  unfold constructed.
  induction exts as [|p rest IH]; [reflexivity|].
  cbn [flat_map dropped fold_right List.length].
  fold (dropped ictx req snapc rest).
  rewrite length_app, Nat2Z.inj_add, Nat2Z.inj_succ.
  destruct (fst (send_object_request ictx req p snapc));
    cbn [List.length]; lia.
Qed.

Lemma dropped_nonneg (ictx : ImageCtx) (req : AioImageRequest)
    (snapc : SnapContext) (exts : ObjectExtents) :
  0 <= dropped ictx req snapc exts.
Proof.
  induction exts as [|p rest IH]; cbn [dropped fold_right]; [lia|].
  fold (dropped ictx req snapc rest).
  destruct (fst (send_object_request ictx req p snapc)); lia.
Qed.

(** The count a write or discard leaves when [send()] has run to its end
    on a writable image head: one for every context that was handed to no
    request. *)
Lemma outstanding_send (ictx : ImageCtx) (req : AioImageRequest) :
  is_abstract_write req = true ->
  lock_usable ictx ->
  0 <= ictx_check_result ictx ->
  snap_id ictx = CEPH_NOSNAP ->
  read_only ictx = false ->
  outstanding (m_aio_comp req) (sent_effects (send ictx req))
  = dropped ictx req (snapc_of ictx)
      (mapped_extents ictx (m_off req) (m_len req)).
Proof.
  intros Hreq Hlock Hcheck Hhead Hrw. unfold send.
  destruct (Z.ltb_spec (ictx_check_result ictx) 0) as [Hneg|_]; [lia|].
  cbn [sent_effects]. rewrite (send_request_abstract_write _ _ Hreq).
  destruct (write_send_request_effects ictx req (m_off req) (m_len req)
              (m_synchronous req) Hlock Hhead Hrw) as [_ E].
  rewrite E. clear E.
  set (exts := mapped_extents ictx (m_off req) (m_len req)).
  set (c := m_aio_comp req).
  assert (Hcache : forall tid,
             outstanding c
               (if object_cacher ictx
                then send_cache_requests req exts tid else []) = 0).
  { intros tid. destruct (object_cacher ictx); [|reflexivity].
    subst c. destruct req; try discriminate; cbn [send_cache_requests].
    - induction exts as [|p rest IH]; [reflexivity|].
      cbn [flat_map app]. rewrite !outstanding_cons, IH.
      cbn [registered released child_results m_aio_comp].
      rewrite Nat.eqb_refl. reflexivity.
    - reflexivity. }
  assert (Hstats : forall n, outstanding c (update_stats req n) = 0)
    by (intros n; destruct req; reflexivity).
  rewrite !outstanding_cons, !outstanding_app, Hcache, Hstats.
  rewrite !outstanding_cons.
  cbn [registered released child_results outstanding fold_right].
  fold c. rewrite !Nat.eqb_refl.
  destruct (journal ictx) as [tid|].
  - subst c. rewrite outstanding_app, outstanding_stash.
    pose proof (constructed_dropped ictx req (snapc_of ictx) exts) as Hd.
    assert (Hj : outstanding (m_aio_comp req)
                   (snd (append_journal_event tid req
                           (constructed ictx req exts (snapc_of ictx))
                           (m_synchronous req)))
                 = - Z.of_nat
                       (List.length
                          (constructed ictx req exts (snapc_of ictx)))).
    { destruct req; try discriminate;
        cbn [append_journal_event snd m_aio_comp];
        rewrite outstanding_cons;
        cbn [registered released child_results outstanding fold_right];
        rewrite Nat.eqb_refl; cbn [List.length]; rewrite length_map;
        lia. }
    rewrite Hj. cbn [List.length]. lia.
  - subst c. rewrite outstanding_submit. cbn [List.length]. lia.
Qed.

(** A write without cache and a discard that skips nothing hand every
    context to a request. *)
Lemma dropped_nothing (ictx : ImageCtx) (req : AioImageRequest)
    (snapc : SnapContext) (exts : ObjectExtents) :
  match req with
  | AioImageWrite _ _ _ _ _ _ => object_cacher ictx = false
  | AioImageDiscard _ _ _ _ => rbd_skip_partial_discard ictx = false
  | _ => False
  end ->
  dropped ictx req snapc exts = 0.
Proof.
  intros H. induction exts as [|p rest IH]; [reflexivity|].
  cbn [dropped fold_right]. fold (dropped ictx req snapc rest).
  rewrite IH. unfold send_object_request.
  destruct req; try contradiction.
  - rewrite H. reflexivity.
  - destruct (length p =? _); [reflexivity|].
    destruct (uint64 _ =? _); [reflexivity|].
    rewrite H. reflexivity.
Qed.

(** A discard that skips every extent hands no context to a request. *)
Lemma dropped_all_skipped (ictx : ImageCtx) (c : AioCompletion)
    (off len : Z) (sync : bool) (snapc : SnapContext)
    (exts : ObjectExtents) :
  rbd_skip_partial_discard ictx = true ->
  Forall (interior ictx) exts ->
  dropped ictx (AioImageDiscard c off len sync) snapc exts
  = Z.of_nat (List.length exts).
Proof.
  intros Hskip Hall. induction Hall as [|p rest Hp Hrest IH];
    [reflexivity|].
  cbn [dropped fold_right List.length].
  fold (dropped ictx (AioImageDiscard c off len sync) snapc rest).
  rewrite IH, (discard_interior ictx c off len sync p snapc Hp), Hskip.
  cbn [fst]. lia.
Qed.

(** The completion of a write or discard whose [send()] ran to its end on a
    writable image head: it fires if and only if no context was dropped,
    and with success when no child reports an error. *)
Lemma completion_of_sent (reply : Effect -> Z) (ictx : ImageCtx)
    (req : AioImageRequest) (pre post : list Effect) :
  is_abstract_write req = true ->
  lock_usable ictx ->
  0 <= ictx_check_result ictx ->
  snap_id ictx = CEPH_NOSNAP ->
  read_only ictx = false ->
  forallb neutral pre = true -> forallb neutral post = true ->
  completion_result reply (m_aio_comp req)
    (pre ++ sent_effects (send ictx req) ++ post)
  = if dropped ictx req (snapc_of ictx)
         (mapped_extents ictx (m_off req) (m_len req)) =? 0
    then Some (cumulative
                 (flat_map (child_results reply (m_aio_comp req))
                    (sent_effects (send ictx req))))
    else None.
Proof.
  intros Hreq Hlock Hcheck Hhead Hrw Hpre Hpost.
  rewrite (completion_result_framed reply _ pre _ post Hpre Hpost).
  unfold completion_result.
  rewrite (outstanding_send ictx req Hreq Hlock Hcheck Hhead Hrw).
  destruct (send_succeeds ictx req Hreq Hlock Hcheck Hhead Hrw)
    as (_ & mid & Heff & Hmid).
  assert (Hnf : forallb not_fail (sent_effects (send ictx req)) = true).
  { rewrite Heff. cbn [forallb not_fail]. rewrite forallb_app.
    cbn [forallb not_fail].
    rewrite (forallb_weaken is_body not_fail mid); auto.
    intros a; destruct a; auto. }
  rewrite (not_fail_no_failure _ _ Hnf).
  assert (Hfin : finished_adding (m_aio_comp req)
                   (sent_effects (send ictx req)) = true).
  { rewrite Heff. unfold finished_adding. cbn [existsb].
    rewrite existsb_app. cbn [existsb].
    rewrite Nat.eqb_refl, !orb_true_r. reflexivity. }
  rewrite Hfin. reflexivity.
Qed.

(** Submitting a write or discard that drops no context to a fresh queue
    and waiting for it, when no child reports an error. *)
Lemma submit_and_wait_finished (reply : Effect -> Z) (ictx : ImageCtx)
    (req : AioImageRequest) :
  lock_usable ictx ->
  0 <= ictx_check_result ictx ->
  snap_id ictx = CEPH_NOSNAP ->
  read_only ictx = false ->
  is_abstract_write req = true ->
  dropped ictx req (snapc_of ictx)
    (mapped_extents ictx (m_off req) (m_len req)) = 0 ->
  exists s1 s2,
    (if non_blocking_aio ictx
     then queue req false (init ictx)
     else run Caller req (init ictx)) = Ok s1
    /\ cond_wait (S (List.length (m_items s1))) reply (m_aio_comp req) s1
       = Some (cumulative
                 (flat_map (child_results reply (m_aio_comp req))
                    (sent_effects (send ictx req))), s2)
    /\ m_items s2 = [] /\ m_queued_writes s2 = 0.
Proof.
  intros Hlock Hcheck Hhead Hrw Hab Hdrop.
  pose proof Hlock as (w & Hw & Hw').
  destruct (send_succeeds ictx req Hab Hlock Hcheck Hhead Hrw)
    as (Hok & _).
  destruct (submit_and_wait reply ictx req w
              (sent_effects (send ictx req))
              (cumulative
                 (flat_map (child_results reply (m_aio_comp req))
                    (sent_effects (send ictx req)))) Hab Hw)
    with (lock_required := false)
    as (s1 & s2 & pre & post & E1 & E2 & Et & Hpre & Hpost & F1 & F2 & _).
  - intros p.
    destruct (send_pending_irrelevant ictx w p req Hw) as [H1 H2].
    rewrite H1, H2. split; [exact Hok|reflexivity].
  - intros pre post Hpre Hpost.
    rewrite (completion_of_sent reply ictx req pre post Hab Hlock Hcheck
               Hhead Hrw Hpre Hpost), Hdrop.
    reflexivity.
  - exists s1, s2. auto.
Qed.

Lemma usable_lock_not_required (ictx : ImageCtx) :
  lock_usable ictx -> is_lock_required (init ictx) = false.
Proof.
  intros (w & Hw & Hw'). unfold is_lock_required. simpl. rewrite Hw.
  destruct Hw' as [-> | ->];
    [reflexivity | destruct (is_lock_supported w); reflexivity].
Qed.

(** X18: on a writable image head whose lock is usable, when no child
    operation reports an error, the synchronous [write] on an image
    without cache and the synchronous [discard] on an image that does not
    skip partial discards return the length clipped to the volume ([write]
    as [ssize_t], [discard] converted to [int]), whether the request was
    run inline or by a worker; the queue is left empty. *)
Theorem sync_wrappers_return_clipped_length (reply : Effect -> Z)
    (ictx : ImageCtx) (c : AioCompletion) (off len : Z) (buf : bufferlist)
    (op_flags : Z) :
  lock_usable ictx ->
  0 <= ictx_check_result ictx ->
  snap_id ictx = CEPH_NOSNAP ->
  read_only ictx = false ->
  0 <= off < image_size ictx ->
  0 <= len ->
  (forall e, 0 <= reply e) ->
  (object_cacher ictx = false ->
   exists s',
     write reply c off len buf op_flags (init ictx)
     = Some (to_ssize_t (Z.min len (image_size ictx - off)), s')
     /\ m_items s' = [] /\ m_queued_writes s' = 0)
  /\ (rbd_skip_partial_discard ictx = false ->
      exists s',
        discard reply c off len (init ictx)
        = Some (to_int (Z.min len (image_size ictx - off)), s')
        /\ m_items s' = [] /\ m_queued_writes s' = 0).
Proof.
  intros Hlock Hcheck Hhead Hrw Hoff Hlen Hreply.
  set (n := Z.min len (image_size ictx - off)).
  assert (Hn : Z.min len (Z.max 0 (image_size ictx - off)) = n)
    by (subst n; rewrite Z.max_r by lia; reflexivity).
  pose proof (usable_lock_not_required ictx Hlock) as Hreq.
  assert (Hzero : forall t,
             cumulative (flat_map (child_results reply c) t) = 0)
    by (intros t; apply cumulative_success, child_results_nonneg, Hreply).
  split.
  - intros Hcache.
    unfold write, clip_io. cbv beta iota. change (0 <? 0) with false.
    cbv beta iota. unfold aio_write. rewrite Hreq, orb_false_r.
    change (m_image_ctx (init ictx)) with ictx. rewrite Hn.
    destruct (submit_and_wait_finished reply ictx
                (new_AioImageWrite c off n buf op_flags) Hlock Hcheck Hhead
                Hrw eq_refl) as (s1 & s2 & E1 & E2 & Hrest).
    { apply dropped_nothing. exact Hcache. }
    change (m_aio_comp (new_AioImageWrite c off n buf op_flags)) with c
      in E2.
    rewrite Hzero in E2.
    exists s2. rewrite E1, E2. change (0 <? 0) with false. cbv iota.
    split; [reflexivity|exact Hrest].
  - intros Hskip.
    unfold discard, clip_io. cbv beta iota. change (0 <? 0) with false.
    cbv beta iota. unfold aio_discard. rewrite Hreq, orb_false_r.
    change (m_image_ctx (init ictx)) with ictx. rewrite Hn.
    destruct (submit_and_wait_finished reply ictx
                (new_AioImageDiscard c off n) Hlock Hcheck Hhead Hrw
                eq_refl) as (s1 & s2 & E1 & E2 & Hrest).
    { apply dropped_nothing. exact Hskip. }
    change (m_aio_comp (new_AioImageDiscard c off n)) with c in E2.
    rewrite Hzero in E2.
    exists s2. rewrite E1, E2. change (0 <? 0) with false. cbv iota.
    split; [reflexivity|exact Hrest].
Qed.

(** X19: [discard] returns [int], so the clipped length it hands back is
    narrowed to 32 bits (modular conversion): on a writable image head
    whose lock is usable and that does not skip partial discards, a
    discard whose clipped length is between 2 GiB and 4 GiB never reports
    success.  The caller gets a negative number: the cumulative error of
    the children, or, when no child reports an error, the length minus
    2^32. *)
Theorem discard_length_narrowed_to_int (reply : Effect -> Z)
    (ictx : ImageCtx) (c : AioCompletion) (off len : Z) :
  lock_usable ictx ->
  0 <= ictx_check_result ictx ->
  snap_id ictx = CEPH_NOSNAP ->
  read_only ictx = false ->
  rbd_skip_partial_discard ictx = false ->
  0 <= off < image_size ictx ->
  2 ^ 31 <= Z.min len (image_size ictx - off) < 2 ^ 32 ->
  exists r s',
    discard reply c off len (init ictx) = Some (r, s')
    /\ r < 0
    /\ ((forall e, 0 <= reply e) ->
        r = Z.min len (image_size ictx - off) - 2 ^ 32).
Proof.
  intros Hlock Hcheck Hhead Hrw Hskip Hoff Hbig.
  set (n := Z.min len (image_size ictx - off)) in *.
  assert (Hn : Z.min len (Z.max 0 (image_size ictx - off)) = n)
    by (subst n; rewrite Z.max_r by lia; reflexivity).
  assert (Hint : to_int n = n - 2 ^ 32).
  { unfold to_int.
    replace (n + 2 ^ 31) with (n - 2 ^ 31 + 1 * 2 ^ 32) by lia.
    rewrite Z.mod_add by lia. rewrite Z.mod_small by lia. lia. }
  pose proof (usable_lock_not_required ictx Hlock) as Hreq.
  unfold discard, clip_io. cbv beta iota. change (0 <? 0) with false.
  cbv beta iota. unfold aio_discard. rewrite Hreq, orb_false_r.
  change (m_image_ctx (init ictx)) with ictx. rewrite Hn.
  destruct (submit_and_wait_finished reply ictx
              (new_AioImageDiscard c off n) Hlock Hcheck Hhead Hrw
              eq_refl) as (s1 & s2 & E1 & E2 & _).
  { apply dropped_nothing. exact Hskip. }
  change (m_aio_comp (new_AioImageDiscard c off n)) with c in E2.
  rewrite E1, E2.
  set (r := cumulative _).
  pose proof (cumulative_nonpos
                (flat_map (child_results reply c)
                   (sent_effects
                      (send ictx (new_AioImageDiscard c off n))))) as Hr.
  fold r in Hr.
  destruct (Z.ltb_spec r 0) as [Hneg|Hpos].
  - exists r, s2. split; [reflexivity|]. split; [exact Hneg|].
    intros Hreply. exfalso.
    assert (r = 0)
      by (subst r; apply cumulative_success, child_results_nonneg, Hreply).
    lia.
  - exists (to_int n), s2. split; [reflexivity|].
    rewrite Hint. split; [lia|]. intros _. reflexivity.
Qed.

(** ** A dropped context holds the completion open *)

(** C6: for every object extent of a discard the child is an
    [AioObjectRemove] when the extent is as long as an object, an
    [AioObjectTruncate] when it ends where the object ends, and an
    [AioObjectZero] otherwise; with [rbd_skip_partial_discard] the last
    case constructs no child, so that a discard made of such extents gives
    the object store nothing to do.  Its completion, though, does not
    fire: the context built on the aggregate for the extent is deleted,
    not completed, and every such context stays in the outstanding
    count. *)
Theorem discard_children_by_geometry (ictx : ImageCtx) (c : AioCompletion)
    (off len : Z) (sync : bool) (snapc : SnapContext) (reply : Effect -> Z) :
  (forall p,
     0 <= offset p -> 0 <= length p -> offset p + length p < 2 ^ 64 ->
     (length p = fl_object_size (layout ictx) ->
      send_object_request ictx (AioImageDiscard c off len sync) p snapc =
      (Some (AioObjectRemove (objectno p) snapc), []))
     /\ (length p <> fl_object_size (layout ictx) ->
         offset p + length p = fl_object_size (layout ictx) ->
         send_object_request ictx (AioImageDiscard c off len sync) p snapc =
         (Some (AioObjectTruncate (objectno p) (offset p) snapc), []))
     /\ (length p <> fl_object_size (layout ictx) ->
         offset p + length p <> fl_object_size (layout ictx) ->
         send_object_request ictx (AioImageDiscard c off len sync) p snapc =
         (if rbd_skip_partial_discard ictx
          then (None, [Delete_on_finish c])
          else (Some (AioObjectZero (objectno p) (offset p) (length p)
                        snapc), []))))
  /\ (rbd_skip_partial_discard ictx = true ->
      lock_usable ictx ->
      snap_id ictx = CEPH_NOSNAP ->
      read_only ictx = false ->
      Forall (interior ictx) (mapped_extents ictx off len) ->
      object_store_ops
        (sent_effects (send_request ictx (AioImageDiscard c off len sync)))
      = []
      /\ (0 <= ictx_check_result ictx ->
          mapped_extents ictx off len <> [] ->
          outstanding c
            (sent_effects (send ictx (AioImageDiscard c off len sync)))
          = Z.of_nat (List.length (mapped_extents ictx off len))
          /\ forall pre post,
               forallb neutral pre = true -> forallb neutral post = true ->
               completion_result reply c
                 (pre
                  ++ sent_effects
                       (send ictx (AioImageDiscard c off len sync))
                  ++ post)
               = None)).
Proof.
  split.
  - intros p Ho Hl Hend.
    assert (Hu : uint64 (offset p + length p) = offset p + length p)
      by (unfold uint64; apply Z.mod_small; lia).
    unfold send_object_request. rewrite Hu.
    split; [|split].
    + intros ->. rewrite Z.eqb_refl. reflexivity.
    + intros H1 ->. apply Z.eqb_neq in H1. rewrite H1, Z.eqb_refl.
      reflexivity.
    + intros H1 H2. apply Z.eqb_neq in H1, H2. rewrite H1, H2.
      reflexivity.
  - intros Hskip Hlock Hhead Hrw Hall.
    set (req := AioImageDiscard c off len sync).
    split.
    + pose proof (send_request_observed ictx req eq_refl Hlock Hhead Hrw)
        as H.
      destruct (discard_skipped ictx c off len sync (snapc_of ictx) _ Hskip
                  Hall) as [Hkids _].
      simpl m_off in H. simpl m_len in H. fold req in Hkids.
      rewrite Hkids in H.
      destruct (journal ictx); destruct H as [H1 H2];
        apply object_store_ops_nil; try assumption; rewrite H2;
        repeat constructor.
    + intros Hcheck Hne.
      pose proof (dropped_all_skipped ictx c off len sync (snapc_of ictx)
                    _ Hskip Hall) as Hd.
      fold req in Hd.
      split.
      * exact (eq_trans
                 (outstanding_send ictx req eq_refl Hlock Hcheck Hhead Hrw)
                 Hd).
      * intros pre post Hpre Hpost.
        pose proof (completion_of_sent reply ictx req pre post eq_refl
                      Hlock Hcheck Hhead Hrw Hpre Hpost) as Hc.
        change (m_aio_comp req) with c in Hc.
        change (m_off req) with off in Hc.
        change (m_len req) with len in Hc.
        rewrite Hc, Hd.
        destruct (mapped_extents ictx off len); [congruence|].
        reflexivity.
Qed.

(** ** A submitter overtaken inside [queue()] *)

(** [queue()] is its two halves, one after the other. *)
Lemma queue_split (req : AioImageRequest) (lock_required : bool)
    (s : AioImageRequestWQ) :
  queue req lock_required s
  = queue_leave (snd (queue_enter req s)) lock_required
      (fst (queue_enter req s)).
Proof.
  reflexivity.
Qed.

(** [queued_as] is the test of the [aio_*] functions. *)
Lemma exec_queued_as (ev : Event) (s : AioImageRequestWQ) :
  exec ev s
  = match queued_as ev s with
    | Some (req, lock_required) => queue req lock_required s
    | None =>
        match submission_request ev with
        | Some req => run Caller req s
        | None => exec ev s
        end
    end.
Proof.
  destruct ev; cbn [exec queued_as submission_request]; try reflexivity.
  - unfold aio_read. destruct (non_blocking_aio _); reflexivity.
  - unfold aio_write. destruct (_ || _); reflexivity.
  - unfold aio_discard. destruct (_ || _); reflexivity.
  - unfold aio_flush. destruct (_ || _); reflexivity.
Qed.

Lemma nth_error_last {A : Type} (l : list A) (a : A) :
  nth_error (l ++ [a]) (List.length l) = Some a.
Proof.
  induction l as [|b l IH]; [reflexivity|exact IH].
Qed.

Lemma remove_nth_last {A : Type} (l : list A) (a : A) :
  remove_nth (List.length l) (l ++ [a]) = l.
Proof.
  induction l as [|b l IH]; [reflexivity|].
  cbn [List.length app remove_nth]. rewrite IH. reflexivity.
Qed.

(** A submitter that resumes at once has run its operation whole: the
    interleaved steps extend the uninterrupted ones. *)
Lemma enter_leave_whole (ev : Event) (x : Interleaved) :
  steps [Step_enter ev; Step_leave (List.length (inside_queue x))] x
  = step (Step_whole ev) x.
Proof.
  cbn [steps step]. rewrite (exec_queued_as ev (wq x)).
  destruct (queued_as ev (wq x)) as [[req lr]|].
  - rewrite queue_split.
    destruct (queue_enter req (wq x)) as [s first].
    cbn [wq inside_queue fst snd].
    rewrite nth_error_last, remove_nth_last.
    destruct (queue_leave first lr s); reflexivity.
  - destruct (submission_request ev) as [req|].
    + destruct (run Caller req (wq x)) as [s|s]; cbn [outcome];
        [|reflexivity].
      cbn [inside_queue wq].
      rewrite (proj2 (nth_error_None _ _)) by apply Nat.le_refl.
      reflexivity.
    + destruct (exec ev (wq x)) as [s|s]; cbn [outcome]; [|reflexivity].
      cbn [inside_queue wq].
      rewrite (proj2 (nth_error_None _ _)) by apply Nat.le_refl.
      reflexivity.
Qed.

(** Uninterrupted operations are interleaved steps of their own. *)
Lemma steps_whole (evs : list Event) :
  forall s s' inside,
    exec_all evs s = Ok s' ->
    steps (map Step_whole evs) {| wq := s; inside_queue := inside |}
    = Running {| wq := s'; inside_queue := inside |}.
Proof.
  induction evs as [|ev rest IH]; intros s s' inside E;
    cbn [exec_all map steps step wq inside_queue] in *.
  - injection E as <-. reflexivity.
  - destruct (exec ev s) as [s1|s1]; [|discriminate].
    cbn [outcome]. exact (IH s1 s' inside E).
Qed.

(** Every state reached without interruption is an interleaved state with
    nobody inside [queue()]. *)
Lemma reachable_interleaved (s : AioImageRequestWQ) :
  reachable s -> interleaved {| wq := s; inside_queue := [] |}.
Proof.
  intros (ictx & evs & Hw & E).
  exists ictx, (map Step_whole evs). split; [exact Hw|].
  exact (steps_whole evs (init ictx) s [] E).
Qed.

(** The state a worker leaves when it has processed the only queued
    write. *)
Lemma process_last_write_state (req : AioImageRequest)
    (s : AioImageRequestWQ) (w : ImageWatcher) :
  is_write_op req = true ->
  image_watcher (m_image_ctx s) = Some w ->
  m_queued_writes s = 1 ->
  m_in_progress_writes s = 1 ->
  sent_ok (send (m_image_ctx s) req) = true ->
  exists s',
    process req s = Ok s'
    /\ m_queued_writes s' = 0
    /\ m_in_progress_writes s' = 0
    /\ m_items s' = m_items s
    /\ m_processing s' = m_processing s
    /\ image_watcher (m_image_ctx s')
       = Some (set_aio_ops_pending false w)
    /\ filter is_watcher_effect (trace s')
       = filter is_watcher_effect (trace s)
         ++ [Watcher_clear_aio_ops_pending].
Proof.
  intros Hwop Hw Hq Hin Hok. unfold process.
  destruct (run_state Worker req s) as [j Hrun].
  rewrite Hok in Hrun. rewrite Hrun, Hwop. clear Hrun.
  unfold clear_aio_ops_pending, watcher_call.
  cbn [m_queued_writes m_in_progress_writes m_image_ctx image_watcher emit
       set_trace set_image_ctx set_queued_writes set_journal
       set_in_progress_writes set_image_watcher].
  rewrite Hq. cbn [Z.ltb Z.compare negb Z.sub Z.eqb Z.add Z.opp Z.pos_sub].
  cbn [m_queued_writes m_in_progress_writes m_image_ctx image_watcher emit
       set_trace set_image_ctx set_queued_writes set_journal
       set_in_progress_writes set_image_watcher].
  rewrite Hw.
  cbn [m_queued_writes m_in_progress_writes m_image_ctx image_watcher emit
       set_trace set_image_ctx set_queued_writes set_journal
       set_in_progress_writes set_image_watcher].
  rewrite Hin. cbn [Z.ltb Z.compare negb].
  eexists. split; [reflexivity|].
  cbn [m_queued_writes m_in_progress_writes m_image_ctx image_watcher emit
       set_trace set_image_ctx set_queued_writes set_journal
       set_in_progress_writes set_image_watcher m_items m_processing trace].
  repeat (split; [reflexivity|]).
  rewrite !filter_app. cbn [filter is_watcher_effect].
  assert (Hquiet : filter is_watcher_effect
                     (sent_effects (send (m_image_ctx s) req)) = []).
  { pose proof (send_quiet (m_image_ctx s) req) as Hs. unfold quiet in Hs.
    induction Hs as [|e l He Hl IH]; [reflexivity|].
    cbn [filter]. rewrite He. exact IH. }
  rewrite Hquiet, app_nil_r. reflexivity.
Qed.

(** C2 fails on the code: the flag is left raised with no write queued.
    A write is submitted to a fresh queue of an image whose lock is usable
    and whose flag is clear; its submitter is interrupted inside
    [queue()], after the hand-over of the item and before
    [flag_aio_ops_pending()].  A worker takes and processes the write:
    [m_queued_writes] is back to 0 and [process] clears the flag.  The
    submitter then resumes and raises it.  Nothing is queued, nobody is
    inside [queue()], and the flag stays raised. *)
Theorem flag_raised_with_no_write_queued (ictx : ImageCtx)
    (w : ImageWatcher) (c : AioCompletion) (off len : Z) (buf : bufferlist)
    (op_flags : Z) :
  image_watcher ictx = Some w ->
  aio_ops_pending w = false ->
  is_lock_supported w = false \/ is_lock_owner w = true ->
  non_blocking_aio ictx = true ->
  exists x,
    steps (overtaken_write c off len buf op_flags)
      {| wq := init ictx; inside_queue := [] |}
    = Running x
    /\ interleaved x
    /\ inside_queue x = []
    /\ m_items (wq x) = [] /\ m_processing (wq x) = []
    /\ m_queued_writes (wq x) = 0
    /\ image_watcher (m_image_ctx (wq x))
       = Some (set_aio_ops_pending true w)
    /\ filter is_watcher_effect (trace (wq x))
       = [Watcher_clear_aio_ops_pending; Watcher_flag_aio_ops_pending].
Proof.
  intros Hw Hflag Hlock Hnb.
  assert (Husable : lock_usable ictx) by (exists w; auto).
  pose proof (usable_lock_not_required ictx Husable) as Hreq.
  set (req := new_AioImageWrite c off len buf op_flags).
  assert (Hok : sent_ok (send ictx req) = true).
  { unfold send. destruct (ictx_check_result ictx <? 0); [reflexivity|].
    cbn [sent_ok]. subst req. cbn [send_request new_AioImageWrite].
    rewrite write_send_request_ok, Hw.
    destruct Hlock as [-> | ->];
      [reflexivity|destruct (is_lock_supported w); reflexivity]. }
  set (s1 := set_items [req] (set_queued_writes 1 (init ictx))).
  set (sC := set_processing []
               (set_processing [req]
                  (set_items [] (set_in_progress_writes 1 s1)))).
  destruct (process_last_write_state req sC w eq_refl Hw eq_refl eq_refl
              Hok)
    as (s3 & Hproc & Hq3 & Hp3 & Hi3 & Hpr3 & Hw3 & Ht3).
  assert (Hrun : steps (overtaken_write c off len buf op_flags)
                   {| wq := init ictx; inside_queue := [] |}
                 = Running
                     {| wq :=
                          emit [Watcher_flag_aio_ops_pending]
                            (set_image_ctx
                               (set_image_watcher
                                  (Some
                                     (set_aio_ops_pending true
                                        (set_aio_ops_pending false w)))
                                  (m_image_ctx s3))
                               s3);
                        inside_queue := [] |}).
  { unfold overtaken_write. cbn [steps step wq inside_queue queued_as].
    change (m_image_ctx (init ictx)) with ictx.
    rewrite Hnb, Hreq. cbn [orb queue_enter is_write_op new_AioImageWrite].
    change (m_queued_writes (init ictx) + 1 =? 1) with true.
    cbn [andb app wq inside_queue].
    fold req. change (exec Ev_dequeue _) with (exec Ev_dequeue s1).
    rewrite (dequeue_running s1 req [] eq_refl eq_refl).
    set (sB := set_processing _ _).
    cbn [outcome wq inside_queue].
    change (exec (Ev_process 0) sB) with (process req sC).
    rewrite Hproc. cbn [outcome wq inside_queue nth_error remove_nth].
    unfold queue_leave, flag_aio_ops_pending, watcher_call.
    rewrite Hw3. reflexivity. }
  eexists. split; [exact Hrun|].
  split.
  { exists ictx, (overtaken_write c off len buf op_flags).
    split; [|exact Hrun].
    intros w' Hw'. rewrite Hw in Hw'. injection Hw' as <-. exact Hflag. }
  cbn [wq inside_queue m_items m_processing m_queued_writes emit set_trace
       set_image_ctx m_image_ctx image_watcher set_image_watcher trace].
  split; [reflexivity|]. split; [exact Hi3|]. split; [exact Hpr3|].
  split; [exact Hq3|]. split; [destruct w; reflexivity|].
  rewrite filter_app, Ht3. reflexivity.
Qed.

End WorkQueue.

(** ** [common/Logger.cc]: the periodic flush *)

Lemma flushed_app (a b : list Z) (l : LoggerCc.Logger) :
  LoggerCc.flushed (a ++ b) l = LoggerCc.flushed b (LoggerCc.flushed a l).
Proof.
  unfold LoggerCc.flushed. apply fold_left_app.
Qed.

Lemma intervals_S (from interval : Z) (n : nat) :
  LoggerCc.intervals from interval (S n)
  = from :: LoggerCc.intervals (from + interval) interval n.
Proof.
  unfold LoggerCc.intervals. cbn [List.seq map].
  rewrite Z.mul_0_l, Z.add_0_r. f_equal.
  rewrite <- seq_shift, map_map. apply map_ext. intros k.
  rewrite Nat2Z.inj_succ. lia.
Qed.

Lemma catch_up_nothing (interval : Z) (g : LoggerCc.Globals) :
  LoggerCc.set_last_flush (LoggerCc.last_flush g + Z.of_nat 0 * interval)
    (LoggerCc.set_logger_list
       (map (fun p =>
               (fst p,
                LoggerCc.flushed
                  (LoggerCc.intervals (LoggerCc.last_flush g) interval 0)
                  (snd p)))
          (LoggerCc.logger_list g))
       g)
  = g.
Proof.
  destruct g as [a b l c d e f h].
  unfold LoggerCc.set_last_flush, LoggerCc.set_logger_list. cbn.
  rewrite Z.add_0_r. f_equal.
  induction l as [|p l IHl]; [reflexivity|].
  cbn. rewrite IHl. destruct p; reflexivity.
Qed.

(** The catching-up loop, when the interval is positive: it runs once per
    whole interval between [last_flush] and [now_sec]. *)
Lemma catch_up_spec (interval now_sec : Z) (fuel : nat) :
  0 < interval ->
  forall (n : nat) (g : LoggerCc.Globals),
    n = Z.to_nat ((now_sec - LoggerCc.last_flush g) / interval) ->
    (n <= fuel)%nat ->
    LoggerCc.catch_up fuel interval now_sec g
    = Some
        (LoggerCc.set_last_flush
           (LoggerCc.last_flush g + Z.of_nat n * interval)
           (LoggerCc.set_logger_list
              (map (fun p =>
                      (fst p,
                       LoggerCc.flushed
                         (LoggerCc.intervals (LoggerCc.last_flush g)
                            interval n)
                         (snd p)))
                 (LoggerCc.logger_list g))
              g)).
Proof.
  intros Hpos.
  assert (Hzero : forall g,
             now_sec - LoggerCc.last_flush g < interval ->
             Z.to_nat ((now_sec - LoggerCc.last_flush g) / interval)
             = 0%nat).
  { intros g Hlt.
    destruct (Z.le_gt_cases 0 (now_sec - LoggerCc.last_flush g)).
    - rewrite Z.div_small by lia. reflexivity.
    - assert ((now_sec - LoggerCc.last_flush g) / interval < 0)
        by (apply Z.div_lt_upper_bound; lia).
      lia. }
  induction fuel as [|fuel IH]; intros n g Hn Hfuel.
  - cbn [LoggerCc.catch_up].
    destruct (Z.leb_spec interval (now_sec - LoggerCc.last_flush g))
      as [Hle|Hlt].
    + exfalso.
      assert (1 <= (now_sec - LoggerCc.last_flush g) / interval)
        by (apply Z.div_le_lower_bound; lia).
      lia.
    + rewrite Hn, (Hzero g Hlt), catch_up_nothing. reflexivity.
  - cbn [LoggerCc.catch_up].
    destruct (Z.leb_spec interval (now_sec - LoggerCc.last_flush g))
      as [Hle|Hlt].
    + set (g1 := LoggerCc.set_last_flush _ _).
      assert (Hdiv : (now_sec - LoggerCc.last_flush g) / interval
                     = (now_sec - LoggerCc.last_flush g1) / interval + 1).
      { subst g1. cbn [LoggerCc.last_flush LoggerCc.set_last_flush].
        replace (now_sec - LoggerCc.last_flush g)
          with (now_sec - (LoggerCc.last_flush g + interval)
                + 1 * interval) by lia.
        rewrite Z.div_add by lia. reflexivity. }
      assert (Hnn : 0 <= (now_sec - LoggerCc.last_flush g1) / interval).
      { apply Z.div_pos; [|lia]. subst g1.
        cbn [LoggerCc.last_flush LoggerCc.set_last_flush]. lia. }
      destruct n as [|m]; [lia|].
      rewrite (IH m g1) by lia.
      subst g1. rewrite intervals_S.
      destruct g as [a b l c d e f h]. unfold LoggerCc.set_last_flush,
        LoggerCc.set_logger_list. cbn [LoggerCc.last_flush
        LoggerCc.logger_list LoggerCc.start LoggerCc.logger_event
        LoggerCc.logger_timer LoggerCc.allocated LoggerCc.made_dirs
        LoggerCc.closed].
      f_equal. f_equal; [lia|].
      rewrite map_map. apply map_ext. intros p.
      cbn [fst snd]. reflexivity.
    + rewrite Hn, (Hzero g Hlt), catch_up_nothing. reflexivity.
Qed.

(** X20: [flush_all_loggers], when [log_interval] is positive, returns
    after one round of flushes per whole interval that passed between
    [last_flush] and the current second: every logger gets one line of
    values per missed interval, stamped with the start of that interval,
    [last_flush] ends within one interval of the current second, and the
    one event it schedules is due after the current second, at most one
    interval later. *)
Theorem flush_all_loggers_catches_up (U : LoggerCc.utime_ops) (fuel : nat)
    (conf : LoggerCc.md_config_t) (now : LoggerCc.utime_t)
    (g : LoggerCc.Globals) (now_sec : Z) (n : nat) :
  now_sec = LoggerCc.seconds_since_start now g ->
  n = LoggerCc.due (LoggerCc.log_interval conf) now_sec
        (LoggerCc.last_flush g) ->
  0 < LoggerCc.log_interval conf ->
  0 <= LoggerCc.last_flush g <= now_sec ->
  (n <= fuel)%nat ->
  exists g' next,
    LoggerCc.flush_all_loggers fuel conf now g = Some g'
    /\ LoggerCc.logger_list g'
       = map (fun p =>
                (fst p,
                 LoggerCc.flushed
                   (LoggerCc.intervals (LoggerCc.last_flush g)
                      (LoggerCc.log_interval conf) n)
                   (snd p)))
           (LoggerCc.logger_list g)
    /\ LoggerCc.last_flush g'
       = LoggerCc.last_flush g + Z.of_nat n * LoggerCc.log_interval conf
    /\ now_sec - LoggerCc.log_interval conf < LoggerCc.last_flush g'
       <= now_sec
    /\ LoggerCc.logger_event g' = Some (LoggerCc.allocated g)
    /\ LoggerCc.logger_timer g'
       = LoggerCc.logger_timer g ++ [(next, LoggerCc.allocated g)]
    /\ LoggerCc.sec (LoggerCc.start g') + now_sec < LoggerCc.sec next
       <= LoggerCc.sec (LoggerCc.start g') + now_sec
          + LoggerCc.log_interval conf.
Proof.
  intros Hnow Hn Hpos Hlast Hfuel.
  unfold LoggerCc.flush_all_loggers.
  change (if LoggerCc.utime_lt now (LoggerCc.start g) then now
          else LoggerCc.start g) with (LoggerCc.start_at now g).
  change (to_int (LoggerCc.sec
                    (LoggerCc.utime_sub now (LoggerCc.start_at now g))))
    with (LoggerCc.seconds_since_start now g).
  rewrite <- Hnow.
  set (g0 := LoggerCc.set_start (LoggerCc.start_at now g) g).
  rewrite (catch_up_spec (LoggerCc.log_interval conf) now_sec fuel Hpos n
             g0 Hn Hfuel).
  assert (Hbound : now_sec - LoggerCc.log_interval conf
                   < LoggerCc.last_flush g
                     + Z.of_nat n * LoggerCc.log_interval conf
                   <= now_sec).
  { rewrite Hn. unfold LoggerCc.due.
    set (d := now_sec - LoggerCc.last_flush g).
    set (i := LoggerCc.log_interval conf) in *.
    assert (0 <= d / i) by (apply Z.div_pos; lia).
    rewrite Z2Nat.id by assumption.
    pose proof (Z.mul_div_le d i Hpos).
    pose proof (Z.mul_succ_div_gt d i Hpos).
    lia. }
  eexists _, _. split; [reflexivity|].
  cbn [LoggerCc.logger_list LoggerCc.last_flush LoggerCc.logger_event
       LoggerCc.logger_timer LoggerCc.start LoggerCc.allocated
       LoggerCc.sec LoggerCc.set_last_flush LoggerCc.set_logger_list
       LoggerCc.set_start g0].
  subst g0.
  cbn [LoggerCc.logger_list LoggerCc.last_flush LoggerCc.logger_event
       LoggerCc.logger_timer LoggerCc.start LoggerCc.allocated
       LoggerCc.sec LoggerCc.set_last_flush LoggerCc.set_logger_list
       LoggerCc.set_start].
  split; [reflexivity|]. split; [reflexivity|].
  split; [exact Hbound|]. split; [reflexivity|]. split; [reflexivity|].
  cbn [LoggerCc.sec]. lia.
Qed.

(** X21: with [log_interval] zero the catching-up loop of
    [flush_all_loggers] never ends once the current second has reached
    [last_flush]: [last_flush] does not advance.  Constructing the first
    logger, which resets [last_flush] to zero and calls
    [flush_all_loggers], then does not return either. *)
Theorem zero_interval_never_returns (U : LoggerCc.utime_ops)
    (conf : LoggerCc.md_config_t) (now : LoggerCc.utime_t)
    (g : LoggerCc.Globals) :
  LoggerCc.log_interval conf = 0 ->
  (LoggerCc.last_flush g <= LoggerCc.seconds_since_start now g ->
   forall fuel, LoggerCc.flush_all_loggers fuel conf now g = None)
  /\ (forall cwd now0 this fn type_version,
        LoggerCc.logger_list g = [] ->
        0 <= LoggerCc.seconds_since_start now
               (if LoggerCc.clock_tare conf then g
                else LoggerCc.set_start now0 g) ->
        forall fuel,
          LoggerCc.new_Logger fuel conf cwd now0 now this fn type_version g
          = None).
Proof.
  intros Hzero.
  assert (Hloop : forall now_sec fuel g0,
             LoggerCc.last_flush g0 <= now_sec ->
             LoggerCc.catch_up fuel 0 now_sec g0 = None).
  { intros now_sec fuel. induction fuel as [|fuel IH]; intros g0 Hle;
      cbn [LoggerCc.catch_up];
      destruct (Z.leb_spec 0 (now_sec - LoggerCc.last_flush g0));
      try lia; [reflexivity|].
    apply IH. cbn [LoggerCc.last_flush LoggerCc.set_last_flush]. lia. }
  assert (Hflush : forall g0,
             LoggerCc.last_flush g0
             <= LoggerCc.seconds_since_start now g0 ->
             forall fuel,
               LoggerCc.flush_all_loggers fuel conf now g0 = None).
  { intros g0 Hle fuel. unfold LoggerCc.flush_all_loggers.
    rewrite Hzero.
    change (if LoggerCc.utime_lt now (LoggerCc.start g0) then now
            else LoggerCc.start g0) with (LoggerCc.start_at now g0).
    change (to_int (LoggerCc.sec
                      (LoggerCc.utime_sub now (LoggerCc.start_at now g0))))
      with (LoggerCc.seconds_since_start now g0).
    rewrite Hloop; [reflexivity|exact Hle]. }
  split; [apply Hflush|].
  intros cwd now0 this fn type_version Hempty Hsec fuel.
  unfold LoggerCc.new_Logger.
  destruct (LoggerCc.logger_filename conf cwd fn) as [name dirs].
  cbn [LoggerCc.logger_list]. rewrite Hempty.
  rewrite Hflush; [reflexivity|].
  destruct (LoggerCc.clock_tare conf); exact Hsec.
Qed.

(** ** [common/Logger.cc]: the lines of one logger *)

Lemma flush_cadence (v : Z) (at_stamps : list Z) :
  forall (l : LoggerCc.Logger) (k : Z),
    LoggerCc.type_version l = v ->
    LoggerCc.wrote_header l = v ->
    0 <= LoggerCc.wrote_header_last l <= 10 ->
    k mod 11 = (LoggerCc.wrote_header_last l + 1) mod 11 ->
    LoggerCc.out (LoggerCc.flushed at_stamps l)
    = LoggerCc.out l
      ++ flat_map (LoggerCc.lines_of_flush v) (LoggerCc.indexed k at_stamps).
Proof.
  induction at_stamps as [|s rest IH]; intros l k Hv Hw Hj Hk.
  - cbn. rewrite app_nil_r. reflexivity.
  - change (LoggerCc.flushed (s :: rest) l)
      with (LoggerCc.flushed rest (LoggerCc._flush s l)).
    cbn [LoggerCc.indexed flat_map].
    unfold LoggerCc.lines_of_flush at 1. cbn [fst snd].
    assert (Hstep : (k + 1) mod 11
                    = (k mod 11 + 1) mod 11)
      by (rewrite Z.add_mod_idemp_l by lia; reflexivity).
    unfold LoggerCc._flush. rewrite Hw, Hv, Z.eqb_refl. cbn [negb orb].
    destruct (Z.ltb_spec 10 (LoggerCc.wrote_header_last l + 1)) as [Hh|Hh].
    + assert (Hl : LoggerCc.wrote_header_last l = 10) by lia.
      rewrite Hl in Hk. change ((10 + 1) mod 11) with 0 in Hk.
      rewrite Hk. cbn [Z.eqb].
      rewrite (IH _ (k + 1)); cbn [LoggerCc.type_version
        LoggerCc.wrote_header LoggerCc.wrote_header_last LoggerCc.out];
        try reflexivity; try lia.
      * rewrite <- app_assoc. reflexivity.
      * rewrite Hstep, Hk. reflexivity.
    + rewrite (Z.mod_small (LoggerCc.wrote_header_last l + 1)) in Hk
        by lia.
      destruct (Z.eqb_spec (k mod 11) 0) as [H0|H0]; [lia|].
      rewrite (IH _ (k + 1)); cbn [LoggerCc.type_version
        LoggerCc.wrote_header LoggerCc.wrote_header_last LoggerCc.out];
        try assumption; try lia.
      * rewrite <- app_assoc. reflexivity.
      * rewrite Hstep, Hk. reflexivity.
Qed.

(** X22: the header cadence of [_flush]: a logger as its constructor
    leaves it, whose type has a version other than [-1] that does not
    change, writes the header with its first flush and then with every
    eleventh after it (the flushes number 0, 11, 22, ...); every flush,
    the one that writes the header included, writes one line of values,
    stamped with the [last_flush] it was called at, so eleven lines of
    values follow each header before the next. *)
Theorem header_every_eleventh_flush (l : LoggerCc.Logger)
    (at_stamps : list Z) :
  LoggerCc.wrote_header l = -1 ->
  LoggerCc.wrote_header_last l = 0 ->
  LoggerCc.type_version l <> -1 ->
  LoggerCc.out (LoggerCc.flushed at_stamps l)
  = LoggerCc.out l
    ++ flat_map (LoggerCc.lines_of_flush (LoggerCc.type_version l))
         (LoggerCc.indexed 0 at_stamps).
Proof.
  intros Hw Hj Hv. destruct at_stamps as [|s rest].
  - cbn. rewrite app_nil_r. reflexivity.
  - change (LoggerCc.flushed (s :: rest) l)
      with (LoggerCc.flushed rest (LoggerCc._flush s l)).
    cbn [LoggerCc.indexed flat_map].
    unfold LoggerCc.lines_of_flush at 1. cbn [fst snd].
    change (0 mod 11 =? 0) with true. cbv iota.
    assert (Hf : LoggerCc._flush s l
                 = {| LoggerCc.filename := LoggerCc.filename l;
                      LoggerCc.type_version := LoggerCc.type_version l;
                      LoggerCc.wrote_header := LoggerCc.type_version l;
                      LoggerCc.wrote_header_last := 0;
                      LoggerCc.out :=
                        LoggerCc.out l
                        ++ [LoggerCc.Header (LoggerCc.type_version l);
                            LoggerCc.Values s] |}).
    { unfold LoggerCc._flush. rewrite Hw.
      destruct (Z.eqb_spec (-1) (LoggerCc.type_version l)) as [E|E];
        [congruence|reflexivity]. }
    rewrite Hf.
    rewrite (flush_cadence (LoggerCc.type_version l) rest _ (0 + 1));
      cbn [LoggerCc.type_version LoggerCc.wrote_header
           LoggerCc.wrote_header_last LoggerCc.out];
      try reflexivity; try lia.
    rewrite <- app_assoc. reflexivity.
Qed.

(** ** [common/Logger.cc]: constructing and destroying loggers *)

(** X23: [Logger::Logger] writes no line: when it returns ([log_interval]
    positive), the one change to [logger_list] is the new logger at its
    end, with an empty stream and no header written, so the first flush
    catches up before the logger is listed.  The file it opens is the
    relative [log/[log_name/]fn] whatever [use_abspaths] and the working
    directory are: the absolute prefix is overwritten. *)
Theorem new_Logger_lists_unwritten_logger (U : LoggerCc.utime_ops)
    (fuel : nat) (conf : LoggerCc.md_config_t) (cwd : String.string)
    (now0 now : LoggerCc.utime_t) (this : nat) (fn : String.string)
    (type_version : Z) (g : LoggerCc.Globals) :
  0 < LoggerCc.log_interval conf ->
  (LoggerCc.due (LoggerCc.log_interval conf)
     (LoggerCc.seconds_since_start now
        (if LoggerCc.clock_tare conf then g else LoggerCc.set_start now0 g))
     0 <= fuel)%nat ->
  exists g',
    LoggerCc.new_Logger fuel conf cwd now0 now this fn type_version g
    = Some g'
    /\ LoggerCc.logger_list g'
       = LoggerCc.logger_list g
         ++ [(this,
              {| LoggerCc.filename := LoggerCc.relative_name conf fn;
                 LoggerCc.type_version := type_version;
                 LoggerCc.wrote_header := -1;
                 LoggerCc.wrote_header_last := 0;
                 LoggerCc.out := [] |})]
    /\ LoggerCc.closed g' = LoggerCc.closed g.
Proof.
  intros Hpos Hfuel. unfold LoggerCc.new_Logger.
  assert (Hname : fst (LoggerCc.logger_filename conf cwd fn)
                  = LoggerCc.relative_name conf fn).
  { unfold LoggerCc.logger_filename, LoggerCc.relative_name.
    destruct (LoggerCc.log_name conf); reflexivity. }
  destruct (LoggerCc.logger_filename conf cwd fn) as [name dirs].
  cbn [fst] in Hname. subst name. cbn [LoggerCc.logger_list].
  destruct (LoggerCc.logger_list g) as [|p rest] eqn:Hlist.
  - set (g0 := LoggerCc.set_last_flush 0 _).
    unfold LoggerCc.flush_all_loggers.
    rewrite (catch_up_spec (LoggerCc.log_interval conf) _ fuel Hpos
               (LoggerCc.due (LoggerCc.log_interval conf)
                  (LoggerCc.seconds_since_start now
                     (if LoggerCc.clock_tare conf then g
                      else LoggerCc.set_start now0 g))
                  0)).
    + eexists. split; [reflexivity|].
      subst g0. destruct (LoggerCc.clock_tare conf);
        cbn [LoggerCc.logger_list LoggerCc.set_logger_list
             LoggerCc.set_last_flush LoggerCc.set_start LoggerCc.closed];
        try rewrite Hlist; split; reflexivity.
    + subst g0. destruct (LoggerCc.clock_tare conf); reflexivity.
    + exact Hfuel.
  - eexists. split; [reflexivity|].
    cbn [LoggerCc.logger_list LoggerCc.set_logger_list LoggerCc.closed].
    try rewrite Hlist. split; reflexivity.
Qed.

(** ** [common/Logger.cc]: what every sequence of calls keeps *)

Lemma stamps_flush (L : Z) (l : LoggerCc.Logger) :
  LoggerCc.stamps (LoggerCc.out (LoggerCc._flush L l))
  = LoggerCc.stamps (LoggerCc.out l) ++ [L].
Proof.
  unfold LoggerCc._flush, LoggerCc.stamps.
  destruct (negb _ || _); cbn [LoggerCc.out]; rewrite flat_map_app;
    reflexivity.
Qed.

Lemma increasing_snoc (xs : list Z) (L : Z) :
  LoggerCc.increasing xs -> LoggerCc.below L xs ->
  LoggerCc.increasing (xs ++ [L]).
Proof.
  unfold LoggerCc.below.
  induction xs as [|a xs IH]; intros Hinc Hb; [cbn; auto|].
  inversion Hb as [|? ? Ha Hxs]; subst.
  destruct Hinc as [Hhead Htail]. cbn [app LoggerCc.increasing].
  split; [|apply IH; assumption].
  destruct xs as [|b xs]; cbn [app]; [exact Ha|exact Hhead].
Qed.

Lemma flush_well_stamped (i L : Z) (l : LoggerCc.Logger) :
  0 < i -> 0 <= L -> L mod i = 0 ->
  LoggerCc.well_stamped i l ->
  LoggerCc.below L (LoggerCc.stamps (LoggerCc.out l)) ->
  LoggerCc.well_stamped i (LoggerCc._flush L l)
  /\ LoggerCc.below (L + i)
       (LoggerCc.stamps (LoggerCc.out (LoggerCc._flush L l))).
Proof.
  intros Hi HL Hmod [Hinc Hgrid] Hb.
  unfold LoggerCc.well_stamped. rewrite stamps_flush.
  split; [split|].
  - apply increasing_snoc; assumption.
  - unfold LoggerCc.on_grid in *. apply Forall_app. split; [exact Hgrid|].
    constructor; [split; assumption|constructor].
  - unfold LoggerCc.below in *. apply Forall_app. split.
    + eapply Forall_impl; [|exact Hb]. cbv beta. intros a Ha. lia.
    + constructor; [lia|constructor].
Qed.

Lemma catch_up_stamps_inv (i now_sec : Z) (fuel : nat) :
  0 < i ->
  forall g g',
    LoggerCc.stamps_inv i g ->
    LoggerCc.catch_up fuel i now_sec g = Some g' ->
    LoggerCc.stamps_inv i g'.
Proof.
  intros Hi. induction fuel as [|fuel IH]; intros g g' Hinv Hc;
    cbn [LoggerCc.catch_up] in Hc;
    destruct (i <=? now_sec - LoggerCc.last_flush g);
    try discriminate; try (injection Hc as <-; exact Hinv).
  apply IH in Hc; [exact Hc|].
  destruct Hinv as (H0 & Hmod & Hlive & Hclosed).
  unfold LoggerCc.stamps_inv.
  cbn [LoggerCc.last_flush LoggerCc.logger_list LoggerCc.closed
       LoggerCc.set_last_flush LoggerCc.set_logger_list].
  split; [lia|]. split.
  - replace (LoggerCc.last_flush g + i)
      with (LoggerCc.last_flush g + 1 * i) by lia.
    rewrite Z.mod_add by lia. exact Hmod.
  - split; [|exact Hclosed].
    apply Forall_map. eapply Forall_impl; [|exact Hlive].
    cbv beta. intros p [Hw Hb]. cbn [snd].
    apply flush_well_stamped; assumption.
Qed.

Lemma flush_all_loggers_stamps_inv (U : LoggerCc.utime_ops) (fuel : nat)
    (conf : LoggerCc.md_config_t) (now : LoggerCc.utime_t)
    (g g' : LoggerCc.Globals) :
  0 < LoggerCc.log_interval conf ->
  LoggerCc.stamps_inv (LoggerCc.log_interval conf) g ->
  LoggerCc.flush_all_loggers fuel conf now g = Some g' ->
  LoggerCc.stamps_inv (LoggerCc.log_interval conf) g'.
Proof.
  intros Hi Hinv Hf. unfold LoggerCc.flush_all_loggers in Hf.
  match type of Hf with
  | match LoggerCc.catch_up ?f ?i ?n ?g0 with _ => _ end = _ =>
      destruct (LoggerCc.catch_up f i n g0) as [g1|] eqn:Hc;
        [|discriminate];
      apply (catch_up_stamps_inv i n f Hi g0 g1) in Hc; [|exact Hinv]
  end.
  injection Hf as <-. exact Hc.
Qed.

Lemma find_logger_In (this : nat) (l : LoggerCc.Logger)
    (ls : list (nat * LoggerCc.Logger)) :
  LoggerCc.find_logger this ls = Some l -> In (this, l) ls.
Proof.
  induction ls as [|p ls IH]; cbn [LoggerCc.find_logger];
    [discriminate|].
  destruct (Nat.eqb_spec (fst p) this) as [E|E]; intros H.
  - injection H as <-. left. destruct p; cbn in E; subst. reflexivity.
  - right. apply IH. exact H.
Qed.

Lemma call_stamps_inv (U : LoggerCc.utime_ops) (fuel : nat)
    (conf : LoggerCc.md_config_t) (c : LoggerCc.Call)
    (g g' : LoggerCc.Globals) :
  0 < LoggerCc.log_interval conf ->
  LoggerCc.stamps_inv (LoggerCc.log_interval conf) g ->
  LoggerCc.call fuel conf c g = Some g' ->
  LoggerCc.stamps_inv (LoggerCc.log_interval conf) g'.
Proof.
  intros Hi Hinv Hc. destruct c as [this fn tv cwd now0 now|this|s|ev now];
    cbn [LoggerCc.call] in Hc.
  - destruct (LoggerCc.find_logger this (LoggerCc.logger_list g));
      [discriminate|].
    unfold LoggerCc.new_Logger in Hc.
    destruct (LoggerCc.logger_filename conf cwd fn) as [name dirs].
    cbn [LoggerCc.logger_list] in Hc.
    assert (Hnew : forall g1,
               LoggerCc.stamps_inv (LoggerCc.log_interval conf) g1 ->
               LoggerCc.stamps_inv (LoggerCc.log_interval conf)
                 (LoggerCc.set_logger_list
                    (LoggerCc.logger_list g1
                     ++ [(this,
                          {| LoggerCc.filename := name;
                             LoggerCc.type_version := tv;
                             LoggerCc.wrote_header := -1;
                             LoggerCc.wrote_header_last := 0;
                             LoggerCc.out := [] |})])
                    g1)).
    { intros g1 (H0 & Hmod & Hlive & Hclosed).
      unfold LoggerCc.stamps_inv.
      cbn [LoggerCc.last_flush LoggerCc.logger_list LoggerCc.closed
           LoggerCc.set_logger_list].
      split; [exact H0|]. split; [exact Hmod|]. split; [|exact Hclosed].
      apply Forall_app. split; [exact Hlive|].
      constructor; [|constructor].
      cbn. split; [split; [exact I|constructor]|constructor]. }
    destruct (LoggerCc.logger_list g) as [|p rest] eqn:Hlist.
    + match type of Hc with
      | match LoggerCc.flush_all_loggers ?f ?c ?n ?g0 with _ => _ end = _ =>
          destruct (LoggerCc.flush_all_loggers f c n g0) as [g1|] eqn:Hf;
            [|discriminate];
          apply (flush_all_loggers_stamps_inv U f c n g0 g1 Hi) in Hf
      end.
      * injection Hc as <-. apply Hnew. exact Hf.
      * destruct Hinv as (H0 & Hmod & Hlive & Hclosed).
        unfold LoggerCc.stamps_inv.
        destruct (LoggerCc.clock_tare conf);
          cbn [LoggerCc.last_flush LoggerCc.logger_list LoggerCc.closed
               LoggerCc.set_last_flush LoggerCc.set_start];
          (split; [lia|]); (split; [apply Z.mod_0_l; lia|]);
          (split; [constructor|exact Hclosed]).
    + injection Hc as <-.
      match goal with
      | |- LoggerCc.stamps_inv _ (LoggerCc.set_logger_list _ ?g1) =>
          assert (Hg1 : LoggerCc.stamps_inv (LoggerCc.log_interval conf)
                          g1)
      end.
      { destruct Hinv as (H0 & Hmod & Hlive & Hclosed).
        unfold LoggerCc.stamps_inv.
        cbn [LoggerCc.last_flush LoggerCc.logger_list LoggerCc.closed].
        rewrite Hlist in Hlive. auto. }
      apply Hnew in Hg1. exact Hg1.
  - destruct (LoggerCc.find_logger this (LoggerCc.logger_list g)) as [l|]
      eqn:Hfind; [|discriminate].
    injection Hc as <-. apply find_logger_In in Hfind.
    destruct Hinv as (H0 & Hmod & Hlive & Hclosed).
    unfold LoggerCc.stamps_inv, LoggerCc.delete_Logger.
    cbn [LoggerCc.last_flush LoggerCc.logger_list LoggerCc.closed].
    split; [exact H0|]. split; [exact Hmod|]. split.
    + apply Forall_forall. intros p Hp. apply filter_In in Hp.
      rewrite Forall_forall in Hlive. apply Hlive. apply Hp.
    + apply Forall_app. split; [exact Hclosed|].
      constructor; [|constructor].
      rewrite Forall_forall in Hlive.
      destruct (Hlive _ Hfind) as [Hw Hb]. cbn [snd] in Hw, Hb.
      apply (flush_well_stamped _ _ l Hi H0 Hmod Hw Hb).
  - injection Hc as <-. exact Hinv.
  - destruct (LoggerCc.is_scheduled ev g); [|discriminate].
    unfold LoggerCc.finish in Hc.
    cbn [LoggerCc.logger_event LoggerCc.unschedule] in Hc.
    assert (Hu : LoggerCc.stamps_inv (LoggerCc.log_interval conf)
                   (LoggerCc.unschedule ev g)) by exact Hinv.
    destruct (LoggerCc.logger_event g) as [e|];
      [|injection Hc as <-; exact Hu].
    destruct (Nat.eqb e ev); [|injection Hc as <-; exact Hu].
    apply (flush_all_loggers_stamps_inv U _ _ _ _ _ Hi) in Hc;
      [exact Hc|exact Hu].
Qed.

Lemma calls_keep (U : LoggerCc.utime_ops) (conf : LoggerCc.md_config_t)
    (P : LoggerCc.Globals -> Prop) :
  (forall fuel c g g',
     P g -> LoggerCc.call fuel conf c g = Some g' -> P g') ->
  forall fuel cs g g',
    P g -> LoggerCc.calls fuel conf cs g = Some g' -> P g'.
Proof.
  intros Hstep fuel cs. induction cs as [|c cs IH]; intros g g' Hg Hcs;
    cbn [LoggerCc.calls] in Hcs.
  - injection Hcs as <-. exact Hg.
  - destruct (LoggerCc.call fuel conf c g) as [g1|] eqn:Hc;
      [|discriminate].
    apply (IH g1 g'); [|exact Hcs]. apply (Hstep fuel c g g1 Hg Hc).
Qed.

(** X24: whatever the process did to the loggers, the lines of values of
    every logger, listed or destroyed, carry strictly growing time stamps
    that are multiples of [log_interval] (positive), and [last_flush] is
    ahead of every line of a listed logger: no logger writes an interval
    twice, although [last_flush] is reset when the first logger is
    made. *)
Theorem stamps_grow_on_the_grid (U : LoggerCc.utime_ops)
    (conf : LoggerCc.md_config_t) (g : LoggerCc.Globals) :
  0 < LoggerCc.log_interval conf ->
  LoggerCc.reachable conf g ->
  (forall this l,
     In (this, l) (LoggerCc.logger_list g) ->
     LoggerCc.well_stamped (LoggerCc.log_interval conf) l
     /\ LoggerCc.below (LoggerCc.last_flush g)
          (LoggerCc.stamps (LoggerCc.out l)))
  /\ (forall l,
        In l (LoggerCc.closed g) ->
        LoggerCc.well_stamped (LoggerCc.log_interval conf) l).
Proof.
  intros Hi (fuel & cs & Hcs).
  assert (Hinv : LoggerCc.stamps_inv (LoggerCc.log_interval conf) g).
  { apply (calls_keep U conf
             (LoggerCc.stamps_inv (LoggerCc.log_interval conf)))
      with (fuel := fuel) (cs := cs) (g := LoggerCc.initial).
    - intros f c g0 g1 H0 H1.
      exact (call_stamps_inv U f conf c g0 g1 Hi H0 H1).
    - unfold LoggerCc.stamps_inv. cbn.
      split; [lia|]. split; [reflexivity|].
      split; constructor.
    - exact Hcs. }
  destruct Hinv as (_ & _ & Hlive & Hclosed).
  rewrite Forall_forall in Hlive, Hclosed. split.
  - intros this l Hin. exact (Hlive _ Hin).
  - exact Hclosed.
Qed.

Lemma catch_up_frame (i now_sec : Z) (fuel : nat) :
  forall g g',
    LoggerCc.catch_up fuel i now_sec g = Some g' ->
    LoggerCc.logger_event g' = LoggerCc.logger_event g
    /\ LoggerCc.logger_timer g' = LoggerCc.logger_timer g
    /\ LoggerCc.allocated g' = LoggerCc.allocated g
    /\ List.length (LoggerCc.logger_list g')
       = List.length (LoggerCc.logger_list g).
Proof.
  induction fuel as [|fuel IH]; intros g g' Hc;
    cbn [LoggerCc.catch_up] in Hc;
    destruct (i <=? now_sec - LoggerCc.last_flush g);
    try discriminate; try (injection Hc as <-; auto).
  apply IH in Hc.
  cbn [LoggerCc.logger_event LoggerCc.logger_timer LoggerCc.allocated
       LoggerCc.logger_list LoggerCc.set_last_flush
       LoggerCc.set_logger_list] in Hc.
  destruct Hc as (H1 & H2 & H3 & H4).
  split; [exact H1|]. split; [exact H2|]. split; [exact H3|].
  rewrite H4. apply length_map.
Qed.

(** The event [flush_all_loggers] leaves in [logger_event] is scheduled. *)
Lemma flush_all_loggers_schedules (U : LoggerCc.utime_ops) (fuel : nat)
    (conf : LoggerCc.md_config_t) (now : LoggerCc.utime_t)
    (g g' : LoggerCc.Globals) :
  LoggerCc.flush_all_loggers fuel conf now g = Some g' ->
  (exists e,
     LoggerCc.logger_event g' = Some e
     /\ LoggerCc.is_scheduled e g' = true)
  /\ List.length (LoggerCc.logger_list g')
     = List.length (LoggerCc.logger_list g).
Proof.
  intros Hf. unfold LoggerCc.flush_all_loggers in Hf.
  match type of Hf with
  | match LoggerCc.catch_up ?f ?i ?n ?g0 with _ => _ end = _ =>
      destruct (LoggerCc.catch_up f i n g0) as [g1|] eqn:Hc;
        [|discriminate];
      apply catch_up_frame in Hc
  end.
  destruct Hc as (_ & _ & _ & Hnil). injection Hf as <-. split.
  - exists (LoggerCc.allocated g1). split; [reflexivity|].
    unfold LoggerCc.is_scheduled. cbn [LoggerCc.logger_timer].
    rewrite existsb_app. cbn [existsb snd]. rewrite Nat.eqb_refl.
    rewrite orb_true_r. reflexivity.
  - exact Hnil.
Qed.

Lemma is_scheduled_unschedule (e ev : nat) (g : LoggerCc.Globals) :
  e <> ev ->
  LoggerCc.is_scheduled e (LoggerCc.unschedule ev g)
  = LoggerCc.is_scheduled e g.
Proof.
  intros Hne. unfold LoggerCc.is_scheduled, LoggerCc.unschedule.
  cbn [LoggerCc.logger_timer].
  induction (LoggerCc.logger_timer g) as [|p t IH]; [reflexivity|].
  cbn [filter existsb].
  destruct (Nat.eqb_spec (snd p) ev) as [E|E]; cbn [negb existsb].
  - rewrite IH. destruct (Nat.eqb_spec (snd p) e); [congruence|].
    reflexivity.
  - rewrite IH. reflexivity.
Qed.

Lemma call_event_inv (U : LoggerCc.utime_ops) (fuel : nat)
    (conf : LoggerCc.md_config_t) (c : LoggerCc.Call)
    (g g' : LoggerCc.Globals) :
  LoggerCc.event_inv g ->
  LoggerCc.call fuel conf c g = Some g' ->
  LoggerCc.event_inv g'.
Proof.
  intros Hinv Hc. destruct c as [this fn tv cwd now0 now|this|s|ev now];
    cbn [LoggerCc.call] in Hc.
  - destruct (LoggerCc.find_logger this (LoggerCc.logger_list g));
      [discriminate|].
    unfold LoggerCc.new_Logger in Hc.
    destruct (LoggerCc.logger_filename conf cwd fn) as [name dirs].
    cbn [LoggerCc.logger_list] in Hc. unfold LoggerCc.event_inv in Hinv.
    destruct (LoggerCc.logger_list g) as [|p rest] eqn:Hlist.
    + match type of Hc with
      | match LoggerCc.flush_all_loggers ?f ?c ?n ?g0 with _ => _ end = _ =>
          destruct (LoggerCc.flush_all_loggers f c n g0) as [g1|] eqn:Hf;
            [|discriminate];
          apply flush_all_loggers_schedules in Hf
      end.
      destruct Hf as [He Hnil]. injection Hc as <-.
      unfold LoggerCc.event_inv.
      cbn [LoggerCc.logger_list LoggerCc.set_logger_list].
      destruct (LoggerCc.logger_list g1); exact He.
    + injection Hc as <-. unfold LoggerCc.event_inv.
      cbn [LoggerCc.logger_list LoggerCc.set_logger_list].
      try rewrite Hlist. exact Hinv.
  - destruct (LoggerCc.find_logger this (LoggerCc.logger_list g)) as [l|];
      [|discriminate].
    injection Hc as <-. unfold LoggerCc.event_inv, LoggerCc.delete_Logger.
    cbn [LoggerCc.logger_list LoggerCc.logger_event].
    destruct (filter _ (LoggerCc.logger_list g)) as [|q rest] eqn:Hrest;
      [reflexivity|].
    unfold LoggerCc.event_inv in Hinv.
    destruct (LoggerCc.logger_list g); [discriminate|exact Hinv].
  - injection Hc as <-. exact Hinv.
  - destruct (LoggerCc.is_scheduled ev g); [|discriminate].
    unfold LoggerCc.finish in Hc.
    cbn [LoggerCc.logger_event LoggerCc.unschedule] in Hc.
    unfold LoggerCc.event_inv in Hinv.
    destruct (LoggerCc.logger_event g) as [e|] eqn:Hev.
    + destruct (Nat.eqb_spec e ev) as [E|E].
      * apply flush_all_loggers_schedules in Hc.
        destruct Hc as [He Hnil]. unfold LoggerCc.event_inv.
        destruct (LoggerCc.logger_list g') as [|q rest]; [|exact He].
        cbn [LoggerCc.logger_list LoggerCc.set_logger_event
             LoggerCc.unschedule] in Hnil.
        destruct (LoggerCc.logger_list g) as [|q rest] eqn:Hlist;
          [discriminate|discriminate].
      * injection Hc as <-. unfold LoggerCc.event_inv.
        cbn [LoggerCc.logger_list LoggerCc.unschedule
             LoggerCc.logger_event].
        destruct (LoggerCc.logger_list g) as [|q rest];
          [discriminate|].
        destruct Hinv as (e' & He' & Hs). injection He' as <-.
        exists e. split; [exact Hev|].
        rewrite (is_scheduled_unschedule e ev g E). exact Hs.
    + injection Hc as <-. unfold LoggerCc.event_inv.
      cbn [LoggerCc.logger_list LoggerCc.unschedule
           LoggerCc.logger_event].
      destruct (LoggerCc.logger_list g) as [|q rest]; [exact Hev|].
      destruct Hinv as (e' & He' & _). discriminate.
Qed.

(** X25: the chain of timer events: whatever the process did, while a
    logger is listed the event [logger_event] names is scheduled, so the
    flushing goes on; once none is listed [logger_event] is null, and
    every event still scheduled is stale: when it fires, [finish] flushes
    nothing and schedules nothing. *)
Theorem flush_event_live_while_loggers_exist (U : LoggerCc.utime_ops)
    (conf : LoggerCc.md_config_t) (g : LoggerCc.Globals) :
  LoggerCc.reachable conf g ->
  (LoggerCc.logger_list g <> [] ->
   exists e,
     LoggerCc.logger_event g = Some e /\ LoggerCc.is_scheduled e g = true)
  /\ (LoggerCc.logger_list g = [] ->
      LoggerCc.logger_event g = None
      /\ forall fuel ev now,
           LoggerCc.is_scheduled ev g = true ->
           LoggerCc.call fuel conf (LoggerCc.Call_timer ev now) g
           = Some (LoggerCc.unschedule ev g)).
Proof.
  intros (fuel & cs & Hcs).
  assert (Hinv : LoggerCc.event_inv g).
  { apply (calls_keep U conf LoggerCc.event_inv)
      with (fuel := fuel) (cs := cs) (g := LoggerCc.initial).
    - intros f c g0 g1 H0 H1. exact (call_event_inv U f conf c g0 g1 H0 H1).
    - reflexivity.
    - exact Hcs. }
  unfold LoggerCc.event_inv in Hinv. split.
  - intros Hne. destruct (LoggerCc.logger_list g); [congruence|exact Hinv].
  - intros Hnil. rewrite Hnil in Hinv. split; [exact Hinv|].
    intros f ev now Hs. cbn [LoggerCc.call]. rewrite Hs.
    unfold LoggerCc.finish. cbn [LoggerCc.logger_event LoggerCc.unschedule].
    rewrite Hinv. reflexivity.
Qed.

(** ** The statements at concrete inputs *)

(** C1 as stated fails: with the lock supported and not owned, the second
    write enqueued after a first one does not call [request_lock]. *)
Lemma request_lock_not_on_every_enqueue :
  ~ (forall (flush_is_write_op : bool) (req : AioImageRequest)
        (s : AioImageRequestWQ) (w : ImageWatcher),
       is_write_op flush_is_write_op req = true ->
       image_watcher (m_image_ctx s) = Some w ->
       is_lock_supported w = true ->
       is_lock_owner w = false ->
       In Watcher_request_lock
         (emitted s (queue flush_is_write_op req (is_lock_required s) s))).
Proof.
  intros H.
  specialize (H true (new_AioImageWrite 2%nat 512 512 [] 0)
                (state_of
                   (aio_write true 1%nat 0 512 [] 0
                      (init (example_ictx 4096 (Some watcher_unlocked) None
                               true false))))
                (set_aio_ops_pending true watcher_unlocked)
                eq_refl eq_refl eq_refl eq_refl).
  vm_compute in H. exact H.
Qed.

Lemma request_lock_on_first_queued_write_witness :
  emitted (init (example_ictx 4096 (Some watcher_unlocked) None true false))
    (queue true (new_AioImageWrite 1%nat 0 512 [] 0) true
       (init (example_ictx 4096 (Some watcher_unlocked) None true false)))
  = [Watcher_flag_aio_ops_pending; Watcher_request_lock].
Proof.
  exact (proj2 (request_lock_on_first_queued_write true
                  (new_AioImageWrite 1%nat 0 512 [] 0)
                  (init (example_ictx 4096 (Some watcher_unlocked) None
                           true false))
                  watcher_unlocked eq_refl eq_refl eq_refl eq_refl)).
Defined.

Lemma aio_ops_pending_iff_queued_writes_witness :
  m_queued_writes
    (state_of
       (aio_write true 1%nat 0 512 [] 0
          (init (example_ictx 4096 (Some watcher_unlocked) None true
                   false)))) = 0
  <-> aio_ops_pending (set_aio_ops_pending true watcher_unlocked) = false.
Proof.
  refine (proj1 (aio_ops_pending_iff_queued_writes true
                   (state_of
                      (aio_write true 1%nat 0 512 [] 0
                         (init (example_ictx 4096 (Some watcher_unlocked)
                                  None true false)))) _)
            (set_aio_ops_pending true watcher_unlocked) eq_refl).
  exists (example_ictx 4096 (Some watcher_unlocked) None true false),
    [Ev_aio_write 1%nat 0 512 [] 0].
  split.
  - intros w H. injection H as <-. reflexivity.
  - reflexivity.
Defined.

(** C2 at its failing schedule. *)
Lemma flag_raised_with_no_write_queued_witness :
  exists x,
    steps true (overtaken_write 1%nat 0 4 [x01; x02; x03; x04] 0)
      {| wq := init (example_ictx 4096 (Some watcher_owner) None true
                       false);
         inside_queue := [] |}
    = Running x
    /\ inside_queue x = []
    /\ m_queued_writes (wq x) = 0
    /\ image_watcher (m_image_ctx (wq x))
       = Some (set_aio_ops_pending true watcher_owner).
Proof.
  destruct (flag_raised_with_no_write_queued true
              (example_ictx 4096 (Some watcher_owner) None true false)
              watcher_owner 1%nat 0 4 [x01; x02; x03; x04] 0 eq_refl
              eq_refl (or_intror eq_refl) eq_refl)
    as (x & H1 & _ & H3 & _ & _ & H6 & H7 & _).
  exists x. split; [exact H1|]. split; [exact H3|].
  split; [exact H6|exact H7].
Defined.

Lemma inline_or_queued_witness :
  m_items
    (state_of
       (exec true (Ev_aio_write 1%nat 0 512 [] 0)
          (init (example_ictx 4096 (Some watcher_owner) None false false))))
  = [].
Proof.
  exact (proj2 (inline_or_queued true (Ev_aio_write 1%nat 0 512 [] 0)
                  (new_AioImageWrite 1%nat 0 512 [] 0)
                  (init (example_ictx 4096 (Some watcher_owner) None false
                           false))
                  eq_refl)).
Defined.

Lemma aio_read_ignores_lock_witness :
  Forall (fun e => is_watcher_effect e = false)
    (emitted (init (example_ictx 4096 (Some watcher_unlocked) None false
                      false))
       (aio_read true 1%nat 0 512 0
          (init (example_ictx 4096 (Some watcher_unlocked) None false
                   false)))).
Proof.
  exact (proj2 (proj2 (proj2 (aio_read_ignores_lock true 1%nat 0 512 0
                  (init (example_ictx 4096 (Some watcher_unlocked) None
                           false false)))))).
Defined.

(** Three writes queued, the first one taken by a worker; the controller
    suspends writes while that worker finishes. *)
Lemma suspend_writes_blocks_writes_witness :
  match
    suspend_writes true [Ev_process 0]
      (state_of
         (exec_all true
            [Ev_aio_write 1%nat 0 4 [x01; x02; x03; x04] 0;
             Ev_aio_write 2%nat 4 4 [x05; x06; x07; x08] 0;
             Ev_aio_write 3%nat 8 4 [x09; x0a; x0b; x0c] 0;
             Ev_dequeue]
            (init (example_ictx 4096 (Some watcher_owner) None true false))))
  with
  | Some (s1, _) =>
      m_in_progress_writes s1 = 0 /\ m_writes_suspended s1 = true
      /\ List.length (m_items s1) = 2%nat
  | None => False
  end.
Proof.
  destruct (suspend_writes true [Ev_process 0] _) as [[s1 rest]|] eqn:E;
    [|vm_compute in E; discriminate].
  assert (H0 : 0 <= m_in_progress_writes
                      (state_of
                         (exec_all true
                            [Ev_aio_write 1%nat 0 4 [x01; x02; x03; x04] 0;
                             Ev_aio_write 2%nat 4 4 [x05; x06; x07; x08] 0;
                             Ev_aio_write 3%nat 8 4 [x09; x0a; x0b; x0c] 0;
                             Ev_dequeue]
                            (init (example_ictx 4096 (Some watcher_owner)
                                     None true false)))))
    by (vm_compute; discriminate).
  destruct (suspend_writes_blocks_writes true [Ev_process 0] _ s1 rest H0
              eq_refl E)
    as (A & B & _).
  split; [exact A|]. split; [exact B|].
  vm_compute in E. injection E as <- _. reflexivity.
Defined.



Lemma children_stashed_or_sent_witness :
  sent_objects
    (sent_effects
       (send_request
          (example_ictx 4096 (Some watcher_owner) (Some 7) true false)
          (AioImageWrite 1%nat 0 4 [x01; x02; x03; x04] 0 false)))
  = []
  /\ journal_appends
       (sent_effects
          (send_request
             (example_ictx 4096 (Some watcher_owner) (Some 7) true false)
             (AioImageWrite 1%nat 0 4 [x01; x02; x03; x04] 0 false)))
     = [(AioWriteEvent 0 4 [x01; x02; x03; x04],
         [AioObjectWrite 0 0 [x01; x02; x03; x04] example_snapc 0],
         false)].
Proof.
  refine (proj2 (proj2 (children_stashed_or_sent
                   (example_ictx 4096 (Some watcher_owner) (Some 7) true
                      false)
                   (AioImageWrite 1%nat 0 4 [x01; x02; x03; x04] 0 false)
                   eq_refl _ eq_refl eq_refl))).
  exists watcher_owner. split; [reflexivity|right; reflexivity].
Defined.

Lemma journal_event_is_unclipped_witness :
  journal_appends
    (sent_effects
       (send_request
          (example_ictx 10 (Some watcher_owner) (Some 7) true false)
          (AioImageWrite 1%nat 8 4 [x01; x02; x03; x04] 0 false)))
  = [(AioWriteEvent 8 4 [x01; x02; x03; x04],
      [AioObjectWrite 0 8 [x01; x02] example_snapc 0], false)].
Proof.
  refine (proj1 (journal_event_is_unclipped
                   (example_ictx 10 (Some watcher_owner) (Some 7) true false)
                   1%nat 8 4 [x01; x02; x03; x04] 0 false 7
                   eq_refl _ eq_refl eq_refl _ _ _ eq_refl)).
  - exists watcher_owner. split; [reflexivity|right; reflexivity].
  - reflexivity.
  - reflexivity.
  - reflexivity.
Defined.

Lemma discard_children_by_geometry_witness :
  object_store_ops
    (sent_effects
       (send_request
          (example_ictx 4194304 (Some watcher_owner) None false true)
          (AioImageDiscard 7%nat 100 50 false)))
  = []
  /\ completion_result (fun _ => 0) 7%nat
       ([]
        ++ sent_effects
             (send
                (example_ictx 4194304 (Some watcher_owner) None false true)
                (AioImageDiscard 7%nat 100 50 false))
        ++ [])
     = None.
Proof.
  pose proof (proj2 (discard_children_by_geometry
                       (example_ictx 4194304 (Some watcher_owner) None
                          false true)
                       7%nat 100 50 false example_snapc (fun _ => 0)))
    as H.
  assert (Hlock : lock_usable
                    (example_ictx 4194304 (Some watcher_owner) None false
                       true))
    by (exists watcher_owner; split; [reflexivity|right; reflexivity]).
  assert (Hall : Forall
                   (interior
                      (example_ictx 4194304 (Some watcher_owner) None false
                         true))
                   (mapped_extents
                      (example_ictx 4194304 (Some watcher_owner) None false
                         true) 100 50)).
  { change (mapped_extents _ 100 50)
      with [ {| objectno := 0; offset := 100; length := 50;
                buffer_extents := [(0, 50)] |} ].
    constructor; [|constructor].
    split; vm_compute; discriminate. }
  specialize (H eq_refl Hlock eq_refl eq_refl Hall).
  destruct H as [H1 H2]. split; [exact H1|].
  refine (proj2 (H2 _ _) [] [] eq_refl eq_refl).
  - vm_compute. discriminate.
  - vm_compute. discriminate.
Defined.

(** Scenario "partial discard skipped": the discard of 50 bytes at offset
    100 gives the object store nothing to do; its completion does not
    fire, and the synchronous [discard] waits for it without end. *)
Example discard_partial_skipped :
  object_store_ops
    (trace
       (state_of
          (exec_all true [Ev_aio_discard 7%nat 100 50; Ev_dequeue;
                          Ev_process 0]
             (init (example_ictx 4194304 (Some watcher_owner) None true
                      true)))))
  = []
  /\ discard true (fun _ => 0) 7%nat 100 50
       (init (example_ictx 4194304 (Some watcher_owner) None true true))
     = None.
Proof.
  vm_compute. split; reflexivity.
Qed.

Lemma write_clipped_to_volume_witness :
  exists s',
    write true (fun _ => 0) 1%nat 4000 200 (repeat x2a 200) 0
      (init (example_ictx 4096 (Some watcher_owner) None true false))
    = Some (96, s')
    /\ object_store_ops (trace s')
       = [AioObjectWrite 0 4000 (firstn 96 (repeat x2a 200)) example_snapc
            0]
    /\ List.length (firstn 96 (repeat x2a 200)) = 96%nat.
Proof.
  apply (write_clipped_to_volume true (fun _ => 0)
           (example_ictx 4096 (Some watcher_owner) None true false)).
  - reflexivity.
  - exists watcher_owner. split; [reflexivity|right; reflexivity].
  - reflexivity.
  - reflexivity.
  - reflexivity.
  - vm_compute. discriminate.
  - vm_compute. discriminate.
  - intros e. vm_compute. discriminate.
  - reflexivity.
Defined.

(** ** The further properties at concrete inputs *)

Lemma counters_count_writes_witness :
  0 <= m_in_progress_writes
         (state_of
            (exec_all true example_three_writes
               (init (example_ictx 4096 (Some watcher_owner) None true
                        false))))
    <= m_queued_writes
         (state_of
            (exec_all true example_three_writes
               (init (example_ictx 4096 (Some watcher_owner) None true
                        false)))).
Proof.
  apply (counters_count_writes true).
  exists (example_ictx 4096 (Some watcher_owner) None true false),
    example_three_writes.
  split.
  - intros w H. injection H as <-. reflexivity.
  - vm_compute. reflexivity.
Defined.


Lemma suspended_write_blocks_queue_witness :
  exec_all true (repeat Ev_dequeue 3)
    (state_of
       (exec_all true example_write_then_read
          (init (example_ictx 4096 (Some watcher_owner) None true false))))
  = Ok (state_of
          (exec_all true example_write_then_read
             (init (example_ictx 4096 (Some watcher_owner) None true
                      false)))).
Proof.
  apply (suspended_write_blocks_queue true _
           (new_AioImageWrite 1%nat 0 4 [x01; x02; x03; x04] 0)
           [new_AioImageRead 2%nat 0 4 0]).
  - vm_compute. reflexivity.
  - vm_compute. reflexivity.
  - reflexivity.
Defined.

Lemma dequeue_in_submission_order_witness :
  exists s',
    exec_all true (repeat Ev_dequeue 2)
      (state_of
         (exec_all true
            [Ev_aio_write 1%nat 0 4 [x01; x02; x03; x04] 0;
             Ev_aio_read 2%nat 0 4 0]
            (init (example_ictx 4096 (Some watcher_owner) None true
                     false))))
    = Ok s'
    /\ m_items s' = []
    /\ m_processing s'
       = [new_AioImageWrite 1%nat 0 4 [x01; x02; x03; x04] 0;
          new_AioImageRead 2%nat 0 4 0].
Proof.
  destruct (dequeue_in_submission_order true
              (state_of
                 (exec_all true
                    [Ev_aio_write 1%nat 0 4 [x01; x02; x03; x04] 0;
                     Ev_aio_read 2%nat 0 4 0]
                    (init (example_ictx 4096 (Some watcher_owner) None true
                             false)))))
    as (s' & E & H1 & H2 & _).
  - vm_compute. reflexivity.
  - exists s'. split; [exact E|]. split; [exact H1|exact H2].
Defined.

Lemma submission_never_aborts_witness :
  is_ok
    (exec true (Ev_aio_discard 1%nat 0 4096)
       (init (example_ictx 4096 (Some watcher_unlocked) None false false)))
  = true.
Proof.
  exact (submission_never_aborts true (Ev_aio_discard 1%nat 0 4096)
           (new_AioImageDiscard 1%nat 0 4096)
           (init (example_ictx 4096 (Some watcher_unlocked) None false
                    false))
           watcher_unlocked eq_refl eq_refl).
Defined.

Lemma send_fails_or_finishes_witness :
  (exists pre r,
     sent_effects
       (send (example_read_only_ictx 4096 (Some watcher_owner) true)
          (AioImageDiscard 1%nat 0 4096 false))
     = Comp_get 1%nat :: pre ++ [Comp_fail 1%nat r]
     /\ forallb is_body pre = true
     /\ forallb childless pre = true)
  \/ (exists pre post,
        sent_effects
          (send (example_read_only_ictx 4096 (Some watcher_owner) true)
             (AioImageDiscard 1%nat 0 4096 false))
        = Comp_get 1%nat :: pre
            ++ Comp_finish_adding_requests 1%nat :: Comp_put 1%nat :: post
        /\ forallb is_body pre = true
        /\ forallb is_perf post = true).
Proof.
  exact (send_fails_or_finishes
           (example_read_only_ictx 4096 (Some watcher_owner) true)
           (AioImageDiscard 1%nat 0 4096 false) eq_refl).
Defined.

Lemma read_maps_clipped_bytes_witness :
  exists object_extents,
    read_map (example_ictx 10 (Some watcher_owner) None true false)
      [(8, 4); (0, 0); (2, 3)] [] 0
    = inr (object_extents, 5)
    /\ total_length object_extents = 5.
Proof.
  apply (read_maps_clipped_bytes
           (example_ictx 10 (Some watcher_owner) None true false)
           [(8, 4); (0, 0); (2, 3)]).
  - reflexivity.
  - repeat constructor; simpl; lia.
  - repeat constructor; simpl; lia.
  - reflexivity.
Defined.


Lemma cached_write_goes_to_cache_witness :
  object_store_ops
    (sent_effects
       (send_request
          (example_cached_ictx 4096 (Some watcher_owner) (Some 7) true
             false)
          (AioImageWrite 1%nat 0 4 [x01; x02; x03; x04] 0 false)))
  = []
  /\ journal_appends
       (sent_effects
          (send_request
             (example_cached_ictx 4096 (Some watcher_owner) (Some 7) true
                false)
             (AioImageWrite 1%nat 0 4 [x01; x02; x03; x04] 0 false)))
     = [(AioWriteEvent 0 4 [x01; x02; x03; x04], [], false)].
Proof.
  pose proof (cached_write_goes_to_cache
                (example_cached_ictx 4096 (Some watcher_owner) (Some 7) true
                   false)
                1%nat 0 4 [x01; x02; x03; x04] 0 false) as H.
  cbv zeta in H.
  assert (Hlock : lock_usable
                    (example_cached_ictx 4096 (Some watcher_owner) (Some 7)
                       true false))
    by (exists watcher_owner; split; [reflexivity|right; reflexivity]).
  specialize (H eq_refl Hlock eq_refl eq_refl).
  split; [exact (proj1 H)|exact (proj1 (proj2 H))].
Defined.

Lemma cached_discard_still_sends_witness :
  object_store_ops
    (sent_effects
       (send_request
          (example_cached_ictx 4096 (Some watcher_owner) None true false)
          (AioImageDiscard 1%nat 100 50 false)))
  = [AioObjectZero 0 100 50 example_snapc].
Proof.
  pose proof (cached_discard_still_sends
                (example_cached_ictx 4096 (Some watcher_owner) None true
                   false)
                1%nat 100 50 false) as H.
  cbv zeta in H.
  assert (Hlock : lock_usable
                    (example_cached_ictx 4096 (Some watcher_owner) None true
                       false))
    by (exists watcher_owner; split; [reflexivity|right; reflexivity]).
  specialize (H eq_refl eq_refl Hlock eq_refl eq_refl).
  exact (proj1 (proj2 H)).
Defined.

Lemma zero_length_write_witness :
  sent_effects
    (send_request (example_ictx 4096 (Some watcher_owner) (Some 7) true false)
       (AioImageWrite 1%nat 100 0 [] 0 false))
  = [Comp_init_time 1%nat AIO_TYPE_WRITE;
     Journal_append_event 1%nat (AioWriteEvent 100 0 []) [] false;
     Perf_inc l_librbd_wr 1; Perf_inc l_librbd_wr_bytes 0;
     Comp_finish_adding_requests 1%nat; Comp_put 1%nat].
Proof.
  pose proof (zero_length_write
                (example_ictx 4096 (Some watcher_owner) (Some 7) true false)
                (AioImageWrite 1%nat 100 0 [] 0 false)) as H.
  assert (Hlock : lock_usable
                    (example_ictx 4096 (Some watcher_owner) (Some 7) true
                       false))
    by (exists watcher_owner; split; [reflexivity|right; reflexivity]).
  exact (H eq_refl eq_refl Hlock eq_refl eq_refl).
Defined.

Lemma assemble_extent_gathers_witness :
  Z.of_nat
    (List.length
       (assemble_extent [(0, 2); (3, 1)] [x01; x02; x03; x04]))
  = 3.
Proof.
  refine (proj1 (assemble_extent_gathers [x01; x02; x03; x04])
            [(0, 2); (3, 1)] _).
  repeat constructor; simpl; lia.
Defined.

Lemma sync_wrappers_return_early_error_witness :
  exists s',
    write true (fun _ => 0) 1%nat 0 4 [x01; x02; x03; x04] 0
      (init (example_read_only_ictx 4096 (Some watcher_owner) true))
    = Some (- EROFS, s')
    /\ object_store_ops (trace s') = []
    /\ m_items s' = [] /\ m_queued_writes s' = 0.
Proof.
  refine (proj1 (sync_wrappers_return_early_error true (fun _ => 0)
                   (example_read_only_ictx 4096 (Some watcher_owner) true)
                   1%nat 0 4 [x01; x02; x03; x04] 0 _ _ _ _)).
  - exists watcher_owner. split; [reflexivity|right; reflexivity].
  - right. right. reflexivity.
  - split; [lia|reflexivity].
  - lia.
Defined.

Lemma unsuspended_lock_required_write_aborts_witness :
  is_ok
    (exec_all true [Ev_dequeue; Ev_process 0%nat]
       (state_of
          (aio_write true 1%nat 0 4 [x01; x02; x03; x04] 0
             (init (example_ictx 4096 (Some watcher_unlocked) None true
                      false)))))
  = false.
Proof.
  apply (unsuspended_lock_required_write_aborts true
           (state_of
              (aio_write true 1%nat 0 4 [x01; x02; x03; x04] 0
                 (init (example_ictx 4096 (Some watcher_unlocked) None true
                          false))))
           (new_AioImageWrite 1%nat 0 4 [x01; x02; x03; x04] 0) []
           (set_aio_ops_pending true watcher_unlocked)).
  - reflexivity.
  - reflexivity.
  - reflexivity.
  - reflexivity.
  - reflexivity.
  - reflexivity.
  - vm_compute. discriminate.
Defined.

Lemma suspend_writes_returns_witness :
  exists s' rest,
    suspend_writes true [Ev_process 0]
      (state_of
         (exec_all true example_three_writes
            (init (example_ictx 4096 (Some watcher_owner) None true
                     false))))
    = Some (s', rest)
    /\ m_in_progress_writes s' = 0 /\ m_writes_suspended s' = true
    /\ List.length (m_items s') = 2%nat.
Proof.
  destruct (suspend_writes_returns true
              (state_of
                 (exec_all true example_three_writes
                    (init (example_ictx 4096 (Some watcher_owner) None true
                             false)))))
    as (s' & rest & H1 & H2 & H3 & H4).
  - exists (example_ictx 4096 (Some watcher_owner) None true false),
      example_three_writes.
    split.
    + intros w H. injection H as <-. reflexivity.
    + vm_compute. reflexivity.
  - exists (set_aio_ops_pending true watcher_owner).
    split; [reflexivity|right; reflexivity].
  - exists s', rest. split; [exact H1|]. split; [exact H2|].
    split; [exact H3|]. rewrite H4. reflexivity.
Defined.

Lemma sync_wrappers_return_clipped_length_witness :
  (exists s',
     write true (fun _ => 0) 1%nat 4090 100 [x01; x02; x03; x04] 0
       (init (example_ictx 4096 (Some watcher_owner) None true false))
     = Some (6, s')
     /\ m_items s' = [] /\ m_queued_writes s' = 0)
  /\ (exists s',
        discard true (fun _ => 0) 1%nat 4090 100
          (init (example_ictx 4096 (Some watcher_owner) None true false))
        = Some (6, s')
        /\ m_items s' = [] /\ m_queued_writes s' = 0).
Proof.
  destruct (sync_wrappers_return_clipped_length true (fun _ => 0)
              (example_ictx 4096 (Some watcher_owner) None true false)
              1%nat 4090 100 [x01; x02; x03; x04] 0) as [Hw Hd].
  - exists watcher_owner. split; [reflexivity|right; reflexivity].
  - simpl. lia.
  - reflexivity.
  - reflexivity.
  - simpl. lia.
  - lia.
  - intros e. lia.
  - split; [exact (Hw eq_refl)|exact (Hd eq_refl)].
Defined.

Lemma discard_length_narrowed_to_int_witness :
  exists r s',
    discard true (fun _ => 0) 1%nat 0 (2 ^ 31)
      (init (example_ictx (2 ^ 32) (Some watcher_owner) None false false))
    = Some (r, s')
    /\ r < 0.
Proof.
  destruct (discard_length_narrowed_to_int true (fun _ => 0)
              (example_ictx (2 ^ 32) (Some watcher_owner) None false false)
              1%nat 0 (2 ^ 31))
    as (r & s' & H1 & H2 & _).
  - exists watcher_owner. split; [reflexivity|right; reflexivity].
  - simpl. lia.
  - reflexivity.
  - reflexivity.
  - reflexivity.
  - simpl. lia.
  - simpl. lia.
  - exists r, s'. split; [exact H1|exact H2].
Defined.

(** ** [common/Logger.cc]: the properties at concrete inputs *)

Lemma flush_all_loggers_catches_up_witness :
  exists g' next,
    LoggerCc.flush_all_loggers (H := LoggerCc.example_utime_ops) 3
      LoggerCc.example_conf (LoggerCc.at_sec 117) LoggerCc.example_globals
    = Some g'
    /\ LoggerCc.logger_list g'
       = map (fun p =>
                (fst p,
                 LoggerCc.flushed (LoggerCc.intervals 0 5 3) (snd p)))
           (LoggerCc.logger_list LoggerCc.example_globals)
    /\ LoggerCc.last_flush g' = 0 + Z.of_nat 3 * 5
    /\ 17 - 5 < LoggerCc.last_flush g' <= 17
    /\ LoggerCc.logger_event g' = Some 0%nat
    /\ LoggerCc.logger_timer g' = [] ++ [(next, 0%nat)]
    /\ LoggerCc.sec (LoggerCc.start g') + 17 < LoggerCc.sec next
       <= LoggerCc.sec (LoggerCc.start g') + 17 + 5.
Proof.
  apply (flush_all_loggers_catches_up LoggerCc.example_utime_ops 3
           LoggerCc.example_conf (LoggerCc.at_sec 117)
           LoggerCc.example_globals 17 3).
  - reflexivity.
  - reflexivity.
  - reflexivity.
  - split; [reflexivity|]. intros H. discriminate H.
  - apply le_n.
Defined.

Lemma zero_interval_never_returns_witness :
  LoggerCc.flush_all_loggers (H := LoggerCc.example_utime_ops) 1000
    LoggerCc.example_conf_zero (LoggerCc.at_sec 117)
    LoggerCc.example_globals
  = None.
Proof.
  apply (proj1 (zero_interval_never_returns LoggerCc.example_utime_ops
                  LoggerCc.example_conf_zero (LoggerCc.at_sec 117)
                  LoggerCc.example_globals eq_refl)).
  intros H. discriminate H.
Defined.

Lemma header_every_eleventh_flush_witness :
  LoggerCc.out
    (LoggerCc.flushed (LoggerCc.intervals 0 5 12) LoggerCc.example_logger)
  = [] ++ flat_map (LoggerCc.lines_of_flush 0)
            (LoggerCc.indexed 0 (LoggerCc.intervals 0 5 12)).
Proof.
  apply (header_every_eleventh_flush LoggerCc.example_logger
           (LoggerCc.intervals 0 5 12)).
  - reflexivity.
  - reflexivity.
  - intros H. discriminate H.
Defined.

Lemma new_Logger_lists_unwritten_logger_witness :
  exists g',
    LoggerCc.new_Logger (H := LoggerCc.example_utime_ops) 0
      LoggerCc.example_conf LoggerCc.example_cwd (LoggerCc.at_sec 100)
      (LoggerCc.at_sec 100) 1%nat LoggerCc.example_fn 0 LoggerCc.initial
    = Some g'
    /\ LoggerCc.logger_list g' = [] ++ [(1%nat, LoggerCc.example_logger)]
    /\ LoggerCc.closed g' = [].
Proof.
  apply (new_Logger_lists_unwritten_logger LoggerCc.example_utime_ops 0
           LoggerCc.example_conf LoggerCc.example_cwd (LoggerCc.at_sec 100)
           (LoggerCc.at_sec 100) 1%nat LoggerCc.example_fn 0
           LoggerCc.initial).
  - reflexivity.
  - apply le_n.
Defined.

Lemma stamps_grow_on_the_grid_witness :
  exists g,
    LoggerCc.calls (H := LoggerCc.example_utime_ops) 10
      LoggerCc.example_conf LoggerCc.example_calls LoggerCc.initial
    = Some g
    /\ (forall l,
          In l (LoggerCc.closed g) -> LoggerCc.well_stamped 5 l).
Proof.
  eexists. split; [vm_compute; reflexivity|].
  refine (proj2 (stamps_grow_on_the_grid LoggerCc.example_utime_ops
                   LoggerCc.example_conf _ _ _)).
  - reflexivity.
  - exists 10%nat, LoggerCc.example_calls. vm_compute. reflexivity.
Defined.

Lemma flush_event_live_while_loggers_exist_witness :
  exists g e,
    LoggerCc.calls (H := LoggerCc.example_utime_ops) 10
      LoggerCc.example_conf LoggerCc.example_calls LoggerCc.initial
    = Some g
    /\ LoggerCc.logger_event g = Some e
    /\ LoggerCc.is_scheduled e g = true.
Proof.
  destruct (LoggerCc.calls (H := LoggerCc.example_utime_ops) 10
              LoggerCc.example_conf LoggerCc.example_calls
              LoggerCc.initial) as [g|] eqn:Hc; [|vm_compute in Hc;
                                                  discriminate Hc].
  destruct (proj1 (flush_event_live_while_loggers_exist
                     LoggerCc.example_utime_ops LoggerCc.example_conf g
                     (ex_intro _ 10%nat
                        (ex_intro _ LoggerCc.example_calls Hc))))
    as (e & He & Hs).
  - vm_compute in Hc. injection Hc as <-. discriminate.
  - exists g, e. split; [reflexivity|]. split; [exact He|exact Hs].
Defined.
